(** * Image-to-voxel converter: a shallow embedding of [src/image_to_voxel.py]

    The development follows the Python module top to bottom:

    - [Float]: the IEEE-754 arithmetic the NumPy expressions run in
      (binary64 for [gray / 255.0 * max_height], binary32 for the distance
      field), as correctly rounded operations on rationals;
    - [Np]: error results, [for] loops, 2-D arrays as lists of rows and the
      3-D voxel arrays as flat C-ordered buffers with a shape;
    - [OpenCV]: the image operations the module calls but does not define;
    - the three strategies, [save_voxels] and [convert_image];
    - [visualize_3d] and [main], in a session that also records what is
      shown and printed;
    - the properties of the specification, claim by claim, and further
      properties of the code. *)

From Stdlib Require Import String ZArith QArith Qabs List Bool Lia Lqa Sorted.
Import ListNotations.
Local Open Scope Z_scope.

(* ================================================================== *)
(** * Floating point *)

Module Float.

(** [round_half_even n d] is the integer nearest to [n / d] ([0 <= n],
    [0 < d]), ties going to the even neighbour: the rounding mode of every
    NumPy and Python float operation. *)
Definition round_half_even (n d : Z) : Z :=
  let q := n / d in
  let r := n mod d in
  match 2 * r ?= d with
  | Lt => q
  | Gt => q + 1
  | Eq => if Z.even q then q else q + 1
  end.

(** [ge_pow2 n d t] decides [2^t <= n / d]. *)
Definition ge_pow2 (n d t : Z) : bool :=
  if 0 <=? t then d * 2 ^ t <=? n else d <=? n * 2 ^ (- t).

(** [m * 2^e] as a rational. *)
Definition scaled (m e : Z) : Q :=
  if 0 <=? e then inject_Z (m * 2 ^ e) else Qmake m (Z.to_pos (2 ^ (- e))).

(** Rounding of the positive rational [n / d] to [p] significant bits.  The
    exponent [e] is chosen so that [2^(p-1) <= (n/d) / 2^e < 2^p].  The
    exponent range is not bounded: the model is exact for every value that
    is neither subnormal nor overflowing, which covers the quotients and
    products of 8-bit samples, grid sizes and pixel distances computed
    below. *)
Definition rnd_pos (p n d : Z) : Q :=
  let t := Z.log2 n - Z.log2 d in
  let e := (if ge_pow2 n d t then t else t - 1) - p + 1 in
  let m := if 0 <=? e then round_half_even n (d * 2 ^ e)
           else round_half_even (n * 2 ^ (- e)) d in
  scaled m e.

Definition rnd (p : Z) (x : Q) : Q :=
  match Qnum x with
  | Z0 => 0%Q
  | Zpos n => rnd_pos p (Zpos n) (Zpos (Qden x))
  | Zneg n => Qopp (rnd_pos p (Zpos n) (Zpos (Qden x)))
  end.

(** Truncation toward zero: [ndarray.astype(int)], [int(x)] and the cast to
    [uint8] of a value already in range. *)
Definition trunc (x : Q) : Z := Z.quot (Qnum x) (Zpos (Qden x)).

(** The operations at precision [p].  The divisors of the program are the
    constants [255.0] and [180.0], [max(depth_levels, 1)] and a [max_dist]
    tested positive: division by zero does not arise. *)
Definition of_int (p : Z) (n : Z) : Q := rnd p (inject_Z n).
Definition div (p : Z) (x y : Q) : Q := rnd p (x / y).
Definition mul (p : Z) (x y : Q) : Q := rnd p (x * y).
Definition sub (p : Z) (x y : Q) : Q := rnd p (x - y).

(** Precisions of [np.float64] / Python [float] and of [np.float32]. *)
Definition binary64 : Z := 53.
Definition binary32 : Z := 24.

End Float.


(* ================================================================== *)
(** * Python and NumPy values *)

Module Np.

(** The exceptions the module can end in. *)
Inductive exn : Type :=
| FileNotFoundError
| cv2_error
| ValueError
| IndexError
| UnboundLocalError
| AttributeError.

Inductive result (A : Type) : Type :=
| Ok (a : A)
| Raise (e : exn).
Arguments Ok {A} a.
Arguments Raise {A} e.

Definition bind {A B} (c : result A) (k : A -> result B) : result B :=
  match c with
  | Ok a => k a
  | Raise e => Raise e
  end.

Declare Scope py_scope.
Delimit Scope py_scope with py.
Notation "x <- c ;; k" := (bind c (fun x => k))
  (at level 61, c at next level, right associativity) : py_scope.
Notation "' pat <- c ;; k" := (bind c (fun x => match x with pat => k end))
  (at level 61, pat pattern, c at next level, right associativity) : py_scope.
Local Open Scope py_scope.

(** [for i in l: s = body i s], stopping at the first exception. *)
Fixpoint for_ {I S : Type} (l : list I) (body : I -> S -> result S) (s : S)
  : result S :=
  match l with
  | [] => Ok s
  | i :: l' => s' <- body i s ;; for_ l' body s'
  end.

(** [range(n)]; empty when [n <= 0]. *)
Definition range (n : Z) : list Z := map Z.of_nat (seq 0 (Z.to_nat n)).

(** An index into an axis of length [d], with NumPy's wrap-around of
    negative indices. *)
Definition index (d : nat) (i : Z) : result nat :=
  if 0 <=? i then
    if i <? Z.of_nat d then Ok (Z.to_nat i) else Raise IndexError
  else
    if - Z.of_nat d <=? i then Ok (Z.to_nat (i + Z.of_nat d)) else Raise IndexError.

(** ** 2-D arrays: the image planes, indexed [a[y, x]] *)

Definition array2 (A : Type) : Type := list (list A).

Definition item {A} (l : list A) (i : Z) : result A :=
  k <- index (length l) i ;;
  match nth_error l k with
  | Some v => Ok v
  | None => Raise IndexError
  end.

Definition getitem2 {A} (a : array2 A) (y x : Z) : result A :=
  row <- item a y ;; item row x.

(** [a] has [h] rows of [w] entries. *)
Definition shape2 {A} (a : array2 A) (h w : nat) : Prop :=
  length a = h /\ Forall (fun row => length row = w) a.

Definition map2 {A B} (f : A -> B) (a : array2 A) : array2 B := map (map f) a.

(** ** 3-D arrays: a flat C-ordered buffer and its shape *)

Record ndarray (A : Type) : Type := mk_ndarray {
  shape : nat * nat * nat;
  data : list A
}.
Arguments mk_ndarray {A} shape data.
Arguments shape {A} n.
Arguments data {A} n.

Definition size3 (sh : nat * nat * nat) : nat :=
  let '(d0, d1, d2) := sh in (d0 * d1 * d2)%nat.

(** Offset of [(x, y, z)] in the buffer of an array of shape [sh]. *)
Definition ravel (sh : nat * nat * nat) (x y z : nat) : nat :=
  let '(_, d1, d2) := sh in ((x * d1 + y) * d2 + z)%nat.

Definition unravel (sh : nat * nat * nat) (i : nat) : nat * nat * nat :=
  let '(_, d1, d2) := sh in
  ((i / d2 / d1)%nat, ((i / d2) mod d1)%nat, (i mod d2)%nat).

Definition inside (sh : nat * nat * nat) (x y z : nat) : bool :=
  let '(d0, d1, d2) := sh in ((x <? d0) && (y <? d1) && (z <? d2))%nat.

Definition wf {A} (g : ndarray A) : Prop := length (data g) = size3 (shape g).

(** [np.zeros((d0, d1, d2), dtype)]: a negative dimension is a
    [ValueError]. *)
Definition np_zeros {A} (zero : A) (d0 d1 d2 : Z) : result (ndarray A) :=
  if (d0 <? 0) || (d1 <? 0) || (d2 <? 0) then Raise ValueError
  else
    let sh := (Z.to_nat d0, Z.to_nat d1, Z.to_nat d2) in
    Ok (mk_ndarray sh (repeat zero (size3 sh))).

Fixpoint update {A} (k : nat) (v : A) (l : list A) : list A :=
  match l, k with
  | [], _ => []
  | _ :: l', O => v :: l'
  | a :: l', S k' => a :: update k' v l'
  end.

(** [g[x, y, z] = v] *)
Definition setitem {A} (g : ndarray A) (x y z : Z) (v : A) : result (ndarray A) :=
  let '(d0, d1, d2) := shape g in
  ix <- index d0 x ;;
  iy <- index d1 y ;;
  iz <- index d2 z ;;
  Ok (mk_ndarray (shape g) (update (ravel (shape g) ix iy iz) v (data g))).

(** The cell at [(x, y, z)], if there is one. *)
Definition cell {A} (g : ndarray A) (x y z : nat) : option A :=
  if inside (shape g) x y z then nth_error (data g) (ravel (shape g) x y z)
  else None.

(** [np.max] of a float plane; NumPy refuses an empty array. *)
Definition Qmax_bool (a b : Q) : Q := if Qle_bool a b then b else a.

Definition np_max (a : array2 Q) : result Q :=
  match concat a with
  | [] => Raise ValueError
  | v :: l => Ok (fold_left Qmax_bool l v)
  end.

(** [np.sum] of a boolean array. *)
Definition np_sum (g : ndarray bool) : Z :=
  Z.of_nat (length (filter (fun b => b) (data g))).

End Np.
Import Np.
Local Open Scope py_scope.

(* ================================================================== *)
(** * The OpenCV operations the module calls *)

Definition rgb : Type := (Z * Z * Z)%type.
Definition hsv : Type := (Z * Z * Z)%type.
Definition black : rgb := (0, 0, 0).

Definition uint8 (v : Z) : Prop := 0 <= v <= 255.
Definition uint8x3 (c : Z * Z * Z) : Prop :=
  let '(a, b, d) := c in uint8 a /\ uint8 b /\ uint8 d.

Definition all2 {A} (P : A -> Prop) (a : array2 A) : Prop := Forall (Forall P) a.

(** [cv2.resize], [cv2.cvtColor], [cv2.Canny] and [cv2.distanceTransform]
    are library code; the strategies are verified against any
    implementation that keeps the contract [OpenCV_ok]. *)
Record OpenCV : Type := {
  (** [cv2.resize(src, (width, height))] *)
  cv2_resize : array2 rgb -> Z -> Z -> result (array2 rgb);
  (** [cv2.cvtColor(src, cv2.COLOR_RGB2GRAY)] *)
  cv2_RGB2GRAY : array2 rgb -> array2 Z;
  (** [cv2.cvtColor(src, cv2.COLOR_RGB2HSV)] *)
  cv2_RGB2HSV : array2 rgb -> array2 hsv;
  (** [cv2.Canny(src, low, high)] *)
  cv2_Canny : array2 Z -> Z -> Z -> array2 Z;
  (** [cv2.distanceTransform(src, cv2.DIST_L2, 5)], a [float32] plane *)
  cv2_distanceTransform : array2 Z -> array2 Q
}.

(** A decoded image: a non-empty rectangle of 8-bit RGB triples. *)
Definition valid_image (image : array2 rgb) : Prop :=
  exists h w, (0 < h)%nat /\ (0 < w)%nat /\ shape2 image h w /\ all2 uint8x3 image.

Record OpenCV_ok (cv : OpenCV) : Prop := {
  (** [resize] asserts [!dsize.empty()] before anything else *)
  resize_empty : forall src w h,
    w <= 0 \/ h <= 0 -> cv2_resize cv src w h = Raise cv2_error;
  resize_shape : forall src w h,
    valid_image src -> 0 < w -> 0 < h ->
    exists dst, cv2_resize cv src w h = Ok dst /\
                shape2 dst (Z.to_nat h) (Z.to_nat w) /\ all2 uint8x3 dst;
  gray_shape : forall src h w,
    shape2 src h w -> shape2 (cv2_RGB2GRAY cv src) h w;
  gray_range : forall src, all2 uint8 (cv2_RGB2GRAY cv src);
  hsv_shape : forall src h w,
    shape2 src h w -> shape2 (cv2_RGB2HSV cv src) h w;
  hsv_range : forall src, all2 uint8x3 (cv2_RGB2HSV cv src);
  canny_shape : forall src lo hi h w,
    shape2 src h w -> shape2 (cv2_Canny cv src lo hi) h w;
  dist_shape : forall src h w,
    shape2 src h w -> shape2 (cv2_distanceTransform cv src) h w;
  dist_nonneg : forall src,
    all2 (fun d => (0 <= d)%Q) (cv2_distanceTransform cv src)
}.

(* ================================================================== *)
(** * The three strategies of [ImageToVoxelConverter] *)

(** One entry of [((gray / 255.0) * max_height).astype(int)]. *)
Definition height_of (g max_height : Z) : Z :=
  Float.trunc
    (Float.mul Float.binary64
       (Float.div Float.binary64 (inject_Z g) 255)
       (Float.of_int Float.binary64 max_height)).

Definition grids : Type := (ndarray bool * ndarray rgb)%type.

Definition _height_based_voxels (cv : OpenCV) (image : array2 rgb)
    (voxel_resolution max_height : Z) : result grids :=
  resized <- cv2_resize cv image voxel_resolution voxel_resolution ;;
  let gray := cv2_RGB2GRAY cv resized in
  let heights := map2 (fun g => height_of g max_height) gray in
  voxel_grid <- np_zeros false voxel_resolution voxel_resolution max_height ;;
  colors <- np_zeros black voxel_resolution voxel_resolution max_height ;;
  for_ (range voxel_resolution) (fun x =>
    for_ (range voxel_resolution) (fun y '(voxel_grid, colors) =>
      height <- getitem2 heights y x ;;
      if height >? 0 then
        for_ (range height) (fun z '(voxel_grid, colors) =>
          voxel_grid <- setitem voxel_grid x y z true ;;
          pixel <- getitem2 resized y x ;;
          colors <- setitem colors x y z pixel ;;
          Ok (voxel_grid, colors)) (voxel_grid, colors)
      else Ok (voxel_grid, colors)))
    (voxel_grid, colors).

(** [min(int((pixel_hsv[0] / 180.0) * layers), layers - 1)] *)
Definition hue_layer_of (hue layers : Z) : Z :=
  Z.min
    (Float.trunc
       (Float.mul Float.binary64
          (Float.div Float.binary64 (inject_Z hue) 180)
          (Float.of_int Float.binary64 layers)))
    (layers - 1).

Definition _color_layered_voxels (cv : OpenCV) (image : array2 rgb)
    (voxel_resolution layers : Z) : result grids :=
  resized <- cv2_resize cv image voxel_resolution voxel_resolution ;;
  let hsv := cv2_RGB2HSV cv resized in
  voxel_grid <- np_zeros false voxel_resolution voxel_resolution layers ;;
  colors <- np_zeros black voxel_resolution voxel_resolution layers ;;
  for_ (range voxel_resolution) (fun x =>
    for_ (range voxel_resolution) (fun y '(voxel_grid, colors) =>
      pixel_rgb <- getitem2 resized y x ;;
      pixel_hsv <- getitem2 hsv y x ;;
      let '(hue, sat, val) := pixel_hsv in
      let hue_layer := hue_layer_of hue layers in
      if (sat >? 30) && (val >? 30) then
        voxel_grid <- setitem voxel_grid x y hue_layer true ;;
        colors <- setitem colors x y hue_layer pixel_rgb ;;
        Ok (voxel_grid, colors)
      else Ok (voxel_grid, colors)))
    (voxel_grid, colors).

(** One entry of
    [(dist_transform / max_dist * (depth_levels - 1)).astype(int)]; the
    plane is [float32], and so is the whole product. *)
Definition depth_of (dist max_dist : Q) (depth_levels : Z) : Z :=
  Float.trunc
    (Float.mul Float.binary32
       (Float.div Float.binary32 dist max_dist)
       (Float.of_int Float.binary32 (depth_levels - 1))).

(** [1.0 - (z / max(depth_levels, 1)) * 0.5], in Python floats. *)
Definition color_intensity_of (z depth_levels : Z) : Q :=
  Float.sub Float.binary64 1
    (Float.mul Float.binary64
       (Float.div Float.binary64 (inject_Z z) (inject_Z (Z.max depth_levels 1)))
       (1 # 2)).

(** [(channel * color_intensity).astype(np.uint8)] *)
Definition darken_channel (c : Z) (color_intensity : Q) : Z :=
  Float.trunc (Float.mul Float.binary64 (inject_Z c) color_intensity) mod 256.

Definition darken (pixel_color : rgb) (color_intensity : Q) : rgb :=
  let '(r, g, b) := pixel_color in
  (darken_channel r color_intensity,
   darken_channel g color_intensity,
   darken_channel b color_intensity).

Definition positive_float (q : Q) : bool := 0 <? Qnum q.

Definition depth_map_of (dist_transform : array2 Q) (max_dist : Q)
    (depth_levels : Z) : array2 Z :=
  if positive_float max_dist then
    map2 (fun d => depth_of d max_dist depth_levels) dist_transform
  else
    map2 (fun _ => 0) dist_transform.

Definition _structure_based_voxels (cv : OpenCV) (image : array2 rgb)
    (voxel_resolution depth_levels : Z) : result grids :=
  resized <- cv2_resize cv image voxel_resolution voxel_resolution ;;
  let gray_resized := cv2_RGB2GRAY cv resized in
  let edges := cv2_Canny cv gray_resized 50 150 in
  let dist_transform :=
    cv2_distanceTransform cv (map2 (fun e => (255 - e) mod 256) edges) in
  max_dist <- np_max dist_transform ;;
  let depth_map := depth_map_of dist_transform max_dist depth_levels in
  voxel_grid <- np_zeros false voxel_resolution voxel_resolution depth_levels ;;
  colors <- np_zeros black voxel_resolution voxel_resolution depth_levels ;;
  for_ (range voxel_resolution) (fun x =>
    for_ (range voxel_resolution) (fun y '(voxel_grid, colors) =>
      max_depth <- getitem2 depth_map y x ;;
      pixel_color <- getitem2 resized y x ;;
      for_ (range (max_depth + 1)) (fun z '(voxel_grid, colors) =>
        voxel_grid <- setitem voxel_grid x y z true ;;
        let color_intensity := color_intensity_of z depth_levels in
        colors <- setitem colors x y z (darken pixel_color color_intensity) ;;
        Ok (voxel_grid, colors)) (voxel_grid, colors)))
    (voxel_grid, colors).

(* ================================================================== *)
(** * The Volume Encoder and the orchestrator *)

(** One entry of the dictionary returned by [convert_image]. *)
Record strategy_result : Type := {
  voxels : ndarray bool;
  colors : ndarray rgb;
  count : Z;
  method : string
}.

(** The arrays handed to [np.savez_compressed]. *)
Record npz : Type := {
  positions : list (nat * nat * nat);
  npz_colors : list rgb;
  grid_shape : nat * nat * nat;
  npz_method : string
}.

(** Offsets of the [True] entries of a buffer, scanned from offset [k] on:
    [np.where] enumerates them in C order. *)
Fixpoint where_from (k : nat) (l : list bool) : list nat :=
  match l with
  | [] => []
  | b :: l' => if b then k :: where_from (S k) l' else where_from (S k) l'
  end.

(** [np.column_stack(np.where(g))] *)
Definition np_where (g : ndarray bool) : list (nat * nat * nat) :=
  map (unravel (shape g)) (where_from 0 (data g)).

Definition getitem3 {A} (g : ndarray A) (c : nat * nat * nat) : result A :=
  let '(x, y, z) := c in
  match cell g x y z with
  | Some v => Ok v
  | None => Raise IndexError
  end.

(** [g[occupied]] for a tuple of index arrays. *)
Fixpoint take {A} (g : ndarray A) (cs : list (nat * nat * nat)) : result (list A) :=
  match cs with
  | [] => Ok []
  | c :: cs' => v <- getitem3 g c ;; vs <- take g cs' ;; Ok (v :: vs)
  end.

Definition encode_npz (voxel_data : strategy_result) : result npz :=
  let occupied := np_where (voxels voxel_data) in
  cs <- take (colors voxel_data) occupied ;;
  Ok {| positions := occupied;
        npz_colors := cs;
        grid_shape := shape (voxels voxel_data);
        npz_method := method voxel_data |}.

(** [s.endswith(suffix)] *)
Definition endswith (s suffix : string) : bool :=
  let n := String.length s in
  let k := String.length suffix in
  (k <=? n)%nat && String.eqb (String.substring (n - k) k s) suffix.

(** ** Input and output *)

Inductive event : Type :=
| ev_exists (path : string)
| ev_imread (path : string)
| ev_print_processing (width height : nat)
| ev_print_running (m : string)
| ev_print_created (occupied_count : Z) (m : string)
| ev_makedirs (output_path : string)
| ev_savez (output_path : string) (payload : npz)
| ev_print_saved (output_path : string).

(** The world outside the converter: the files ([None]: no such path,
    [Some None]: a file [cv2.imread] cannot decode, [Some (Some img)]: the
    decoded BGR image), the outcome of
    [os.makedirs(os.path.dirname(output_path), exist_ok=True)], and the log
    of what has been done so far. *)
Record world : Type := {
  files : string -> option (option (array2 rgb));
  makedirs : string -> result unit;
  log : list event
}.

Definition io (A : Type) : Type := world -> world * result A.

Definition io_ret {A} (a : A) : io A := fun w => (w, Ok a).
Definition io_raise {A} (e : exn) : io A := fun w => (w, Raise e).
Definition io_bind {A B} (c : io A) (k : A -> io B) : io B :=
  fun w =>
    match c w with
    | (w', Ok a) => k a w'
    | (w', Raise e) => (w', Raise e)
    end.
Definition io_lift {A} (r : result A) : io A := fun w => (w, r).
Definition emit (e : event) : io unit :=
  fun w => ({| files := files w; makedirs := makedirs w; log := log w ++ [e] |}, Ok tt).

Declare Scope io_scope.
Delimit Scope io_scope with io.
Notation "x <- c ;; k" := (io_bind c (fun x => k))
  (at level 61, c at next level, right associativity) : io_scope.
Notation "c ;; k" := (io_bind c (fun _ => k))
  (at level 61, right associativity) : io_scope.

Fixpoint io_for {I S : Type} (l : list I) (body : I -> S -> io S) (s : S) : io S :=
  match l with
  | [] => io_ret s
  | i :: l' => io_bind (body i s) (fun s' => io_for l' body s')
  end.

Definition os_path_exists (path : string) : io bool :=
  (emit (ev_exists path) ;;
   fun w => (w, Ok (match files w path with Some _ => true | None => false end)))%io.

Definition cv2_imread (path : string) : io (option (array2 rgb)) :=
  (emit (ev_imread path) ;;
   fun w => (w, Ok (match files w path with Some (Some img) => Some img | _ => None end)))%io.

(** [cv2.cvtColor(img, cv2.COLOR_BGR2RGB)]; [None] is refused. *)
Definition cv2_BGR2RGB (img : option (array2 rgb)) : result (array2 rgb) :=
  match img with
  | Some a => Ok (map2 (fun '(b, g, r) => (r, g, b)) a)
  | None => Raise cv2_error
  end.

(** [kwargs.get(key, default)] *)
Fixpoint kwargs_get (kwargs : list (string * Z)) (key : string) (default : Z) : Z :=
  match kwargs with
  | [] => default
  | (k, v) :: rest => if String.eqb k key then v else kwargs_get rest key default
  end.

(** [results[m] = r] *)
Fixpoint dict_set {V} (d : list (string * V)) (m : string) (r : V) : list (string * V) :=
  match d with
  | [] => [(m, r)]
  | (k, v) :: rest => if String.eqb k m then (k, r) :: rest else (k, v) :: dict_set rest m r
  end.

Definition supported_methods : list string :=
  ["height"; "color"; "structure"; "all"]%string.

(** [convert_image]: the local variables [voxels, colors] are unbound until
    a branch of the [if] chain assigns them. *)
Definition convert_image (cv : OpenCV) (image_path method : string)
    (kwargs : list (string * Z)) : io (list (string * strategy_result)) :=
  (found <- os_path_exists image_path ;;
   if negb found then io_raise FileNotFoundError else
   img_bgr <- cv2_imread image_path ;;
   img_rgb <- io_lift (cv2_BGR2RGB img_bgr) ;;
   emit (ev_print_processing (length (hd [] img_rgb)) (length img_rgb)) ;;
   let methods_to_run :=
     if String.eqb method "all" then ["height"; "color"; "structure"]%string
     else [method] in
   st <- io_for methods_to_run (fun m '(bound, results) =>
     emit (ev_print_running m) ;;
     bound <-
       (if String.eqb m "height" then
          vc <- io_lift (_height_based_voxels cv img_rgb
                           (kwargs_get kwargs "voxel_resolution" 64)
                           (kwargs_get kwargs "max_height" 32)) ;;
          io_ret (Some vc)
        else if String.eqb m "color" then
          vc <- io_lift (_color_layered_voxels cv img_rgb
                           (kwargs_get kwargs "voxel_resolution" 48)
                           (kwargs_get kwargs "layers" 16)) ;;
          io_ret (Some vc)
        else if String.eqb m "structure" then
          vc <- io_lift (_structure_based_voxels cv img_rgb
                           (kwargs_get kwargs "voxel_resolution" 56)
                           (kwargs_get kwargs "depth_levels" 24)) ;;
          io_ret (Some vc)
        else io_ret bound) ;;
     match bound with
     | None => io_raise UnboundLocalError
     | Some (voxel_grid, color_grid) =>
         let occupied_count := np_sum voxel_grid in
         emit (ev_print_created occupied_count m) ;;
         io_ret (bound,
                 dict_set results m
                   {| voxels := voxel_grid; colors := color_grid;
                      count := occupied_count; method := m |})
     end) (None, []) ;;
   io_ret (snd st))%io.

(** [save_voxels]; the class has no [_save_binary_format], so a [.bin]
    path ends in [AttributeError]. *)
Definition save_voxels (voxel_data : strategy_result) (output_path : string)
  : io unit :=
  (emit (ev_makedirs output_path) ;;
   _ <- (fun w => (w, makedirs w output_path)) ;;
   (if endswith output_path ".npz" then
      payload <- io_lift (encode_npz voxel_data) ;;
      emit (ev_savez output_path payload)
    else if endswith output_path ".bin" then io_raise AttributeError
    else io_ret tt) ;;
   emit (ev_print_saved output_path))%io.

(* ================================================================== *)
(** * The formulas of the specification *)

(** These follow the wording of the specification, in exact arithmetic;
    they are compared below with what the code computes. *)
Module Spec.

(** "height(x,y) = floor((g/255) * H)" *)
Definition height (g H : Z) : Z := (g * H) / 255.

(** "hue_layer = floor((hue/180) * L), clamped to [0, L-1]" *)
Definition hue_layer (hue L : Z) : Z := Z.max 0 (Z.min ((hue * L) / 180) (L - 1)).

(** "intensity = 1.0 - (z/D)*0.5, color = round(pixel_color * intensity)
    per channel, clamped to [0,255]": [c * (2D - z) / (2D)], rounded. *)
Definition darkened_channel (c z D : Z) : Z :=
  Z.max 0 (Z.min 255 (Float.round_half_even (c * (2 * D - z)) (2 * D))).

(** "set occupied at each listed coordinate, zero elsewhere" *)
Definition dense_of_payload (p : npz) : ndarray bool :=
  fold_left
    (fun g '(x, y, z) =>
       mk_ndarray (shape g) (update (ravel (shape g) x y z) true (data g)))
    (positions p)
    (mk_ndarray (grid_shape p) (repeat false (size3 (grid_shape p)))).

(** Flattened index of a listed coordinate. *)
Definition flat_index (p : npz) (c : nat * nat * nat) : nat :=
  let '(x, y, z) := c in ravel (grid_shape p) x y z.

End Spec.

(* ================================================================== *)
(** * A table-driven OpenCV for worked examples *)

(** [table_cv sc] answers every call from the per-pixel tables of [sc]
    (what OpenCV returns on one particular picture), clamped to the range
    of the plane's element type.  It keeps the contract [OpenCV_ok] and is
    used to run the strategies on concrete inputs. *)
Record scene : Type := {
  sc_rgb : nat -> nat -> rgb;
  sc_gray : nat -> nat -> Z;
  sc_hsv : nat -> nat -> hsv;
  sc_edge : nat -> nat -> Z;
  sc_dist : nat -> nat -> Q
}.

Definition clamp8 (v : Z) : Z := Z.max 0 (Z.min 255 v).
Definition clamp8x3 (c : Z * Z * Z) : Z * Z * Z :=
  let '(a, b, d) := c in (clamp8 a, clamp8 b, clamp8 d).

(** The plane with [h] rows and [w] columns whose entry [(y, x)] is [f x y]. *)
Definition tabulate2 {A} (h w : nat) (f : nat -> nat -> A) : array2 A :=
  map (fun y => map (fun x => f x y) (seq 0 w)) (seq 0 h).

(** The plane of the same shape as [a] whose entry [(y, x)] is [f x y]. *)
Definition retabulate2 {A B} (f : nat -> nat -> B) (a : array2 A) : array2 B :=
  map (fun '(y, row) => map (fun x => f x y) (seq 0 (length row)))
      (combine (seq 0 (length a)) a).

Definition table_cv (sc : scene) : OpenCV := {|
  cv2_resize := fun src w h =>
    if (w <=? 0) || (h <=? 0) then Raise cv2_error
    else Ok (tabulate2 (Z.to_nat h) (Z.to_nat w) (fun x y => clamp8x3 (sc_rgb sc x y)));
  cv2_RGB2GRAY := retabulate2 (fun x y => clamp8 (sc_gray sc x y));
  cv2_RGB2HSV := retabulate2 (fun x y => clamp8x3 (sc_hsv sc x y));
  cv2_Canny := fun src _ _ => retabulate2 (fun x y => clamp8 (sc_edge sc x y)) src;
  cv2_distanceTransform := retabulate2 (fun x y => Qabs (sc_dist sc x y))
|}.

(** A uniform picture: every pixel has the same color and derived values. *)
Definition uniform_scene (c : rgb) (g : Z) (px : hsv) (d : Q) : scene := {|
  sc_rgb := fun _ _ => c;
  sc_gray := fun _ _ => g;
  sc_hsv := fun _ _ => px;
  sc_edge := fun _ _ => 0;
  sc_dist := fun _ _ => d
|}.

(** A picture with a vertical edge: the column [x = 0] is black and lies
    on the edge, the columns to its right are white, at distance [x] from
    the edge. *)
Definition edge_scene : scene := {|
  sc_rgb := fun x _ => if (x =? 0)%nat then (0, 0, 0) else (255, 255, 255);
  sc_gray := fun x _ => if (x =? 0)%nat then 0 else 255;
  sc_hsv := fun x _ => if (x =? 0)%nat then (0, 0, 0) else (0, 0, 255);
  sc_edge := fun x _ => if (x =? 0)%nat then 255 else 0;
  sc_dist := fun x _ => inject_Z (Z.of_nat x)
|}.

Definition edge_image : array2 rgb :=
  [[(0, 0, 0); (255, 255, 255)]; [(0, 0, 0); (255, 255, 255)]].

(** The largest finite [float32], [(2^24 - 1) * 2^104]: what
    [cv2.distanceTransform] leaves in every pixel of a picture without any
    edge, where there is no zero pixel to measure a distance to. *)
Definition FLT_MAX : Q := inject_Z ((2 ^ 24 - 1) * 2 ^ 104).

(** One gray pixel of level 155, and one saturated green pixel of hue 52
    (104 degrees).  Neither picture has an edge. *)
Definition gray_scene : scene := uniform_scene (155, 155, 155) 155 (0, 0, 155) FLT_MAX.
Definition gray_image : array2 rgb := [[(155, 155, 155)]].

Definition green_scene : scene := uniform_scene (68, 255, 0) 170 (52, 255, 255) FLT_MAX.
Definition green_image : array2 rgb := [[(68, 255, 0)]].

(** A picture of two hues: the column [x = 0] is pure red (hue 0), the
    columns to its right are pure blue (hue 120, that is 240 degrees); the
    edge between them is found in the column [x = 0]. *)
Definition two_hue_scene : scene := {|
  sc_rgb := fun x _ => if (x =? 0)%nat then (255, 0, 0) else (0, 0, 255);
  sc_gray := fun x _ => if (x =? 0)%nat then 76 else 29;
  sc_hsv := fun x _ => if (x =? 0)%nat then (0, 255, 255) else (120, 255, 255);
  sc_edge := fun x _ => if (x =? 0)%nat then 255 else 0;
  sc_dist := fun x _ => inject_Z (Z.of_nat x)
|}.

Definition two_hue_image : array2 rgb :=
  [[(255, 0, 0); (0, 0, 255)]; [(255, 0, 0); (0, 0, 255)]].

(** A world with one decodable file. *)
Definition one_file (path : string) (img : array2 rgb) (history : list event) : world := {|
  files := fun p => if String.eqb p path then Some (Some img) else None;
  makedirs := fun _ => Ok tt;
  log := history
|}.

(** A two-cell grid with one occupied voxel, as a strategy would return it. *)
Definition tiny_result : strategy_result := {|
  voxels := mk_ndarray (1, 1, 2)%nat [false; true];
  colors := mk_ndarray (1, 1, 2)%nat [(0, 0, 0); (10, 20, 30)];
  count := 1;
  method := "height"
|}.


(* ================================================================== *)
(** * Loop invariants of the strategies *)

(** All three strategies visit the columns [(x, y)] in the same order and
    write into one column at a time.  [filled dims occ col visited s] says
    that the grids [s] have shape [dims] and that, in the columns already
    [visited], exactly the cells selected by [occ] are occupied and carry
    the color [col], every other cell still being [False] / black. *)
Definition filled (dims : nat * nat * nat)
    (occ : nat -> nat -> nat -> bool) (col : nat -> nat -> nat -> rgb)
    (visited : nat -> nat -> bool) (s : grids) : Prop :=
  shape (fst s) = dims /\ shape (snd s) = dims /\ wf (fst s) /\ wf (snd s) /\
  forall x y z, inside dims x y z = true ->
    cell (fst s) x y z = Some (visited x y && occ x y z) /\
    cell (snd s) x y z = Some (if visited x y && occ x y z then col x y z else black).

(** Columns visited before [(x, y)] in the order of the two loops. *)
Definition visited_before (x y : nat) (x' y' : nat) : bool :=
  ((x' <? x) || ((x' =? x) && (y' <? y)))%nat.

(** The writes of one column: [voxel_grid[x, y, z] = True] and
    [colors[x, y, z] = color z]. *)
Definition write_cell (x y : Z) (color : Z -> rgb) (z : Z) (s : grids)
  : result grids :=
  let '(voxel_grid, colors) := s in
  voxel_grid <- setitem voxel_grid x y z true ;;
  colors <- setitem colors x y z (color z) ;;
  Ok (voxel_grid, colors).

Definition inb (z : nat) (zs : list nat) : bool := existsb (Nat.eqb z) zs.

(** The entry [a[y, x]] of a plane, for use in statements. *)
Definition pixel {A} (dflt : A) (a : array2 A) (x y : nat) : A :=
  match getitem2 a (Z.of_nat y) (Z.of_nat x) with
  | Ok v => v
  | Raise _ => dflt
  end.

(** What the Height strategy puts in column [(x, y)]. *)
Definition height_occ (gray : array2 Z) (max_height : Z) (x y z : nat) : bool :=
  Z.of_nat z <? height_of (pixel 0 gray x y) max_height.

Definition height_col (resized : array2 rgb) (x y z : nat) : rgb :=
  pixel black resized x y.

(** What the Hue-Layer strategy puts in column [(x, y)]. *)
Definition hue_gate (px : hsv) : bool :=
  let '(_, sat, val) := px in (sat >? 30) && (val >? 30).

Definition hue_occ (planes : array2 hsv) (layers : Z) (x y z : nat) : bool :=
  let px := pixel (A := hsv) (0, 0, 0) planes x y in
  hue_gate px && (Z.of_nat z =? hue_layer_of (fst (fst px)) layers).

(** The distance field and the depth map of the Structure-Depth strategy. *)
Definition dist_field (cv : OpenCV) (resized : array2 rgb) : array2 Q :=
  cv2_distanceTransform cv
    (map2 (fun e => (255 - e) mod 256)
       (cv2_Canny cv (cv2_RGB2GRAY cv resized) 50 150)).

Definition structure_occ (depth_map : array2 Z) (x y z : nat) : bool :=
  Z.of_nat z <=? pixel 0 depth_map x y.

Definition structure_col (resized : array2 rgb) (depth_levels : Z) (x y z : nat) : rgb :=
  darken (pixel black resized x y) (color_intensity_of (Z.of_nat z) depth_levels).

(** The body of the two loops of the Structure-Depth strategy, for one
    column. *)
Definition structure_column (depth_map : array2 Z) (resized : array2 rgb)
    (depth_levels : Z) (x y : Z) (s : grids) : result grids :=
  let '(voxel_grid, colors) := s in
  max_depth <- getitem2 depth_map y x ;;
  pixel_color <- getitem2 resized y x ;;
  for_ (range (max_depth + 1)) (fun z '(voxel_grid, colors) =>
    voxel_grid <- setitem voxel_grid x y z true ;;
    let color_intensity := color_intensity_of z depth_levels in
    colors <- setitem colors x y z (darken pixel_color color_intensity) ;;
    Ok (voxel_grid, colors)) (voxel_grid, colors).

(** Occupancy and color are written together: the grids have one shape
    and a cell that is not occupied is black. *)
Definition paired (s : grids) : Prop :=
  shape (snd s) = shape (fst s) /\ wf (fst s) /\ wf (snd s) /\
  forall x y z, cell (fst s) x y z = Some false -> cell (snd s) x y z = Some black.


(* ================================================================== *)
(** * Notions used to state further properties *)

(** The dictionary entry [convert_image] builds for the method [m] from the
    grids of its strategy. *)
Definition entry_of (m : string) (s : grids) : strategy_result :=
  {| voxels := fst s; colors := snd s; count := np_sum (fst s); method := m |}.

(** The three strategy calls of [convert_image], with the keyword
    arguments and defaults each one reads. *)
Definition call_height (cv : OpenCV) (img_rgb : array2 rgb) (kwargs : list (string * Z))
  : result grids :=
  _height_based_voxels cv img_rgb
    (kwargs_get kwargs "voxel_resolution" 64) (kwargs_get kwargs "max_height" 32).

Definition call_color (cv : OpenCV) (img_rgb : array2 rgb) (kwargs : list (string * Z))
  : result grids :=
  _color_layered_voxels cv img_rgb
    (kwargs_get kwargs "voxel_resolution" 48) (kwargs_get kwargs "layers" 16).

Definition call_structure (cv : OpenCV) (img_rgb : array2 rgb) (kwargs : list (string * Z))
  : result grids :=
  _structure_based_voxels cv img_rgb
    (kwargs_get kwargs "voxel_resolution" 56) (kwargs_get kwargs "depth_levels" 24).

(** The world after the events [evs]. *)
Definition logged (w : world) (evs : list event) : world :=
  {| files := files w; makedirs := makedirs w; log := log w ++ evs |}.

(** A computation that only appends events satisfying [P] to the log. *)
Definition emits {A} (P : event -> Prop) (c : io A) : Prop :=
  forall w, exists evs, fst (c w) = logged w evs /\ Forall P evs.

(** The events of a conversion: probes of the input and printed lines. *)
Definition conversion_event (e : event) : Prop :=
  match e with
  | ev_exists _ | ev_imread _ | ev_print_processing _ _
  | ev_print_running _ | ev_print_created _ _ => True
  | ev_makedirs _ | ev_savez _ _ | ev_print_saved _ => False
  end.

(** A computation whose normal results satisfy [Q]. *)
Definition returns {A} (c : io A) (Q : A -> Prop) : Prop :=
  forall w w' a, c w = (w', Ok a) -> Q a.

(** An entry as [convert_image] builds them: grids written together, the
    count of the occupied voxels, and a payload of that many positions. *)
Definition entry_ok (e : string * strategy_result) : Prop :=
  let '(m, r) := e in
  method r = m /\ count r = np_sum (voxels r) /\
  paired (voxels r, colors r) /\
  exists p, encode_npz r = Ok p /\ Z.of_nat (length (positions p)) = count r.

(** A world whose only file does not decode as an image, and a world
    whose directories cannot be created. *)
Definition broken_file (path : string) : world := {|
  files := fun p => if String.eqb p path then Some None else None;
  makedirs := fun _ => Ok tt;
  log := []
|}.

Definition read_only_disk : world := {|
  files := fun _ => None;
  makedirs := fun _ => Raise FileNotFoundError;
  log := []
|}.

(** [f 0 + f 1 + ... + f (n - 1)] *)
Definition sum_over (n : nat) (f : nat -> Z) : Z :=
  fold_right (fun i acc => f i + acc) 0 (seq 0 n).

(** Number of [True] entries of a buffer: [np.sum] without the shape. *)
Definition count_true (l : list bool) : Z :=
  Z.of_nat (length (filter (fun b => b) l)).
(* ================================================================== *)
(** * The display and the command line *)

(** ** [visualize_3d] *)

(** What [ax.scatter] and [ax.set_title] are given before [plt.show()]. *)
Record figure : Type := {
  points : list (nat * nat * nat);
  point_colors : list (Q * Q * Q);
  title : string
}.

(** What a session prints, shows and creates: the events of the converter
    and those of [visualize_3d] and [main]. *)
Inductive cli_event : Type :=
| ev_core (e : event)
| ev_print_no_voxels
| ev_show (f : figure)
| ev_makedirs_output (output : string)
| ev_print_complete (output : string)
| ev_print_error (e : exn).

(** The world of a session: the files and the directories of [save_voxels]
    as in [world], the outcome of [os.makedirs(args.output, exist_ok=True)],
    the samples of [np.random.choice(n, k, replace=False)] (the [i]-th draw
    of the session is [choice i n k]), the number of draws so far and what
    has been printed and shown so far. *)
Record session : Type := {
  disk : string -> option (option (array2 rgb));
  dirs : string -> result unit;
  output_dir : string -> result unit;
  choice : nat -> nat -> nat -> list nat;
  draws : nat;
  screen : list cli_event
}.

Definition cli (A : Type) : Type := session -> session * result A.

Definition cli_ret {A} (a : A) : cli A := fun s => (s, Ok a).
Definition cli_bind {A B} (c : cli A) (k : A -> cli B) : cli B :=
  fun s =>
    match c s with
    | (s', Ok a) => k a s'
    | (s', Raise e) => (s', Raise e)
    end.
Definition cli_lift {A} (r : result A) : cli A := fun s => (s, r).

(** The session after [d] draws in all and the events [evs]. *)
Definition shown (s : session) (d : nat) (evs : list cli_event) : session :=
  {| disk := disk s; dirs := dirs s; output_dir := output_dir s;
     choice := choice s; draws := d; screen := screen s ++ evs |}.

Definition cli_emit (e : cli_event) : cli unit :=
  fun s => (shown s (draws s) [e], Ok tt).

Declare Scope cli_scope.
Delimit Scope cli_scope with cli.
Notation "x <- c ;; k" := (cli_bind c (fun x => k))
  (at level 61, c at next level, right associativity) : cli_scope.
Notation "c ;; k" := (cli_bind c (fun _ => k))
  (at level 61, right associativity) : cli_scope.

Fixpoint cli_for {I S : Type} (l : list I) (body : I -> S -> cli S) (s : S) : cli S :=
  match l with
  | [] => cli_ret s
  | i :: l' => cli_bind (body i s) (fun s' => cli_for l' body s')
  end.

(** A call of the converter inside a session: it sees the files and the
    directories, and what it logs goes to the screen. *)
Definition world_of (s : session) : world :=
  {| files := disk s; makedirs := dirs s; log := [] |}.

Definition run {A} (c : io A) : cli A :=
  fun s =>
    let '(w, r) := c (world_of s) in
    ({| disk := files w; dirs := makedirs w; output_dir := output_dir s;
        choice := choice s; draws := draws s;
        screen := screen s ++ map ev_core (log w) |}, r).

(** [np.random.choice(n, size, replace=False)] *)
Definition np_random_choice (n : nat) (size : Z) : cli (list nat) :=
  fun s =>
    if size <? 0 then (s, Raise ValueError)
    else if Z.of_nat n <? size then (s, Raise ValueError)
    else (shown s (S (draws s)) [], Ok (choice s (draws s) n (Z.to_nat size))).

(** [a[indices]] for an index array *)
Fixpoint getitems {A} (a : list A) (indices : list nat) : result (list A) :=
  match indices with
  | [] => Ok []
  | i :: rest =>
      match nth_error a i with
      | Some v => vs <- getitems a rest ;; Ok (v :: vs)
      | None => Raise IndexError
      end
  end.

(** One row of [colors[occupied] / 255.0] *)
Definition unit_color (c : rgb) : Q * Q * Q :=
  let '(r, g, b) := c in
  (Float.div Float.binary64 (inject_Z r) 255,
   Float.div Float.binary64 (inject_Z g) 255,
   Float.div Float.binary64 (inject_Z b) 255).

(** [str.title()] on ASCII text. *)
Definition is_lower (c : Ascii.ascii) : bool :=
  ((97 <=? Ascii.nat_of_ascii c) && (Ascii.nat_of_ascii c <=? 122))%nat.
Definition is_upper (c : Ascii.ascii) : bool :=
  ((65 <=? Ascii.nat_of_ascii c) && (Ascii.nat_of_ascii c <=? 90))%nat.
Definition to_upper (c : Ascii.ascii) : Ascii.ascii :=
  if is_lower c then Ascii.ascii_of_nat (Ascii.nat_of_ascii c - 32) else c.
Definition to_lower (c : Ascii.ascii) : Ascii.ascii :=
  if is_upper c then Ascii.ascii_of_nat (Ascii.nat_of_ascii c + 32) else c.

Fixpoint title_from (previous_is_cased : bool) (s : string) : string :=
  match s with
  | EmptyString => EmptyString
  | String c s' =>
      if is_lower c then
        String (if previous_is_cased then c else to_upper c) (title_from true s')
      else if is_upper c then
        String (if previous_is_cased then to_lower c else c) (title_from true s')
      else String c (title_from false s')
  end.

Definition str_title (s : string) : string := title_from false s.

Definition visualize_3d (voxel_data : strategy_result) (max_voxels : Z) : cli unit :=
  (let voxel_grid := voxels voxel_data in
   let colors := colors voxel_data in
   let occupied := np_where voxel_grid in
   if (length occupied =? 0)%nat then cli_emit ev_print_no_voxels
   else
     occupied <-
       (if Z.of_nat (length occupied) >? max_voxels then
          indices <- np_random_choice (length occupied) max_voxels ;;
          cli_lift (getitems occupied indices)
        else cli_ret occupied) ;;
     picked <- cli_lift (take colors occupied) ;;
     let voxel_colors := map unit_color picked in
     cli_emit (ev_show {| points := occupied;
                          point_colors := voxel_colors;
                          title := "3D Voxels - " ++ str_title (method voxel_data)
                                   ++ " Method" |}))%cli.

(** ** [main] *)

(** The namespace returned by [parser.parse_args()]. *)
Record namespace : Type := {
  args_input : string;
  args_output : string;
  args_method : string;
  args_resolution : Z;
  args_visualize : bool
}.

(** The [choices] of [--method]. *)
Definition choices : list string := ["height"; "color"; "structure"; "all"]%string.

(** [os.path.join(a, b)] of [posixpath] *)
Definition os_path_join (a b : string) : string :=
  if String.prefix "/" b then b
  else if (String.length a =? 0)%nat || endswith a "/" then a ++ b
  else a ++ "/" ++ b.

Definition os_makedirs_output (output : string) : cli unit :=
  (cli_emit (ev_makedirs_output output) ;;
   fun s => (s, output_dir s output))%cli.

(** [try: body except Exception as e: handler e] *)
Definition cli_try {A} (body : cli A) (handler : exn -> cli A) : cli A :=
  fun s =>
    match body s with
    | (s', Ok a) => (s', Ok a)
    | (s', Raise e) => handler e s'
    end.

Definition main (cv : OpenCV) (args : namespace) : cli unit :=
  cli_try
    (results <- run (convert_image cv (args_input args) (args_method args)
                       [("voxel_resolution"%string, args_resolution args)]) ;;
     os_makedirs_output (args_output args) ;;
     cli_for results (fun '(method_name, voxel_data) _ =>
       let output_file :=
         os_path_join (args_output args) (method_name ++ "_voxels.npz") in
       run (save_voxels voxel_data output_file) ;;
       if args_visualize args then visualize_3d voxel_data 8000 else cli_ret tt) tt ;;
     cli_emit (ev_print_complete (args_output args)))%cli
    (fun e => cli_emit (ev_print_error e)).

(** The samples [np.random.choice(n, k, replace=False)] can give: [k]
    distinct indices below [n]. *)
Definition choice_ok (choice : nat -> nat -> nat -> list nat) : Prop :=
  forall i n k, (k <= n)%nat ->
    length (choice i n k) = k /\ NoDup (choice i n k) /\
    Forall (fun j => (j < n)%nat) (choice i n k).

(** The files handed to [np.savez_compressed], in order. *)
Fixpoint saved (evs : list cli_event) : list (string * npz) :=
  match evs with
  | [] => []
  | ev_core (ev_savez output_path payload) :: rest => (output_path, payload) :: saved rest
  | _ :: rest => saved rest
  end.

(** The calls of [os.makedirs], in order: the output directory of [main],
    and for [save_voxels] the path whose directory it asks for. *)
Fixpoint created (evs : list cli_event) : list string :=
  match evs with
  | [] => []
  | ev_makedirs_output output :: rest => output :: created rest
  | ev_core (ev_makedirs output_path) :: rest => output_path :: created rest
  | _ :: rest => created rest
  end.

(** A session for worked examples: one image file, every directory can
    be created, and [np.random.choice] returns the first [k] indices. *)
Definition one_file_session (path : string) (img : array2 rgb) : session := {|
  disk := fun p => if String.eqb p path then Some (Some img) else None;
  dirs := fun _ => Ok tt;
  output_dir := fun _ => Ok tt;
  choice := fun _ _ k => seq 0 k;
  draws := 0;
  screen := []
|}.

(** A session computation only adds to the screen (and draws samples). *)
Definition extends {A} (c : cli A) : Prop :=
  forall s, exists d evs, fst (c s) = shown s d evs.

(** A computation that either ends normally right after the event [last],
    or raises. *)
Definition finishes (c : cli unit) (last : cli_event) : Prop :=
  forall s, exists d evs,
    c s = (shown s d (evs ++ [last]), Ok tt) \/
    exists e, c s = (shown s d evs, Raise e).

(* ================================================================== *)
(** * Facts: rounding *)

Module FloatFacts.
Import Float.

Lemma round_half_even_nonneg n d : 0 <= n -> 0 < d -> 0 <= round_half_even n d.
Proof.
  intros Hn Hd. unfold round_half_even.
  assert (0 <= n / d) by (apply Z.div_pos; lia).
  destruct (2 * (n mod d) ?= d); [destruct (Z.even (n / d))| |]; lia.
Qed.

Lemma round_half_even_le n d K : 0 < d -> n <= K * d -> round_half_even n d <= K.
Proof.
  intros Hd Hn. unfold round_half_even.
  pose proof (Z.div_mod n d ltac:(lia)) as E.
  pose proof (Z.mod_pos_bound n d Hd) as B.
  assert (Hq : n / d <= K) by nia.
  destruct (2 * (n mod d) ?= d) eqn:C.
  - apply Z.compare_eq in C.
    destruct (Z.even (n / d)); [exact Hq|].
    assert (n / d < K) by nia. lia.
  - exact Hq.
  - apply Z.compare_gt_iff in C. assert (n / d < K) by nia. lia.
Qed.

Lemma round_half_even_exact k d : 0 < d -> round_half_even (k * d) d = k.
Proof.
  intros Hd. unfold round_half_even.
  rewrite Z.div_mul, Z.mod_mul by lia.
  assert (C : (2 * 0 ?= d) = Lt) by (apply Z.compare_lt_iff; lia).
  rewrite C. reflexivity.
Qed.

Lemma scaled_nonneg m e : 0 <= m -> (0 <= scaled m e)%Q.
Proof.
  intros Hm. unfold scaled. destruct (0 <=? e) eqn:He.
  - apply Z.leb_le in He. unfold Qle; simpl.
    assert (0 < 2 ^ e) by (apply Z.pow_pos_nonneg; lia). nia.
  - unfold Qle; simpl. lia.
Qed.

Lemma scaled_le_int m e K : e <= 0 -> m <= K * 2 ^ (- e) -> (scaled m e <= inject_Z K)%Q.
Proof.
  intros He Hm. unfold scaled. destruct (0 <=? e) eqn:B.
  - apply Z.leb_le in B. assert (e = 0) by lia. subst e.
    change (2 ^ (- 0)) with 1 in Hm. change (2 ^ 0) with 1.
    rewrite <- Zle_Qle. lia.
  - apply Z.leb_gt in B.
    assert (P : 0 < 2 ^ (- e)) by (apply Z.pow_pos_nonneg; lia).
    unfold Qle; simpl. rewrite Z2Pos.id by exact P. lia.
Qed.

Lemma scaled_exact n e : e <= 0 -> (scaled (n * 2 ^ (- e)) e == inject_Z n)%Q.
Proof.
  intros He. unfold scaled. destruct (0 <=? e) eqn:B.
  - apply Z.leb_le in B. assert (e = 0) by lia. subst e.
    change (2 ^ (- 0)) with 1. change (2 ^ 0) with 1.
    rewrite !Z.mul_1_r. reflexivity.
  - apply Z.leb_gt in B.
    assert (P : 0 < 2 ^ (- e)) by (apply Z.pow_pos_nonneg; lia).
    unfold Qeq; simpl. rewrite Z2Pos.id by exact P. lia.
Qed.

Lemma rnd_pos_nonneg p n d : 0 < n -> 0 < d -> (0 <= rnd_pos p n d)%Q.
Proof.
  intros Hn Hd. unfold rnd_pos. cbv zeta. apply scaled_nonneg.
  match goal with |- context [0 <=? ?e] => destruct (0 <=? e) eqn:He end.
  - apply Z.leb_le in He. apply round_half_even_nonneg; [lia|].
    assert (0 < 2 ^ _) by (apply Z.pow_pos_nonneg; [lia | exact He]). nia.
  - apply Z.leb_gt in He. apply round_half_even_nonneg; [|lia].
    match goal with |- context [2 ^ ?a] =>
      assert (0 < 2 ^ a) by (apply Z.pow_pos_nonneg; lia) end. nia.
Qed.

(** Rounding keeps a value non-negative. *)
Lemma rnd_nonneg p x : (0 <= x)%Q -> (0 <= rnd p x)%Q.
Proof.
  intros Hx. unfold rnd. destruct x as [n d]; simpl.
  destruct n as [|n|n].
  - apply Qle_refl.
  - apply rnd_pos_nonneg; lia.
  - unfold Qle in Hx; simpl in Hx. lia.
Qed.

(** The exponent chosen by [rnd_pos] is not positive below [2^p]. *)
Lemma rnd_pos_le_int p n d K :
  0 < p -> 0 < n -> 0 < d -> 0 <= K < 2 ^ p -> n <= K * d ->
  (rnd_pos p n d <= inject_Z K)%Q.
Proof.
  intros Hp Hn Hd HK Hle. unfold rnd_pos. cbv zeta.
  set (t := Z.log2 n - Z.log2 d).
  set (e := (if ge_pow2 n d t then t else t - 1) - p + 1).
  assert (He : e <= 0).
  { destruct (Z_le_gt_dec e 0) as [|He]; [assumption|exfalso].
    subst e. destruct (ge_pow2 n d t) eqn:G.
    - unfold ge_pow2 in G. assert (Ht : p <= t) by lia.
      replace (0 <=? t) with true in G by (symmetry; apply Z.leb_le; lia).
      apply Z.leb_le in G.
      assert (2 ^ p <= 2 ^ t) by (apply Z.pow_le_mono_r; lia). nia.
    - assert (Ht : p <= t - 1) by lia.
      pose proof (Z.log2_spec n Hn) as [Ln _].
      pose proof (Z.log2_spec d Hd) as [_ Ld].
      pose proof (Z.log2_nonneg d) as Lb.
      assert (Ea : Z.log2 n = Z.log2 d + 1 + (t - 1)) by (subst t; lia).
      rewrite Ea in Ln.
      rewrite Z.pow_add_r in Ln by lia.
      replace (Z.succ (Z.log2 d)) with (Z.log2 d + 1) in Ld by lia.
      assert (2 ^ p <= 2 ^ (t - 1)) by (apply Z.pow_le_mono_r; lia).
      assert (0 < 2 ^ (Z.log2 d + 1)) by (apply Z.pow_pos_nonneg; lia).
      nia. }
  clearbody e. apply scaled_le_int; [exact He|].
  assert (P : 0 < 2 ^ (- e)) by (apply Z.pow_pos_nonneg; lia).
  destruct (0 <=? e) eqn:B.
  - apply Z.leb_le in B. assert (e = 0) by lia. subst e.
    change (2 ^ (- 0)) with 1. change (2 ^ 0) with 1.
    apply round_half_even_le; lia.
  - apply round_half_even_le; [lia | nia].
Qed.

(** A value at most the integer [K < 2^p] rounds to at most [K]. *)
Lemma rnd_le_int p x K :
  0 < p -> 0 <= K < 2 ^ p -> (0 <= x)%Q -> (x <= inject_Z K)%Q ->
  (rnd p x <= inject_Z K)%Q.
Proof.
  intros Hp HK H0 Hx. unfold rnd. destruct x as [n d]; simpl.
  unfold Qle in Hx, H0; simpl in Hx, H0.
  destruct n as [|n|n].
  - unfold Qle; simpl. lia.
  - apply rnd_pos_le_int; lia.
  - lia.
Qed.

(** Integers below [2^p] convert exactly. *)
Lemma of_int_exact p n : 0 < p -> 0 <= n < 2 ^ p -> (of_int p n == inject_Z n)%Q.
Proof.
  intros Hp Hn. unfold of_int, rnd. simpl.
  destruct n as [|n|n]; [reflexivity| |lia].
  unfold rnd_pos. cbv zeta. change (Z.log2 1) with 0. rewrite Z.sub_0_r.
  pose proof (Z.log2_spec (Zpos n) ltac:(lia)) as [La Lb].
  pose proof (Z.log2_nonneg (Zpos n)) as L0.
  set (a := Z.log2 (Zpos n)) in *.
  assert (G : ge_pow2 (Zpos n) 1 a = true).
  { unfold ge_pow2. replace (0 <=? a) with true by (symmetry; apply Z.leb_le; lia).
    apply Z.leb_le. lia. }
  rewrite G.
  assert (Ha : a < p).
  { apply (Z.pow_lt_mono_r_iff 2); lia. }
  set (e := a - p + 1). assert (He : e <= 0) by (subst e; lia). clearbody e.
  assert (P : 0 < 2 ^ (- e)) by (apply Z.pow_pos_nonneg; lia).
  assert (M : (if 0 <=? e then round_half_even (Zpos n) (1 * 2 ^ e)
               else round_half_even (Zpos n * 2 ^ (- e)) 1) = Zpos n * 2 ^ (- e)).
  { destruct (0 <=? e) eqn:B.
    - apply Z.leb_le in B. assert (e = 0) by lia. subst e.
      change (2 ^ (- 0)) with 1. change (2 ^ 0) with 1.
      rewrite <- (Z.mul_1_r (Zpos n)) at 1. rewrite round_half_even_exact; lia.
    - rewrite <- (Z.mul_1_r (Zpos n * 2 ^ (- e))) at 1.
      rewrite round_half_even_exact; lia. }
  rewrite M. apply scaled_exact. exact He.
Qed.

Lemma trunc_nonneg x : (0 <= x)%Q -> 0 <= trunc x.
Proof.
  intros H. unfold trunc. unfold Qle in H; simpl in H.
  apply Z.quot_pos; lia.
Qed.

Lemma trunc_le_int x K : (0 <= x)%Q -> (x <= inject_Z K)%Q -> trunc x <= K.
Proof.
  intros H0 H. unfold trunc. unfold Qle in H, H0; simpl in H, H0.
  rewrite Z.quot_div_nonneg by lia.
  apply Z.div_le_upper_bound; lia.
Qed.

(** ** The model on known values *)

(** The double nearest to [0.1], and [0.1 * 3 = 0.30000000000000004]. *)
Example binary64_tenth :
  (div binary64 1 10 == 3602879701896397 # 36028797018963968)%Q.
Proof. vm_compute. reflexivity. Qed.

Example binary64_three_tenths :
  (mul binary64 (div binary64 1 10) 3 == 5404319552844596 # 18014398509481984)%Q.
Proof. vm_compute. reflexivity. Qed.

(** [2^24 + 1] and [2^24 + 3] are halfway between two [float32] values and
    go to the even one. *)
Example binary32_ties :
  (of_int binary32 16777217 == 16777216)%Q /\
  (of_int binary32 16777219 == 16777220)%Q.
Proof. split; vm_compute; reflexivity. Qed.

End FloatFacts.

(* ================================================================== *)
(** * Facts: indices, arrays and loops *)

Module NpFacts.

Lemma index_nat d k : (k < d)%nat -> index d (Z.of_nat k) = Ok k.
Proof.
  intros H. unfold index.
  replace (0 <=? Z.of_nat k) with true by (symmetry; apply Z.leb_le; lia).
  replace (Z.of_nat k <? Z.of_nat d) with true by (symmetry; apply Z.ltb_lt; lia).
  now rewrite Nat2Z.id.
Qed.

Lemma index_past_end d i : Z.of_nat d <= i -> index d i = Raise IndexError.
Proof.
  intros H. unfold index.
  replace (0 <=? i) with true by (symmetry; apply Z.leb_le; lia).
  replace (i <? Z.of_nat d) with false by (symmetry; apply Z.ltb_ge; lia).
  reflexivity.
Qed.

Lemma length_update {A} k (v : A) l : length (update k v l) = length l.
Proof.
  revert k; induction l as [|a l IH]; intros [|k]; simpl; auto.
Qed.

Lemma nth_error_update {A} k (v : A) l j :
  (k < length l)%nat ->
  nth_error (update k v l) j = if (j =? k)%nat then Some v else nth_error l j.
Proof.
  revert k j; induction l as [|a l IH]; intros k j Hk; simpl in Hk; [lia|].
  destruct k as [|k], j as [|j]; simpl; auto.
  apply IH. lia.
Qed.

Lemma ravel_lt d0 d1 d2 x y z :
  (x < d0)%nat -> (y < d1)%nat -> (z < d2)%nat ->
  (ravel (d0, d1, d2) x y z < size3 (d0, d1, d2))%nat.
Proof.
  unfold ravel, size3. intros Hx Hy Hz.
  assert (A : (x * d1 + y + 1 <= d0 * d1)%nat) by nia.
  assert (B : ((x * d1 + y + 1) * d2 <= d0 * d1 * d2)%nat)
    by (apply Nat.mul_le_mono_r; exact A).
  nia.
Qed.

Lemma ravel_inj d0 d1 d2 x y z x' y' z' :
  (y < d1)%nat -> (z < d2)%nat -> (y' < d1)%nat -> (z' < d2)%nat ->
  ravel (d0, d1, d2) x y z = ravel (d0, d1, d2) x' y' z' ->
  x = x' /\ y = y' /\ z = z'.
Proof.
  unfold ravel. intros Hy Hz Hy' Hz' E.
  assert (E2 : (x * d1 + y = x' * d1 + y')%nat).
  { set (a := (x * d1 + y)%nat) in *. set (b := (x' * d1 + y')%nat) in *.
    clearbody a b.
    destruct (Nat.lt_trichotomy a b) as [L|[L|L]]; [|exact L|]; exfalso; nia. }
  assert (Ez : z = z') by nia.
  assert (Ex : x = x').
  { destruct (Nat.lt_trichotomy x x') as [L|[L|L]]; [|exact L|]; exfalso; nia. }
  subst. split; [reflexivity|]. split; [lia | reflexivity].
Qed.

Lemma inside_true sh x y z :
  inside sh x y z = true <->
  (x < fst (fst sh) /\ y < snd (fst sh) /\ z < snd sh)%nat.
Proof.
  destruct sh as [[d0 d1] d2]; simpl.
  rewrite !andb_true_iff, !Nat.ltb_lt. tauto.
Qed.

(** What a write does: the shape is kept, the written cell holds the new
    value and every other cell is as before. *)
Lemma setitem_inside {A} (g : ndarray A) x y z v :
  wf g -> inside (shape g) x y z = true ->
  exists g', setitem g (Z.of_nat x) (Z.of_nat y) (Z.of_nat z) v = Ok g' /\
             shape g' = shape g /\ wf g' /\
             forall x' y' z',
               cell g' x' y' z' =
               if ((x' =? x) && (y' =? y) && (z' =? z))%nat && inside (shape g) x' y' z'
               then Some v else cell g x' y' z'.
Proof.
  intros W I. destruct g as [[[d0 d1] d2] l]. unfold wf in W; simpl in W.
  apply inside_true in I; simpl in I. destruct I as (Hx & Hy & Hz).
  unfold setitem; cbn [shape data].
  rewrite (index_nat d0 x Hx), (index_nat d1 y Hy), (index_nat d2 z Hz). cbn [bind].
  eexists; split; [reflexivity|]. split; [reflexivity|]. split.
  - unfold wf; simpl. rewrite length_update. exact W.
  - intros x' y' z'. unfold cell; cbn [shape data].
    destruct (inside (d0, d1, d2) x' y' z') eqn:I'.
    + apply inside_true in I'; simpl in I'. destruct I' as (Hx' & Hy' & Hz').
      rewrite nth_error_update by (rewrite W; apply (ravel_lt d0 d1 d2); assumption).
      rewrite andb_true_r.
      destruct ((x' =? x) && (y' =? y) && (z' =? z))%nat eqn:E.
      * rewrite !andb_true_iff, !Nat.eqb_eq in E. destruct E as ((-> & ->) & ->).
        now rewrite Nat.eqb_refl.
      * destruct (Nat.eqb_spec (ravel (d0, d1, d2) x' y' z') (ravel (d0, d1, d2) x y z)) as [R|R];
          [|reflexivity].
        apply ravel_inj in R; try assumption. destruct R as (-> & -> & ->).
        rewrite !Nat.eqb_refl in E. discriminate.
    + rewrite andb_false_r. reflexivity.
Qed.

(** A write past the end of the last axis is refused. *)
Lemma setitem_past_end {A} (g : ndarray A) x y z v :
  (x < fst (fst (shape g)))%nat -> (y < snd (fst (shape g)))%nat ->
  Z.of_nat (snd (shape g)) <= z ->
  setitem g (Z.of_nat x) (Z.of_nat y) z v = Raise IndexError.
Proof.
  destruct g as [[[d0 d1] d2] l]; simpl. intros Hx Hy Hz.
  unfold setitem; cbn [shape data].
  rewrite (index_nat d0 x Hx), (index_nat d1 y Hy), (index_past_end d2 z Hz).
  reflexivity.
Qed.

Lemma np_zeros_ok {A} (zero : A) d0 d1 d2 :
  0 <= d0 -> 0 <= d1 -> 0 <= d2 ->
  exists g, np_zeros zero d0 d1 d2 = Ok g /\
            shape g = (Z.to_nat d0, Z.to_nat d1, Z.to_nat d2) /\ wf g /\
            forall x y z, inside (shape g) x y z = true -> cell g x y z = Some zero.
Proof.
  intros H0 H1 H2. unfold np_zeros.
  replace (d0 <? 0) with false by (symmetry; apply Z.ltb_ge; lia).
  replace (d1 <? 0) with false by (symmetry; apply Z.ltb_ge; lia).
  replace (d2 <? 0) with false by (symmetry; apply Z.ltb_ge; lia).
  simpl orb. cbv iota. eexists; split; [reflexivity|].
  split; [reflexivity|]. split.
  - unfold wf; simpl data; simpl shape. apply repeat_length.
  - intros x y z I. unfold cell. rewrite I. simpl data; simpl shape.
    simpl shape in I. apply inside_true in I; simpl in I. destruct I as (Hx & Hy & Hz).
    pose proof (ravel_lt _ _ _ x y z Hx Hy Hz) as L.
    apply nth_error_repeat. exact L.
Qed.

(** ** Planes *)

Lemma item_nat {A} (l : list A) k v :
  nth_error l k = Some v -> item l (Z.of_nat k) = Ok v.
Proof.
  intros E. unfold item.
  rewrite index_nat by (apply nth_error_Some; congruence).
  simpl. now rewrite E.
Qed.

Lemma getitem2_shape {A} (a : array2 A) h w y x :
  shape2 a h w -> (y < h)%nat -> (x < w)%nat ->
  exists v, getitem2 a (Z.of_nat y) (Z.of_nat x) = Ok v.
Proof.
  intros [Hh Hw] Hy Hx.
  destruct (nth_error a y) as [row|] eqn:Er;
    [|apply nth_error_None in Er; lia].
  assert (Lr : length row = w).
  { rewrite Forall_forall in Hw. apply Hw. eapply nth_error_In; eauto. }
  destruct (nth_error row x) as [v|] eqn:Ev;
    [|apply nth_error_None in Ev; lia].
  exists v. unfold getitem2. rewrite (item_nat _ _ _ Er). simpl.
  apply item_nat. exact Ev.
Qed.

Lemma item_inv {A} (l : list A) i v :
  item l i = Ok v -> exists k, nth_error l k = Some v.
Proof.
  unfold item. destruct (index (length l) i) as [k|]; simpl; [|discriminate].
  destruct (nth_error l k) eqn:E; [|discriminate].
  intros [= ->]. eauto.
Qed.

Lemma getitem2_all2 {A} (P : A -> Prop) (a : array2 A) y x v :
  all2 P a -> getitem2 a y x = Ok v -> P v.
Proof.
  intros HP. unfold getitem2.
  destruct (item a y) as [row|] eqn:Er; simpl; [|discriminate].
  intros Ev. apply item_inv in Er. destruct Er as [k Er].
  apply item_inv in Ev. destruct Ev as [j Ev].
  unfold all2 in HP. rewrite Forall_forall in HP.
  specialize (HP row (nth_error_In _ _ Er)).
  rewrite Forall_forall in HP. apply HP. eapply nth_error_In; eauto.
Qed.

Lemma item_map {A B} (f : A -> B) (l : list A) i :
  item (map f l) i = match item l i with Ok v => Ok (f v) | Raise e => Raise e end.
Proof.
  unfold item. rewrite length_map.
  destruct (index (length l) i) as [k|]; simpl; [|reflexivity].
  rewrite nth_error_map. destruct (nth_error l k); reflexivity.
Qed.

Lemma getitem2_map2 {A B} (f : A -> B) (a : array2 A) y x v :
  getitem2 a y x = Ok v -> getitem2 (map2 f a) y x = Ok (f v).
Proof.
  unfold getitem2, map2. rewrite item_map.
  destruct (item a y) as [row|]; simpl; [|discriminate].
  rewrite item_map. intros ->. reflexivity.
Qed.

Lemma shape2_map2 {A B} (f : A -> B) (a : array2 A) h w :
  shape2 a h w -> shape2 (map2 f a) h w.
Proof.
  intros [Hh Hw]. split.
  - unfold map2. now rewrite length_map.
  - unfold map2. apply Forall_map. eapply Forall_impl; [|exact Hw].
    intros row E. simpl. now rewrite length_map.
Qed.

(** ** Loops *)

Lemma for_app {I S} (l1 l2 : list I) (body : I -> S -> result S) s :
  for_ (l1 ++ l2) body s =
  match for_ l1 body s with
  | Ok s' => for_ l2 body s'
  | Raise e => Raise e
  end.
Proof.
  revert s; induction l1 as [|i l1 IH]; intros s; simpl; [reflexivity|].
  destruct (body i s); simpl; auto.
Qed.

Lemma range_succ n : range (Z.of_nat (S n)) = range (Z.of_nat n) ++ [Z.of_nat n].
Proof.
  unfold range. rewrite !Nat2Z.id. rewrite seq_S, map_app. reflexivity.
Qed.

(** Invariant rule for [for i in range(n)]. *)
Lemma for_range_inv {S} (n : nat) (body : Z -> S -> result S)
    (Inv : nat -> S -> Prop) s0 :
  Inv O s0 ->
  (forall i s, (i < n)%nat -> Inv i s ->
               exists s', body (Z.of_nat i) s = Ok s' /\ Inv (Datatypes.S i) s') ->
  exists s', for_ (range (Z.of_nat n)) body s0 = Ok s' /\ Inv n s'.
Proof.
  intros H0 Hstep. induction n as [|n IH].
  - exists s0. split; [reflexivity | exact H0].
  - destruct IH as (s1 & E1 & I1); [intros; apply Hstep; [lia | assumption]|].
    destruct (Hstep n s1 ltac:(lia) I1) as (s2 & E2 & I2).
    exists s2. rewrite range_succ, for_app, E1. simpl. rewrite E2. auto.
Qed.

Lemma range_split i n :
  (i < n)%nat ->
  range (Z.of_nat n) =
  range (Z.of_nat i) ++ Z.of_nat i :: map Z.of_nat (seq (S i) (n - S i)).
Proof.
  intros H. unfold range. rewrite !Nat2Z.id.
  replace n with (i + S (n - S i))%nat at 1 by lia.
  rewrite seq_app, map_app. simpl. reflexivity.
Qed.

(** A loop whose iteration [i] raises, the earlier ones having kept the
    invariant, raises. *)
Lemma for_range_fail {S} (n i : nat) (body : Z -> S -> result S)
    (Inv : nat -> S -> Prop) s0 e :
  (i < n)%nat -> Inv O s0 ->
  (forall j s, (j < i)%nat -> Inv j s ->
               exists s', body (Z.of_nat j) s = Ok s' /\ Inv (Datatypes.S j) s') ->
  (forall s, Inv i s -> body (Z.of_nat i) s = Raise e) ->
  for_ (range (Z.of_nat n)) body s0 = Raise e.
Proof.
  intros Hi H0 Hstep Hfail.
  destruct (for_range_inv i body Inv s0 H0 Hstep) as (s1 & E1 & I1).
  rewrite (range_split i n Hi), for_app, E1. simpl.
  rewrite (Hfail s1 I1). reflexivity.
Qed.

End NpFacts.

(* ================================================================== *)
(** * Facts: filling the grids column by column *)

Module FillFacts.
Import NpFacts.

Lemma for_ext {I S} (l : list I) (f g : I -> S -> result S) s :
  (forall i s, f i s = g i s) -> for_ l f s = for_ l g s.
Proof.
  intros E. revert s; induction l as [|i l IH]; intros s; simpl; [reflexivity|].
  rewrite E. destruct (g i s); simpl; auto.
Qed.

(** Writing the cells [zs] of column [(x, y)]. *)
Lemma write_column dims x y color zs : forall (vg : ndarray bool) (cs : ndarray rgb),
  shape vg = dims -> shape cs = dims -> wf vg -> wf cs ->
  (forall z, In z zs -> inside dims x y z = true) ->
  exists vg' cs',
    for_ (map Z.of_nat zs) (write_cell (Z.of_nat x) (Z.of_nat y) color) (vg, cs)
      = Ok (vg', cs') /\
    shape vg' = dims /\ shape cs' = dims /\ wf vg' /\ wf cs' /\
    forall x' y' z',
      let hit := ((x' =? x) && (y' =? y))%nat && inb z' zs && inside dims x' y' z' in
      cell vg' x' y' z' = (if hit then Some true else cell vg x' y' z') /\
      cell cs' x' y' z' = (if hit then Some (color (Z.of_nat z')) else cell cs x' y' z').
Proof.
  induction zs as [|z zs IH]; intros vg cs Sv Sc Wv Wc Hin.
  - exists vg, cs. simpl. repeat (split; [assumption || reflexivity|]).
    intros x' y' z'. rewrite andb_false_r. simpl. auto.
  - assert (Iz : inside dims x y z = true) by (apply Hin; left; reflexivity).
    destruct (setitem_inside vg x y z true Wv) as (vg1 & E1 & S1 & W1 & C1);
      [now rewrite Sv|].
    destruct (setitem_inside cs x y z (color (Z.of_nat z)) Wc) as (cs1 & E2 & S2 & W2 & C2);
      [now rewrite Sc|].
    destruct (IH vg1 cs1) as (vg' & cs' & E & Sv' & Sc' & Wv' & Wc' & C);
      try congruence; [intros; apply Hin; now right|].
    exists vg', cs'. split.
    { simpl. rewrite E1. simpl. rewrite E2. simpl. exact E. }
    repeat (split; [assumption|]).
    intros x' y' z'. specialize (C x' y' z'). simpl in C. destruct C as [Cv Cc].
    specialize (C1 x' y' z'). specialize (C2 x' y' z'). rewrite Sv in C1. rewrite Sc in C2.
    simpl. rewrite Cv, Cc, C1, C2.
    destruct (inside dims x' y' z'); [|rewrite !andb_false_r; auto].
    rewrite !andb_true_r.
    destruct ((x' =? x) && (y' =? y))%nat eqn:Exy; simpl; [|auto].
    destruct (Nat.eqb_spec z' z) as [->|N]; simpl.
    + destruct (inb z zs); auto.
    + destruct (inb z' zs); auto.
Qed.

Section Fill.
Variables (dims : nat * nat * nat).
Variables (occ : nat -> nat -> nat -> bool) (col : nat -> nat -> nat -> rgb).

Lemma filled_ext v v' s :
  (forall x y z, inside dims x y z = true -> v x y = v' x y) ->
  filled dims occ col v s -> filled dims occ col v' s.
Proof.
  intros E (S1 & S2 & W1 & W2 & C). repeat (split; [assumption|]).
  intros x y z I. rewrite <- (E x y z I). apply C. exact I.
Qed.

(** One more column: if the column [(x, y)] has not been visited and the
    cells [zs] written there are those selected by [occ], with the color
    [col], the invariant extends to [(x, y)]. *)
Lemma fill_column v x y color zs s :
  filled dims occ col v s -> v x y = false ->
  (forall z, In z zs -> inside dims x y z = true) ->
  (forall z, inside dims x y z = true -> occ x y z = inb z zs) ->
  (forall z, In z zs -> col x y z = color (Z.of_nat z)) ->
  exists s',
    for_ (map Z.of_nat zs) (write_cell (Z.of_nat x) (Z.of_nat y) color) s = Ok s' /\
    filled dims occ col
      (fun x' y' => v x' y' || ((x' =? x) && (y' =? y))%nat) s'.
Proof.
  destruct s as [vg cs]. intros (S1 & S2 & W1 & W2 & C) Hv Hin Hocc Hcol.
  simpl in S1, S2, W1, W2, C.
  destruct (write_column dims x y color zs vg cs S1 S2 W1 W2 Hin)
    as (vg' & cs' & E & S1' & S2' & W1' & W2' & C').
  exists (vg', cs'). split; [exact E|].
  split; [exact S1'|]. split; [exact S2'|]. split; [exact W1'|]. split; [exact W2'|].
  intros x' y' z' I. simpl fst; simpl snd.
  destruct (C' x' y' z') as [Cv Cc]. rewrite Cv, Cc, I, andb_true_r.
  destruct (C x' y' z' I) as [Dv Dc]. rewrite Dv, Dc.
  destruct ((x' =? x) && (y' =? y))%nat eqn:Exy; simpl.
  - rewrite andb_true_iff, !Nat.eqb_eq in Exy. destruct Exy as [-> ->].
    rewrite Hv. simpl. rewrite (Hocc z' I).
    destruct (inb z' zs) eqn:Ez; [|auto].
    split; [reflexivity|]. f_equal. symmetry. apply Hcol.
    unfold inb in Ez. apply existsb_exists in Ez. destruct Ez as (k & Hk & Ek).
    apply Nat.eqb_eq in Ek. now subst.
  - rewrite orb_false_r. auto.
Qed.

(** The two loops over [x] and [y]. *)
Lemma fill_all (R d2 : nat) (column : Z -> Z -> grids -> result grids) s0 :
  dims = (R, R, d2) ->
  (forall x y v s, (x < R)%nat -> (y < R)%nat ->
      filled dims occ col v s -> v x y = false ->
      exists s', column (Z.of_nat x) (Z.of_nat y) s = Ok s' /\
                 filled dims occ col
                   (fun x' y' => v x' y' || ((x' =? x) && (y' =? y))%nat) s') ->
  filled dims occ col (fun _ _ => false) s0 ->
  exists s',
    for_ (range (Z.of_nat R)) (fun x => for_ (range (Z.of_nat R)) (column x)) s0
      = Ok s' /\
    filled dims occ col (fun _ _ => true) s'.
Proof.
  intros Hd Hcol H0.
  destruct (for_range_inv R (fun x => for_ (range (Z.of_nat R)) (column x))
              (fun x s => filled dims occ col (fun x' _ => (x' <? x)%nat) s) s0)
    as (s' & E & F).
  - eapply filled_ext; [|exact H0]. reflexivity.
  - intros x s Hx Fx.
    destruct (for_range_inv R (column (Z.of_nat x))
                (fun y s => filled dims occ col (visited_before x y) s) s)
      as (s1 & E1 & F1).
    + eapply filled_ext; [|exact Fx]. intros x' y' z' _. unfold visited_before.
      destruct (Nat.ltb_spec y' 0); [lia|].
      rewrite andb_false_r, orb_false_r. reflexivity.
    + intros y s1 Hy Fy.
      destruct (Hcol x y _ s1 Hx Hy Fy) as (s2 & E2 & F2).
      { unfold visited_before.
        rewrite !Nat.ltb_irrefl, andb_false_r. reflexivity. }
      exists s2. split; [exact E2|].
      eapply filled_ext; [|exact F2]. intros x' y' z' _. unfold visited_before.
      destruct (Nat.eqb_spec x' x), (Nat.ltb_spec x' x), (Nat.eqb_spec y' y),
        (Nat.ltb_spec y' y), (Nat.ltb_spec y' (S y)); simpl; try reflexivity; lia.
    + exists s1. split; [exact E1|].
      eapply filled_ext; [|exact F1]. intros x' y' z' I. unfold visited_before.
      subst dims. apply inside_true in I; simpl in I.
      destruct (Nat.eqb_spec x' x), (Nat.ltb_spec x' x), (Nat.ltb_spec y' R),
        (Nat.ltb_spec x' (S x)); simpl; try reflexivity; lia.
  - exists s'. split; [exact E|].
    eapply filled_ext; [|exact F]. intros x' y' z' I.
    subst dims. apply inside_true in I; simpl in I.
    apply Nat.ltb_lt. lia.
Qed.

(** The two loops when a column raises: the columns before it are
    filled, the rest is never reached. *)
Lemma fill_all_fail (R d2 x0 y0 : nat) (column : Z -> Z -> grids -> result grids) s0 e :
  dims = (R, R, d2) -> (x0 < R)%nat -> (y0 < R)%nat ->
  (forall x y v s, (x < R)%nat -> (y < R)%nat ->
      visited_before x0 y0 x y = true ->
      filled dims occ col v s -> v x y = false ->
      exists s', column (Z.of_nat x) (Z.of_nat y) s = Ok s' /\
                 filled dims occ col
                   (fun x' y' => v x' y' || ((x' =? x) && (y' =? y))%nat) s') ->
  (forall v s, filled dims occ col v s ->
               column (Z.of_nat x0) (Z.of_nat y0) s = Raise e) ->
  filled dims occ col (fun _ _ => false) s0 ->
  for_ (range (Z.of_nat R)) (fun x => for_ (range (Z.of_nat R)) (column x)) s0
    = Raise e.
Proof.
  intros Hd Hx0 Hy0 Hcol Hfail H0.
  apply (for_range_fail R x0 (fun x => for_ (range (Z.of_nat R)) (column x))
           (fun x s => filled dims occ col (fun x' _ => (x' <? x)%nat) s) s0 e Hx0).
  - eapply filled_ext; [|exact H0]. reflexivity.
  - intros x s Hx Fx.
    destruct (for_range_inv R (column (Z.of_nat x))
                (fun y s => filled dims occ col (visited_before x y) s) s)
      as (s1 & E1 & F1).
    + eapply filled_ext; [|exact Fx]. intros x' y' z' _. unfold visited_before.
      destruct (Nat.ltb_spec y' 0); [lia|].
      rewrite andb_false_r, orb_false_r. reflexivity.
    + intros y s1 Hy Fy.
      assert (B : visited_before x0 y0 x y = true).
      { unfold visited_before. apply orb_true_iff. left. apply Nat.ltb_lt. lia. }
      destruct (Hcol x y _ s1 ltac:(lia) Hy B Fy) as (s2 & E2 & F2).
      { unfold visited_before.
        rewrite !Nat.ltb_irrefl, andb_false_r. reflexivity. }
      exists s2. split; [exact E2|].
      eapply filled_ext; [|exact F2]. intros x' y' z' _. unfold visited_before.
      destruct (Nat.eqb_spec x' x), (Nat.ltb_spec x' x), (Nat.eqb_spec y' y),
        (Nat.ltb_spec y' y), (Nat.ltb_spec y' (S y)); simpl; try reflexivity; lia.
    + exists s1. split; [exact E1|].
      eapply filled_ext; [|exact F1]. intros x' y' z' I. unfold visited_before.
      subst dims. apply inside_true in I; simpl in I.
      destruct (Nat.eqb_spec x' x), (Nat.ltb_spec x' x), (Nat.ltb_spec y' R),
        (Nat.ltb_spec x' (S x)); simpl; try reflexivity; lia.
  - intros s Fx.
    apply (for_range_fail R y0 (column (Z.of_nat x0))
             (fun y s => filled dims occ col (visited_before x0 y) s) s e Hy0).
    + eapply filled_ext; [|exact Fx]. intros x' y' z' _. unfold visited_before.
      destruct (Nat.ltb_spec y' 0); [lia|].
      rewrite andb_false_r, orb_false_r. reflexivity.
    + intros y s1 Hy Fy.
      assert (B : visited_before x0 y0 x0 y = true).
      { unfold visited_before. apply orb_true_iff. right.
        rewrite Nat.eqb_refl. apply Nat.ltb_lt. lia. }
      destruct (Hcol x0 y _ s1 Hx0 ltac:(lia) B Fy) as (s2 & E2 & F2).
      { unfold visited_before.
        rewrite !Nat.ltb_irrefl, andb_false_r. reflexivity. }
      exists s2. split; [exact E2|].
      eapply filled_ext; [|exact F2]. intros x' y' z' _. unfold visited_before.
      destruct (Nat.eqb_spec x' x0), (Nat.ltb_spec x' x0), (Nat.eqb_spec y' y),
        (Nat.ltb_spec y' y), (Nat.ltb_spec y' (S y)); simpl; try reflexivity; lia.
    + intros s1 F1. eapply Hfail. exact F1.
Qed.

End Fill.

Lemma inb_seq z n : inb z (seq 0 n) = (z <? n)%nat.
Proof.
  unfold inb. destruct (Nat.ltb_spec z n) as [L|L].
  - apply existsb_exists. exists z. split; [apply in_seq; lia | apply Nat.eqb_refl].
  - destruct (existsb (Nat.eqb z) (seq 0 n)) eqn:E; [|reflexivity].
    apply existsb_exists in E. destruct E as (k & Hk & Ek).
    apply in_seq in Hk. apply Nat.eqb_eq in Ek. lia.
Qed.

Lemma range_as_map n : range n = map Z.of_nat (seq 0 (Z.to_nat n)).
Proof. reflexivity. Qed.

End FillFacts.

(* ================================================================== *)
(** * Facts: the strategies *)

Module StrategyFacts.
Import FloatFacts NpFacts FillFacts.

Lemma inject_Z_pos d : 0 < d -> (0 < inject_Z d)%Q.
Proof. intros H. unfold Qlt; simpl. lia. Qed.

Lemma inject_Z_nonneg d : 0 <= d -> (0 <= inject_Z d)%Q.
Proof. intros H. unfold Qle; simpl. lia. Qed.

(** A quotient [a / b] with [0 <= a <= b] rounds into [[0, 1]]. *)
Lemma unit_ratio_Q p a b :
  0 < p -> (0 <= a)%Q -> (a <= b)%Q -> (0 < b)%Q ->
  (0 <= Float.div p a b <= 1)%Q.
Proof.
  intros Hp Ha Hab Hb. unfold Float.div.
  assert (A : (0 <= a / b)%Q).
  { apply Qle_shift_div_l; [exact Hb|]. now rewrite Qmult_0_l. }
  assert (B : (a / b <= 1)%Q).
  { apply Qle_shift_div_r; [exact Hb|]. now rewrite Qmult_1_l. }
  split; [apply rnd_nonneg; exact A|].
  apply (rnd_le_int p _ 1); try assumption.
  split; [lia|]. apply (Z.pow_gt_1 2 p); lia.
Qed.

Lemma unit_ratio_bounds p n d :
  0 < p -> 0 <= n <= d -> 0 < d ->
  (0 <= Float.div p (inject_Z n) (inject_Z d) <= 1)%Q.
Proof.
  intros Hp Hn Hd. apply unit_ratio_Q; [exact Hp| | |].
  - apply inject_Z_nonneg. lia.
  - rewrite <- Zle_Qle. lia.
  - apply inject_Z_pos. exact Hd.
Qed.

(** A factor in [[0, 1]] times an exactly converted integer stays below it. *)
Lemma scaled_int_bounds p q n :
  0 < p -> 0 <= n < 2 ^ p -> (0 <= q <= 1)%Q ->
  0 <= Float.trunc (Float.mul p q (Float.of_int p n)) <= n.
Proof.
  intros Hp Hn [Q0 Q1].
  pose proof (of_int_exact p n Hp Hn) as E.
  assert (A : (0 <= q * Float.of_int p n)%Q).
  { rewrite E. apply Qmult_le_0_compat; [exact Q0|]. apply inject_Z_nonneg. lia. }
  assert (B : (q * Float.of_int p n <= inject_Z n)%Q).
  { rewrite E. rewrite <- (Qmult_1_l (inject_Z n)) at 2.
    apply Qmult_le_compat_r; [exact Q1|]. apply inject_Z_nonneg. lia. }
  unfold Float.mul. split.
  - apply trunc_nonneg, rnd_nonneg, A.
  - apply trunc_le_int; [apply rnd_nonneg, A|].
    apply rnd_le_int; assumption.
Qed.

(** The height of a column is between [0] and [max_height]. *)
Lemma height_of_bounds g H :
  uint8 g -> 0 <= H < 2 ^ 53 -> 0 <= height_of g H <= H.
Proof.
  intros Hg HH. unfold height_of, Float.binary64.
  apply scaled_int_bounds; [lia | exact HH|].
  apply (unit_ratio_bounds 53 g 255); unfold uint8 in Hg; lia.
Qed.

(** The scenario of the specification: mid-gray 128 with [H = 8] gives
    height 4; and the two values where the double-precision product falls
    just below an integer. *)
Example height_of_mid_gray : height_of 128 8 = 4.
Proof. vm_compute. reflexivity. Qed.

Example height_of_155_51 : height_of 155 51 = 30 /\ Spec.height 155 51 = 31.
Proof. split; vm_compute; reflexivity. Qed.

Example hue_layer_of_52_45 : hue_layer_of 52 45 = 12 /\ Spec.hue_layer 52 45 = 13.
Proof. split; vm_compute; reflexivity. Qed.

Lemma pixel_ok {A} (dflt : A) a x y v :
  getitem2 a (Z.of_nat y) (Z.of_nat x) = Ok v -> pixel dflt a x y = v.
Proof. intros E. unfold pixel. now rewrite E. Qed.

Lemma filled_zeros dims occ col (R d2 : Z) :
  0 <= R -> 0 <= d2 -> dims = (Z.to_nat R, Z.to_nat R, Z.to_nat d2) ->
  exists vg cs, np_zeros false R R d2 = Ok vg /\ np_zeros black R R d2 = Ok cs /\
                filled dims occ col (fun _ _ => false) (vg, cs).
Proof.
  intros HR Hd ->.
  destruct (np_zeros_ok false R R d2 HR HR Hd) as (vg & E1 & S1 & W1 & C1).
  destruct (np_zeros_ok black R R d2 HR HR Hd) as (cs & E2 & S2 & W2 & C2).
  exists vg, cs. repeat (split; [assumption|]).
  intros x y z I. simpl. split; [apply C1 | apply C2]; congruence.
Qed.

Section Height.
Variables (cv : OpenCV) (image : array2 rgb) (R H : Z).
Hypothesis cv_ok : OpenCV_ok cv.
Hypothesis image_ok : valid_image image.
Hypothesis R_pos : 0 < R.
Hypothesis H_range : 0 <= H < 2 ^ 53.

(** The run of the Height strategy: it ends normally, and every column
    of the result is as [height_occ] and [height_col] say. *)
Lemma height_run :
  exists resized s,
    cv2_resize cv image R R = Ok resized /\
    shape2 resized (Z.to_nat R) (Z.to_nat R) /\
    _height_based_voxels cv image R H = Ok s /\
    filled (Z.to_nat R, Z.to_nat R, Z.to_nat H)
      (height_occ (cv2_RGB2GRAY cv resized) H) (height_col resized)
      (fun _ _ => true) s.
Proof.
  destruct (resize_shape cv cv_ok image R R image_ok R_pos R_pos)
    as (resized & Er & Sr & Ur).
  pose proof (gray_shape cv cv_ok resized _ _ Sr) as Sg.
  pose proof (gray_range cv cv_ok resized) as Ug.
  set (dims := (Z.to_nat R, Z.to_nat R, Z.to_nat H)).
  set (gray := cv2_RGB2GRAY cv resized) in *.
  destruct (filled_zeros dims (height_occ gray H) (height_col resized) R H)
    as (vg & cs & Ev & Ec & F0); [lia | lia | reflexivity|].
  exists resized.
  unfold _height_based_voxels. rewrite Er. cbn [bind]. fold gray.
  rewrite Ev. cbn [bind]. rewrite Ec. cbn [bind].
  set (n := Z.to_nat R) in *.
  replace R with (Z.of_nat n) by (subst n; lia).
  match goal with
  | |- exists s, _ /\ _ /\ for_ _ (fun x => for_ _ (@?c x)) _ = _ /\ _ =>
      destruct (fill_all dims (height_occ gray H) (height_col resized)
                  n (Z.to_nat H) c (vg, cs) eq_refl) as (s & E & F);
        [|exact F0|exists s; auto]
  end.
  intros x y v [vg1 cs1] Hx Hy Fv Hv. cbv beta.
  destruct (getitem2_shape gray _ _ y x Sg Hy Hx) as (g & Eg).
  destruct (getitem2_shape resized _ _ y x Sr Hy Hx) as (c & Ecx).
  rewrite (getitem2_map2 _ _ _ _ _ Eg). cbn [bind].
  pose proof (height_of_bounds g H (getitem2_all2 _ _ _ _ _ Ug Eg) H_range) as Hb.
  set (h := height_of g H) in *.
  destruct (fill_column dims (height_occ gray H) (height_col resized) v x y
              (fun _ => c) (seq 0 (Z.to_nat h)) (vg1, cs1) Fv Hv) as (s' & E' & F').
  - intros z Hz. apply in_seq in Hz. apply inside_true. simpl. lia.
  - intros z I. unfold height_occ. rewrite (pixel_ok _ _ _ _ _ Eg). fold h.
    rewrite inb_seq.
    destruct (Z.ltb_spec (Z.of_nat z) h), (Nat.ltb_spec z (Z.to_nat h)); auto; lia.
  - intros z _. unfold height_col. apply pixel_ok. exact Ecx.
  - exists s'. split; [|exact F'].
    rewrite <- E', <- range_as_map.
    assert (B : forall l s0,
      for_ l (fun z '(voxel_grid, colors) =>
        voxel_grid <- setitem voxel_grid (Z.of_nat x) (Z.of_nat y) z true ;;
        pixel <- getitem2 resized (Z.of_nat y) (Z.of_nat x) ;;
        colors <- setitem colors (Z.of_nat x) (Z.of_nat y) z pixel ;;
        Ok (voxel_grid, colors)) s0
      = for_ l (write_cell (Z.of_nat x) (Z.of_nat y) (fun _ => c)) s0).
    { intros l s0. apply for_ext. intros z [a b]. unfold write_cell.
      destruct (setitem a _ _ z true); cbn [bind]; [|reflexivity].
      rewrite Ecx. reflexivity. }
    destruct (Z.gtb_spec h 0) as [Hp|Hp].
    + apply B.
    + unfold range. replace (Z.to_nat h) with O by lia. reflexivity.
Qed.

End Height.

(** The hue layer is a valid index as soon as there is one layer. *)
Lemma hue_layer_of_bounds h L :
  0 <= h -> 0 < L -> 0 <= hue_layer_of h L <= L - 1.
Proof.
  intros Hh HL. unfold hue_layer_of.
  assert (0 <= Float.trunc
            (Float.mul Float.binary64
               (Float.div Float.binary64 (inject_Z h) 180)
               (Float.of_int Float.binary64 L))); [|lia].
  apply trunc_nonneg. unfold Float.mul. apply rnd_nonneg.
  apply Qmult_le_0_compat.
  - unfold Float.div. apply rnd_nonneg.
    apply Qle_shift_div_l; [reflexivity|]. rewrite Qmult_0_l.
    apply inject_Z_nonneg. exact Hh.
  - unfold Float.of_int. apply rnd_nonneg. apply inject_Z_nonneg. lia.
Qed.

Lemma for_single {I S} (f : I -> S -> result S) i s : for_ [i] f s = f i s.
Proof. simpl. destruct (f i s); reflexivity. Qed.

Section Hue.
Variables (cv : OpenCV) (image : array2 rgb) (R L : Z).
Hypothesis cv_ok : OpenCV_ok cv.
Hypothesis image_ok : valid_image image.
Hypothesis R_pos : 0 < R.
Hypothesis L_pos : 0 < L.

(** The run of the Hue-Layer strategy. *)
Lemma hue_run :
  exists resized s,
    cv2_resize cv image R R = Ok resized /\
    shape2 resized (Z.to_nat R) (Z.to_nat R) /\
    _color_layered_voxels cv image R L = Ok s /\
    filled (Z.to_nat R, Z.to_nat R, Z.to_nat L)
      (hue_occ (cv2_RGB2HSV cv resized) L) (height_col resized)
      (fun _ _ => true) s.
Proof.
  destruct (resize_shape cv cv_ok image R R image_ok R_pos R_pos)
    as (resized & Er & Sr & Ur).
  pose proof (hsv_shape cv cv_ok resized _ _ Sr) as Sh.
  pose proof (hsv_range cv cv_ok resized) as Uh.
  set (dims := (Z.to_nat R, Z.to_nat R, Z.to_nat L)).
  set (planes := cv2_RGB2HSV cv resized) in *.
  destruct (filled_zeros dims (hue_occ planes L) (height_col resized) R L)
    as (vg & cs & Ev & Ec & F0); [lia | lia | reflexivity|].
  exists resized.
  unfold _color_layered_voxels. rewrite Er. cbn [bind]. fold planes.
  rewrite Ev. cbn [bind]. rewrite Ec. cbn [bind].
  set (n := Z.to_nat R) in *.
  replace R with (Z.of_nat n) by (subst n; lia).
  match goal with
  | |- exists s, _ /\ _ /\ for_ _ (fun x => for_ _ (@?c x)) _ = _ /\ _ =>
      destruct (fill_all dims (hue_occ planes L) (height_col resized)
                  n (Z.to_nat L) c (vg, cs) eq_refl) as (s & E & F);
        [|exact F0|exists s; auto]
  end.
  intros x y v [vg1 cs1] Hx Hy Fv Hv. cbv beta.
  destruct (getitem2_shape planes _ _ y x Sh Hy Hx) as ([[hue sat] val] & Eh).
  destruct (getitem2_shape resized _ _ y x Sr Hy Hx) as (c & Ecx).
  rewrite Ecx, Eh. cbn [bind].
  pose proof (getitem2_all2 _ _ _ _ _ Uh Eh) as (Hhue & _ & _).
  pose proof (hue_layer_of_bounds hue L ltac:(unfold uint8 in Hhue; lia) L_pos) as Hb.
  set (hl := hue_layer_of hue L) in *.
  destruct (fill_column dims (hue_occ planes L) (height_col resized) v x y
              (fun _ => c)
              (if (sat >? 30) && (val >? 30) then [Z.to_nat hl] else [])
              (vg1, cs1) Fv Hv) as (s' & E' & F').
  - intros z Hz. apply inside_true. simpl.
    destruct ((sat >? 30) && (val >? 30)); [|destruct Hz].
    destruct Hz as [<-|[]]. lia.
  - intros z I. unfold hue_occ. rewrite (pixel_ok _ _ _ _ _ Eh).
    cbn [hue_gate fst]. fold hl.
    destruct ((sat >? 30) && (val >? 30)); [|reflexivity].
    cbn [andb inb existsb]. rewrite orb_false_r.
    destruct (Z.eqb_spec (Z.of_nat z) hl), (Nat.eqb_spec z (Z.to_nat hl)); auto; lia.
  - intros z _. unfold height_col. apply pixel_ok. exact Ecx.
  - exists s'. split; [|exact F'].
    rewrite <- E'.
    destruct ((sat >? 30) && (val >? 30)); [|reflexivity].
    cbn [map]. rewrite for_single. rewrite Z2Nat.id by lia. reflexivity.
Qed.

End Hue.

(** ** The maximum of the distance field *)

Lemma Qmax_bool_le_l a b : (a <= Qmax_bool a b)%Q.
Proof.
  unfold Qmax_bool. destruct (Qle_bool a b) eqn:E.
  - apply Qle_bool_iff. exact E.
  - apply Qle_refl.
Qed.

Lemma Qmax_bool_le_r a b : (b <= Qmax_bool a b)%Q.
Proof.
  unfold Qmax_bool. destruct (Qle_bool a b) eqn:E.
  - apply Qle_refl.
  - destruct (Qlt_le_dec a b) as [Lt|Le]; [|exact Le].
    apply Qlt_le_weak in Lt. apply Qle_bool_iff in Lt. congruence.
Qed.

Lemma fold_Qmax_bool_upper l : forall v,
  (v <= fold_left Qmax_bool l v)%Q /\
  forall d, In d l -> (d <= fold_left Qmax_bool l v)%Q.
Proof.
  induction l as [|a l IH]; intros v; simpl.
  - split; [apply Qle_refl | intros d []].
  - destruct (IH (Qmax_bool v a)) as [H1 H2]. split.
    + eapply Qle_trans; [apply Qmax_bool_le_l | exact H1].
    + intros d [<-|Hd]; [|auto].
      eapply Qle_trans; [apply Qmax_bool_le_r | exact H1].
Qed.

Lemma getitem2_In {A} (a : array2 A) y x v :
  getitem2 a y x = Ok v -> In v (concat a).
Proof.
  unfold getitem2. destruct (item a y) as [row|] eqn:Er; simpl; [|discriminate].
  intros Ev. apply item_inv in Er. destruct Er as [k Er].
  apply item_inv in Ev. destruct Ev as [j Ev].
  apply in_concat. exists row. split; eapply nth_error_In; eauto.
Qed.

(** [np.max] of a non-empty plane bounds every entry. *)
Lemma np_max_upper (a : array2 Q) h w :
  shape2 a h w -> (0 < h)%nat -> (0 < w)%nat ->
  exists m, np_max a = Ok m /\
            forall y x d, getitem2 a y x = Ok d -> (d <= m)%Q.
Proof.
  intros Sa Hh Hw.
  destruct (getitem2_shape a h w 0 0 Sa Hh Hw) as (d0 & E0).
  apply getitem2_In in E0. unfold np_max.
  destruct (concat a) as [|v l] eqn:Ec; [destruct E0|].
  eexists; split; [reflexivity|].
  intros y x d Ed. apply getitem2_In in Ed. rewrite Ec in Ed.
  destruct (fold_Qmax_bool_upper l v) as [H1 H2].
  destruct Ed as [<-|Ed]; auto.
Qed.

(** The depth of a column is a valid index when [depth_levels - 1] converts
    exactly to [float32]. *)
Lemma depth_of_bounds d m D :
  (0 <= d)%Q -> (d <= m)%Q -> (0 < m)%Q -> 0 < D <= 2 ^ 24 ->
  0 <= depth_of d m D <= D - 1.
Proof.
  intros Hd Hdm Hm HD. unfold depth_of, Float.binary32.
  apply scaled_int_bounds; [lia | lia|].
  apply unit_ratio_Q; [lia | assumption..].
Qed.

Lemma depth_map_bounds (dist : array2 Q) m D h w y x :
  shape2 dist h w -> all2 (fun d => (0 <= d)%Q) dist ->
  (forall y x d, getitem2 dist y x = Ok d -> (d <= m)%Q) ->
  0 < D <= 2 ^ 24 -> (y < h)%nat -> (x < w)%nat ->
  exists k, getitem2 (depth_map_of dist m D) (Z.of_nat y) (Z.of_nat x) = Ok k /\
            0 <= k <= D - 1.
Proof.
  intros Sd Nd Um HD Hy Hx.
  destruct (getitem2_shape dist h w y x Sd Hy Hx) as (d & Ed).
  unfold depth_map_of. destruct (positive_float m) eqn:Pm.
  - exists (depth_of d m D).
    split; [exact (getitem2_map2 (fun d => depth_of d m D) _ _ _ _ Ed)|].
    apply depth_of_bounds; [| |unfold positive_float in Pm|exact HD].
    + apply (getitem2_all2 _ _ _ _ _ Nd Ed).
    + eapply Um; eauto.
    + apply Z.ltb_lt in Pm. unfold Qlt; simpl. lia.
  - exists 0. split; [|lia].
    apply (getitem2_map2 (fun _ => 0)) in Ed. exact Ed.
Qed.

(** ** Darkening *)

Lemma color_intensity_bounds z D :
  0 <= z <= Z.max D 1 -> (0 <= color_intensity_of z D <= 1)%Q.
Proof.
  intros Hz. unfold color_intensity_of, Float.binary64.
  pose proof (unit_ratio_bounds 53 z (Z.max D 1) ltac:(lia) Hz ltac:(lia)) as [Q0 Q1].
  set (q := Float.div 53 (inject_Z z) (inject_Z (Z.max D 1))) in *.
  assert (T : (0 <= Float.mul 53 q (1 # 2) <= 1)%Q).
  { unfold Float.mul. split.
    - apply rnd_nonneg. lra.
    - apply (rnd_le_int 53 _ 1); [lia | split; [lia | reflexivity] | lra | change (inject_Z 1) with 1%Q; lra]. }
  destruct T as [T0 T1]. unfold Float.sub. split.
  - apply rnd_nonneg. lra.
  - apply (rnd_le_int 53 _ 1); [lia | split; [lia | reflexivity] | lra | change (inject_Z 1) with 1%Q; lra].
Qed.

(** A darkened channel is the truncated product, between [0] and the
    channel itself: the cast to [uint8] never wraps. *)
Lemma darken_channel_bounds c i :
  uint8 c -> (0 <= i <= 1)%Q ->
  darken_channel c i = Float.trunc (Float.mul Float.binary64 (inject_Z c) i) /\
  0 <= darken_channel c i <= c.
Proof.
  intros Hc [I0 I1]. unfold darken_channel, Float.binary64, uint8 in *.
  assert (C0 : (0 <= inject_Z c)%Q) by (apply inject_Z_nonneg; lia).
  assert (A : (0 <= inject_Z c * i)%Q) by (apply Qmult_le_0_compat; assumption).
  assert (B : (inject_Z c * i <= inject_Z c)%Q).
  { rewrite <- (Qmult_1_r (inject_Z c)) at 2.
    rewrite !(Qmult_comm (inject_Z c)). apply Qmult_le_compat_r; assumption. }
  assert (T : 0 <= Float.trunc (Float.mul 53 (inject_Z c) i) <= c).
  { unfold Float.mul. split.
    - apply trunc_nonneg, rnd_nonneg, A.
    - apply trunc_le_int; [apply rnd_nonneg, A|].
      apply rnd_le_int; [lia | | exact A | exact B].
      split; [lia|]. assert (2 ^ 8 <= 2 ^ 53) by (apply Z.pow_le_mono_r; lia).
      change (2 ^ 8) with 256 in *. lia. }
  rewrite Z.mod_small by lia. split; [reflexivity | exact T].
Qed.

(** A column of the Structure-Depth strategy whose depth is a valid index. *)
Lemma structure_column_ok depth_map resized D n x y v s k c :
  (x < n)%nat -> (y < n)%nat ->
  filled (n, n, Z.to_nat D) (structure_occ depth_map) (structure_col resized D) v s ->
  v x y = false ->
  getitem2 depth_map (Z.of_nat y) (Z.of_nat x) = Ok k -> 0 <= k <= D - 1 ->
  getitem2 resized (Z.of_nat y) (Z.of_nat x) = Ok c ->
  exists s',
    structure_column depth_map resized D (Z.of_nat x) (Z.of_nat y) s = Ok s' /\
    filled (n, n, Z.to_nat D) (structure_occ depth_map) (structure_col resized D)
      (fun x' y' => v x' y' || ((x' =? x) && (y' =? y))%nat) s'.
Proof.
  intros Hx Hy Fv Hv Ek Hk Ecx. destruct s as [vg1 cs1].
  unfold structure_column. rewrite Ek, Ecx. cbn [bind].
  destruct (fill_column _ (structure_occ depth_map) (structure_col resized D) v x y
              (fun z => darken c (color_intensity_of z D))
              (seq 0 (Z.to_nat (k + 1))) (vg1, cs1) Fv Hv) as (s' & E' & F').
  - intros z Hz. apply in_seq in Hz. apply inside_true. simpl. lia.
  - intros z I. unfold structure_occ. rewrite (pixel_ok _ _ _ _ _ Ek).
    rewrite inb_seq.
    destruct (Z.leb_spec (Z.of_nat z) k), (Nat.ltb_spec z (Z.to_nat (k + 1))); auto; lia.
  - intros z _. unfold structure_col. now rewrite (pixel_ok _ _ _ _ _ Ecx).
  - exists s'. split; [|exact F'].
    rewrite <- E', <- range_as_map.
    apply for_ext. intros z [a b]. reflexivity.
Qed.

(** A column whose depth is past the last layer: the write at
    [z = depth_levels] is refused. *)
Lemma structure_column_overflow depth_map resized D n x y v s k c :
  (x < n)%nat -> (y < n)%nat -> 0 <= D ->
  filled (n, n, Z.to_nat D) (structure_occ depth_map) (structure_col resized D) v s ->
  getitem2 depth_map (Z.of_nat y) (Z.of_nat x) = Ok k -> D <= k ->
  getitem2 resized (Z.of_nat y) (Z.of_nat x) = Ok c ->
  structure_column depth_map resized D (Z.of_nat x) (Z.of_nat y) s = Raise IndexError.
Proof.
  intros Hx Hy HD Fv Ek Hk Ecx. destruct s as [vg1 cs1].
  destruct Fv as (S1 & S2 & W1 & W2 & _). simpl in S1, S2, W1, W2.
  unfold structure_column. rewrite Ek, Ecx. cbn [bind].
  set (d2 := Z.to_nat D) in *.
  replace (k + 1) with (Z.of_nat (Z.to_nat (k + 1))) by lia.
  rewrite (range_split d2 (Z.to_nat (k + 1))) by lia.
  rewrite for_app.
  destruct (write_column (n, n, d2) x y (fun z => darken c (color_intensity_of z D))
              (seq 0 d2) vg1 cs1 S1 S2 W1 W2) as (vg' & cs' & E & S1' & _).
  { intros z Hz. apply in_seq in Hz. apply inside_true. simpl. lia. }
  assert (B : forall l s0,
    for_ l (fun z '(voxel_grid, colors) =>
      voxel_grid <- setitem voxel_grid (Z.of_nat x) (Z.of_nat y) z true ;;
      let color_intensity := color_intensity_of z D in
      colors <- setitem colors (Z.of_nat x) (Z.of_nat y) z (darken c color_intensity) ;;
      Ok (voxel_grid, colors)) s0
    = for_ l (write_cell (Z.of_nat x) (Z.of_nat y)
                (fun z => darken c (color_intensity_of z D))) s0).
  { intros l s0. apply for_ext. intros z [a b]. reflexivity. }
  rewrite B. unfold range. rewrite Nat2Z.id. rewrite E.
  cbn [for_]. rewrite (setitem_past_end vg' x y (Z.of_nat d2)).
  - reflexivity.
  - rewrite S1'. simpl. exact Hx.
  - rewrite S1'. simpl. exact Hy.
  - rewrite S1'. simpl. lia.
Qed.

Section Structure.
Variables (cv : OpenCV) (image : array2 rgb) (R D : Z).
Hypothesis cv_ok : OpenCV_ok cv.
Hypothesis image_ok : valid_image image.
Hypothesis R_pos : 0 < R.

(** The planes of a run and the state the loops start from. *)
Lemma structure_setup :
  0 <= D ->
  exists resized max_dist vg cs,
    cv2_resize cv image R R = Ok resized /\
    shape2 resized (Z.to_nat R) (Z.to_nat R) /\
    all2 uint8x3 resized /\
    shape2 (dist_field cv resized) (Z.to_nat R) (Z.to_nat R) /\
    all2 (fun d => (0 <= d)%Q) (dist_field cv resized) /\
    np_max (dist_field cv resized) = Ok max_dist /\
    (forall y x d, getitem2 (dist_field cv resized) y x = Ok d -> (d <= max_dist)%Q) /\
    _structure_based_voxels cv image R D =
      for_ (range R)
        (fun x => for_ (range R)
           (structure_column (depth_map_of (dist_field cv resized) max_dist D)
              resized D x))
        (vg, cs) /\
    forall occ col,
      filled (Z.to_nat R, Z.to_nat R, Z.to_nat D) occ col (fun _ _ => false) (vg, cs).
Proof.
  intros HD.
  destruct (resize_shape cv cv_ok image R R image_ok R_pos R_pos)
    as (resized & Er & Sr & Ur).
  pose proof (gray_shape cv cv_ok resized _ _ Sr) as Sg.
  pose proof (canny_shape cv cv_ok _ 50 150 _ _ Sg) as Se.
  pose proof (shape2_map2 (fun e => (255 - e) mod 256) _ _ _ Se) as Si.
  pose proof (dist_shape cv cv_ok _ _ _ Si) as Sd.
  pose proof (dist_nonneg cv cv_ok
                (map2 (fun e => (255 - e) mod 256)
                   (cv2_Canny cv (cv2_RGB2GRAY cv resized) 50 150))) as Nd.
  fold (dist_field cv resized) in Sd, Nd.
  destruct (np_max_upper (dist_field cv resized) _ _ Sd) as (m & Em & Um);
    [lia | lia|].
  destruct (np_zeros_ok false R R D) as (vg & E1 & S1 & W1 & C1); [lia..|].
  destruct (np_zeros_ok black R R D) as (cs & E2 & S2 & W2 & C2); [lia..|].
  exists resized, m, vg, cs. repeat (split; [assumption|]). split.
  - unfold _structure_based_voxels. rewrite Er. cbn [bind].
    fold (dist_field cv resized). rewrite Em. cbn [bind].
    rewrite E1. cbn [bind]. rewrite E2. cbn [bind]. reflexivity.
  - intros occ col. repeat (split; [assumption|]).
    intros x y z I. simpl. split; [apply C1 | apply C2]; congruence.
Qed.

(** The run of the Structure-Depth strategy. *)
Lemma structure_run :
  0 < D <= 2 ^ 24 ->
  exists resized max_dist s,
    cv2_resize cv image R R = Ok resized /\
    shape2 resized (Z.to_nat R) (Z.to_nat R) /\
    all2 uint8x3 resized /\
    np_max (dist_field cv resized) = Ok max_dist /\
    (forall x y, (x < Z.to_nat R)%nat -> (y < Z.to_nat R)%nat ->
       exists k,
         getitem2 (depth_map_of (dist_field cv resized) max_dist D)
           (Z.of_nat y) (Z.of_nat x) = Ok k /\ 0 <= k <= D - 1) /\
    _structure_based_voxels cv image R D = Ok s /\
    filled (Z.to_nat R, Z.to_nat R, Z.to_nat D)
      (structure_occ (depth_map_of (dist_field cv resized) max_dist D))
      (structure_col resized D)
      (fun _ _ => true) s.
Proof.
  intros D_range.
  destruct structure_setup as (resized & m & vg & cs & Er & Sr & Ur & Sd & Nd & Em & Um & Es & F0);
    [lia|].
  set (n := Z.to_nat R) in *.
  set (depth_map := depth_map_of (dist_field cv resized) m D) in *.
  assert (Dm : forall x y, (x < n)%nat -> (y < n)%nat ->
            exists k, getitem2 depth_map (Z.of_nat y) (Z.of_nat x) = Ok k /\
                      0 <= k <= D - 1).
  { intros x y Hx Hy. eapply depth_map_bounds; eauto. }
  exists resized, m. rewrite Es.
  assert (ER : R = Z.of_nat n) by (subst n; lia).
  destruct (fill_all (n, n, Z.to_nat D) (structure_occ depth_map) (structure_col resized D)
              n (Z.to_nat D) (structure_column depth_map resized D) (vg, cs) eq_refl)
    as (s & E & F);
    [|apply F0|rewrite <- ER in E; exists s;
               repeat (split; [assumption || reflexivity|]); exact F].
  intros x y v s1 Hx Hy Fv Hv.
  destruct (Dm x y Hx Hy) as (k & Ek & Hk).
  destruct (getitem2_shape resized _ _ y x Sr Hy Hx) as (c & Ecx).
  eapply structure_column_ok; eauto.
Qed.

(** The run when some column has a depth past the last layer, every
    column before it being in range. *)
Lemma structure_overflow resized max_dist x0 y0 :
  0 < D ->
  cv2_resize cv image R R = Ok resized ->
  np_max (dist_field cv resized) = Ok max_dist ->
  (x0 < Z.to_nat R)%nat -> (y0 < Z.to_nat R)%nat ->
  (forall x y, (x < Z.to_nat R)%nat -> (y < Z.to_nat R)%nat ->
     visited_before x0 y0 x y = true ->
     exists k,
       getitem2 (depth_map_of (dist_field cv resized) max_dist D)
         (Z.of_nat y) (Z.of_nat x) = Ok k /\ 0 <= k <= D - 1) ->
  (exists k,
     getitem2 (depth_map_of (dist_field cv resized) max_dist D)
       (Z.of_nat y0) (Z.of_nat x0) = Ok k /\ D <= k) ->
  _structure_based_voxels cv image R D = Raise IndexError.
Proof.
  intros D_pos Er' Em' Hx0 Hy0 Hbefore (k0 & Ek0 & Hk0).
  destruct structure_setup as (r & m & vg & cs & Er & Sr & Ur & Sd & Nd & Em & Um & Es & F0);
    [lia|].
  assert (r = resized) by congruence. subst r.
  assert (m = max_dist) by congruence. subst m.
  set (n := Z.to_nat R) in *.
  set (depth_map := depth_map_of (dist_field cv resized) max_dist D) in *.
  rewrite Es. replace R with (Z.of_nat n) by (subst n; lia).
  apply (fill_all_fail (n, n, Z.to_nat D) (structure_occ depth_map)
           (structure_col resized D) n (Z.to_nat D) x0 y0
           (structure_column depth_map resized D) (vg, cs) IndexError eq_refl Hx0 Hy0).
  - intros x y v s1 Hx Hy B Fv Hv.
    destruct (Hbefore x y Hx Hy B) as (k & Ek & Hk).
    destruct (getitem2_shape resized _ _ y x Sr Hy Hx) as (c & Ecx).
    eapply structure_column_ok; eauto.
  - intros v s1 Fv.
    destruct (getitem2_shape resized _ _ y0 x0 Sr Hy0 Hx0) as (c & Ecx).
    eapply structure_column_overflow; eauto. lia.
  - apply F0.
Qed.

End Structure.

End StrategyFacts.

(* ================================================================== *)
(** * Facts: the table-driven OpenCV keeps the contract *)

Module TableFacts.

Lemma shape2_tabulate2 {A} h w (f : nat -> nat -> A) : shape2 (tabulate2 h w f) h w.
Proof.
  unfold tabulate2. split.
  - now rewrite length_map, length_seq.
  - apply Forall_map. apply Forall_forall. intros y _.
    now rewrite length_map, length_seq.
Qed.

Lemma all2_tabulate2 {A} (P : A -> Prop) h w (f : nat -> nat -> A) :
  (forall x y, P (f x y)) -> all2 P (tabulate2 h w f).
Proof.
  intros Hf. unfold all2, tabulate2.
  apply Forall_map. apply Forall_forall. intros y _.
  apply Forall_map. apply Forall_forall. intros x _. apply Hf.
Qed.

Lemma shape2_retabulate2 {A B} (f : nat -> nat -> B) (a : array2 A) h w :
  shape2 a h w -> shape2 (retabulate2 f a) h w.
Proof.
  intros [Hh Hw]. unfold retabulate2. split.
  - rewrite length_map, length_combine, length_seq. lia.
  - apply Forall_map. apply Forall_forall. intros [y row] Hin.
    rewrite length_map, length_seq.
    apply in_combine_r in Hin. rewrite Forall_forall in Hw. now apply Hw.
Qed.

Lemma all2_retabulate2 {A B} (P : B -> Prop) (f : nat -> nat -> B) (a : array2 A) :
  (forall x y, P (f x y)) -> all2 P (retabulate2 f a).
Proof.
  intros Hf. unfold all2, retabulate2.
  apply Forall_map. apply Forall_forall. intros [y row] _.
  apply Forall_map. apply Forall_forall. intros x _. apply Hf.
Qed.

Lemma clamp8_uint8 v : uint8 (clamp8 v).
Proof. unfold uint8, clamp8. lia. Qed.

Lemma clamp8x3_uint8x3 c : uint8x3 (clamp8x3 c).
Proof. destruct c as [[a b] d]. simpl. repeat split; apply clamp8_uint8. Qed.

Lemma table_cv_ok sc : OpenCV_ok (table_cv sc).
Proof.
  constructor; simpl.
  - intros src w h Hwh.
    replace ((w <=? 0) || (h <=? 0)) with true; [reflexivity|].
    symmetry. apply orb_true_iff. rewrite !Z.leb_le. exact Hwh.
  - intros src w h _ Hw Hh.
    replace ((w <=? 0) || (h <=? 0)) with false.
    + eexists; split; [reflexivity|]. split.
      * apply shape2_tabulate2.
      * apply all2_tabulate2. intros. apply clamp8x3_uint8x3.
    + symmetry. apply orb_false_iff. rewrite !Z.leb_gt. lia.
  - intros. now apply shape2_retabulate2.
  - intros. apply all2_retabulate2. intros. apply clamp8_uint8.
  - intros. now apply shape2_retabulate2.
  - intros. apply all2_retabulate2. intros. apply clamp8x3_uint8x3.
  - intros. now apply shape2_retabulate2.
  - intros. now apply shape2_retabulate2.
  - intros. apply all2_retabulate2. intros. apply Qabs_nonneg.
Qed.

End TableFacts.

(* ================================================================== *)
(** * Facts: the Volume Encoder *)

Module EncoderFacts.
Import NpFacts.

Lemma where_from_length l : forall k,
  length (where_from k l) = length (filter (fun b => b) l).
Proof.
  induction l as [|b l IH]; intros k; simpl; [reflexivity|].
  destruct b; simpl; now rewrite IH.
Qed.

Lemma where_from_In l : forall k j,
  In j (where_from k l) <-> (k <= j)%nat /\ nth_error l (j - k) = Some true.
Proof.
  induction l as [|b l IH]; intros k j; simpl.
  - split; [intros [] | intros [_ H]]. destruct (j - k)%nat; discriminate.
  - assert (Step : In j (where_from (S k) l) <->
                   (k < j)%nat /\ nth_error (b :: l) (j - k) = Some true).
    { rewrite IH. split; intros [H1 H2]; (split; [lia|]).
      - replace (j - k)%nat with (S (j - S k)) by lia. exact H2.
      - replace (j - k)%nat with (S (j - S k)) in H2 by lia. exact H2. }
    destruct b; simpl.
    + rewrite Step. split.
      * intros [<-|[H1 H2]]; [rewrite Nat.sub_diag; auto | split; [lia | exact H2]].
      * intros [H1 H2]. destruct (Nat.eq_dec k j) as [E|N]; [now left | right].
        split; [lia | exact H2].
    + rewrite Step. split; intros [H1 H2]; (split; [|exact H2]); try lia.
      destruct (Nat.eq_dec k j) as [E|N]; [|lia].
      subst. rewrite Nat.sub_diag in H2. discriminate.
Qed.

Lemma where_from_sorted l : forall k, StronglySorted lt (where_from k l).
Proof.
  induction l as [|b l IH]; intros k; simpl; [constructor|].
  destruct b; [|apply IH].
  constructor; [apply IH|].
  apply Forall_forall. intros j Hj. apply where_from_In in Hj. lia.
Qed.

Lemma where_from_bound l k j : In j (where_from k l) -> (j < k + length l)%nat.
Proof.
  intros H. apply where_from_In in H. destruct H as [H1 H2].
  assert (j - k < length l)%nat by (apply nth_error_Some; congruence). lia.
Qed.

(** [unravel] inverts [ravel] on the offsets of the buffer. *)
Lemma ravel_unravel sh i :
  (i < size3 sh)%nat ->
  let '(x, y, z) := unravel sh i in
  inside sh x y z = true /\ ravel sh x y z = i.
Proof.
  destruct sh as [[d0 d1] d2]. unfold size3, unravel, ravel. intros Hi.
  assert (d1 <> 0)%nat by nia. assert (d2 <> 0)%nat by nia.
  pose proof (Nat.div_mod_eq i d2) as E2.
  pose proof (Nat.div_mod_eq (i / d2) d1) as E1.
  pose proof (Nat.mod_upper_bound i d2 ltac:(assumption)) as B2.
  pose proof (Nat.mod_upper_bound (i / d2) d1 ltac:(assumption)) as B1.
  assert (B0 : (i / d2 / d1 < d0)%nat).
  { apply Nat.Div0.div_lt_upper_bound. apply Nat.Div0.div_lt_upper_bound. nia. }
  split.
  - apply inside_true. simpl. lia.
  - nia.
Qed.

Lemma cell_inside {A} (g : ndarray A) x y z :
  wf g -> inside (shape g) x y z = true -> exists v, cell g x y z = Some v.
Proof.
  intros W I. unfold cell. rewrite I.
  destruct (nth_error (data g) (ravel (shape g) x y z)) as [v|] eqn:E; [eauto|].
  apply nth_error_None in E. rewrite W in E.
  destruct (shape g) as [[d0 d1] d2]. apply inside_true in I; simpl in I.
  pose proof (ravel_lt d0 d1 d2 x y z). lia.
Qed.

Lemma take_inside {A} (g : ndarray A) cs :
  wf g -> Forall (fun '(x, y, z) => inside (shape g) x y z = true) cs ->
  exists vs, take g cs = Ok vs /\ length vs = length cs /\
             forall k c, nth_error cs k = Some c ->
               exists v, nth_error vs k = Some v /\ getitem3 g c = Ok v.
Proof.
  intros W. induction cs as [|[[x y] z] cs IH]; intros F.
  - exists []. split; [reflexivity|]. split; [reflexivity|].
    intros [|k] c; discriminate.
  - inversion F as [|? ? I F']; subst.
    destruct (cell_inside g x y z W I) as (v & Ev).
    destruct (IH F') as (vs & E & L & N).
    exists (v :: vs). split; [|split].
    + simpl. rewrite Ev. simpl. rewrite E. reflexivity.
    + simpl. now rewrite L.
    + intros [|k] c Hc; simpl in Hc.
      * injection Hc as <-. exists v. split; [reflexivity|]. simpl. now rewrite Ev.
      * apply N. exact Hc.
Qed.

Lemma nth_error_set_true idxs : forall (l : list bool) j,
  Forall (fun i => (i < length l)%nat) idxs ->
  nth_error (fold_left (fun l i => update i true l) idxs l) j =
  if inb j idxs && (j <? length l)%nat then Some true else nth_error l j.
Proof.
  induction idxs as [|i idxs IH]; intros l j F; simpl.
  - reflexivity.
  - inversion F as [|? ? Hi F']; subst.
    rewrite IH by (rewrite length_update; exact F').
    rewrite length_update, nth_error_update by exact Hi.
    destruct (Nat.eqb_spec j i) as [->|N]; simpl.
    + destruct (inb i idxs); simpl; [destruct (i <? length l)%nat eqn:L|]; auto.
      * apply Nat.ltb_ge in L. lia.
      * replace (i <? length l)%nat with true by (symmetry; apply Nat.ltb_lt; lia).
        reflexivity.
    + reflexivity.
Qed.

(** Setting the listed offsets of an all-[False] buffer gives the buffer
    back. *)
Lemma set_where_from (d : list bool) :
  fold_left (fun l i => update i true l) (where_from 0 d) (repeat false (length d)) = d.
Proof.
  apply nth_error_ext. intros j.
  rewrite nth_error_set_true.
  2:{ apply Forall_forall. intros i Hi. apply where_from_bound in Hi.
      rewrite repeat_length. lia. }
  rewrite repeat_length.
  destruct (Nat.ltb_spec j (length d)) as [L|L].
  - rewrite andb_true_r.
    destruct (nth_error d j) as [b|] eqn:E; [|apply nth_error_None in E; lia].
    destruct (inb j (where_from 0 d)) eqn:M.
    + unfold inb in M. apply existsb_exists in M. destruct M as (i & Hi & Ei).
      apply Nat.eqb_eq in Ei. subst i. apply where_from_In in Hi.
      rewrite Nat.sub_0_r in Hi. destruct Hi as [_ Hi]. congruence.
    + rewrite nth_error_repeat by exact L. destruct b; [|reflexivity].
      assert (In j (where_from 0 d)) as Hin
        by (apply where_from_In; rewrite Nat.sub_0_r; split; [lia | exact E]).
      assert (inb j (where_from 0 d) = true).
      { apply existsb_exists. exists j. split; [exact Hin | apply Nat.eqb_refl]. }
      congruence.
  - rewrite andb_false_r.
    assert (E1 : nth_error d j = None) by (apply nth_error_None; lia).
    rewrite E1. apply nth_error_None. rewrite repeat_length. lia.
Qed.

Lemma dense_fold sh idxs : forall l,
  Forall (fun i => (i < size3 sh)%nat) idxs ->
  fold_left
    (fun g '(x, y, z) =>
       mk_ndarray (shape g) (update (ravel (shape g) x y z) true (data g)))
    (map (unravel sh) idxs) (mk_ndarray sh l)
  = mk_ndarray sh (fold_left (fun l i => update i true l) idxs l).
Proof.
  induction idxs as [|i idxs IH]; intros l F; simpl; [reflexivity|].
  inversion F as [|? ? Hi F']; subst.
  pose proof (ravel_unravel sh i Hi) as RU.
  destruct (unravel sh i) as [[x y] z]. destruct RU as [_ RU].
  simpl. rewrite RU. apply IH. exact F'.
Qed.

Section Encoder.
Variable voxel_data : strategy_result.
Hypothesis voxels_wf : wf (voxels voxel_data).
Hypothesis colors_wf : wf (colors voxel_data).
Hypothesis same_shape : shape (colors voxel_data) = shape (voxels voxel_data).

Lemma where_from_in_buffer :
  Forall (fun i => (i < size3 (shape (voxels voxel_data)))%nat)
    (where_from 0 (data (voxels voxel_data))).
Proof.
  apply Forall_forall. intros i Hi. apply where_from_bound in Hi.
  rewrite <- voxels_wf. lia.
Qed.

Lemma flat_index_np_where p :
  grid_shape p = shape (voxels voxel_data) ->
  map (Spec.flat_index p) (np_where (voxels voxel_data))
  = where_from 0 (data (voxels voxel_data)).
Proof.
  intros Eg. unfold np_where. rewrite map_map.
  rewrite <- (map_id (where_from 0 (data (voxels voxel_data)))) at 2.
  apply map_ext_in. intros i Hi.
  pose proof where_from_in_buffer as F. rewrite Forall_forall in F.
  pose proof (ravel_unravel _ i (F i Hi)) as RU.
  unfold Spec.flat_index. rewrite Eg.
  destruct (unravel (shape (voxels voxel_data)) i) as [[x y] z]. apply RU.
Qed.

(** The payload of a strategy result. *)
Lemma encode_npz_ok :
  exists p,
    encode_npz voxel_data = Ok p /\
    positions p = np_where (voxels voxel_data) /\
    grid_shape p = shape (voxels voxel_data) /\
    npz_method p = method voxel_data /\
    Z.of_nat (length (positions p)) = np_sum (voxels voxel_data) /\
    length (npz_colors p) = length (positions p) /\
    (forall k c, nth_error (positions p) k = Some c ->
       exists v, nth_error (npz_colors p) k = Some v /\
                 getitem3 (colors voxel_data) c = Ok v) /\
    StronglySorted lt (map (Spec.flat_index p) (positions p)) /\
    NoDup (positions p) /\
    Spec.dense_of_payload p = voxels voxel_data.
Proof.
  pose proof where_from_in_buffer as F.
  destruct (take_inside (colors voxel_data) (np_where (voxels voxel_data)) colors_wf)
    as (vs & Et & Lt & Nt).
  { unfold np_where. apply Forall_map. eapply Forall_impl; [|exact F].
    intros i Hi. simpl in Hi. pose proof (ravel_unravel _ i Hi) as RU.
    destruct (unravel (shape (voxels voxel_data)) i) as [[x y] z].
    rewrite same_shape. apply RU. }
  eexists. split; [unfold encode_npz; rewrite Et; reflexivity|].
  cbn [positions npz_colors grid_shape npz_method].
  split; [reflexivity|]. split; [reflexivity|]. split; [reflexivity|].
  assert (Ef := flat_index_np_where
                  {| positions := np_where (voxels voxel_data); npz_colors := vs;
                     grid_shape := shape (voxels voxel_data);
                     npz_method := method voxel_data |} eq_refl).
  split; [|split; [exact Lt|split; [exact Nt|split; [|split]]]].
  - unfold np_where, np_sum. now rewrite length_map, where_from_length.
  - rewrite Ef. apply where_from_sorted.
  - eapply NoDup_map_inv. rewrite Ef.
    pose proof (where_from_sorted (data (voxels voxel_data)) 0) as S.
    clear - S. induction S as [|a l S IH Ha]; constructor; [|exact IH].
    intros Hin. rewrite Forall_forall in Ha. specialize (Ha a Hin). lia.
  - unfold Spec.dense_of_payload. cbn [positions grid_shape].
    unfold np_where. rewrite dense_fold by exact F.
    rewrite <- voxels_wf, set_where_from.
    destruct (voxels voxel_data); reflexivity.
Qed.

End Encoder.

End EncoderFacts.

(* ================================================================== *)
(** * Facts: the early failures of [convert_image] *)

Module IoFacts.

(** With a selector outside the four names, the image is read and decoded
    and the loop is entered before anything fails; the failure is the
    unbound local [voxels]. *)
Lemma convert_image_unknown_method cv path method kwargs w img :
  ~ In method supported_methods ->
  files w path = Some (Some img) ->
  convert_image cv path method kwargs w =
  ({| files := files w; makedirs := makedirs w;
      log := log w ++ [ev_exists path; ev_imread path;
                       ev_print_processing
                         (length (hd [] (map2 (fun '(b, g, r) => (r, g, b)) img)))
                         (length (map2 (fun '(b, g, r) => (r, g, b)) img));
                       ev_print_running method] |},
   Raise UnboundLocalError).
Proof.
  intros Hm Hf.
  assert (E : forall s, In s supported_methods -> String.eqb method s = false).
  { intros s Hs. apply String.eqb_neq. intros ->. exact (Hm Hs). }
  pose proof (E "all"%string ltac:(simpl; tauto)) as Ea.
  pose proof (E "height"%string ltac:(simpl; tauto)) as Eh.
  pose proof (E "color"%string ltac:(simpl; tauto)) as Ec.
  pose proof (E "structure"%string ltac:(simpl; tauto)) as Es.
  destruct w as [fs mk lg]. cbn [files makedirs log] in *.
  unfold convert_image. rewrite Ea.
  repeat (cbv beta iota zeta delta
            [io_bind os_path_exists cv2_imread emit io_lift io_raise io_ret io_for
             files makedirs log negb cv2_BGR2RGB];
          rewrite ?Hf, ?Eh, ?Ec, ?Es).
  rewrite <- !app_assoc. reflexivity.
Qed.

(** A missing file is reported first, whatever the selector. *)
Lemma convert_image_missing_file cv path method kwargs w :
  files w path = None ->
  snd (convert_image cv path method kwargs w) = Raise FileNotFoundError.
Proof.
  intros Hf. destruct w as [fs mk lg]. cbn [files makedirs log] in *.
  unfold convert_image.
  cbv beta iota zeta delta [io_bind os_path_exists emit files makedirs log].
  rewrite Hf. reflexivity.
Qed.

End IoFacts.

(* ================================================================== *)
(** * Facts: colors are written only where a voxel is marked *)

Module PairedFacts.
Import NpFacts FillFacts.

Lemma index_lt d i k : index d i = Ok k -> (k < d)%nat.
Proof.
  unfold index. destruct (0 <=? i) eqn:A.
  - destruct (i <? Z.of_nat d) eqn:B; [|discriminate].
    intros [= <-]. apply Z.leb_le in A. apply Z.ltb_lt in B. lia.
  - destruct (- Z.of_nat d <=? i) eqn:B; [|discriminate].
    intros [= <-]. apply Z.leb_gt in A. apply Z.leb_le in B. lia.
Qed.

(** A write that is accepted is a write at some cell of the array. *)
Lemma setitem_inv {A} (g : ndarray A) x y z v g' :
  setitem g x y z v = Ok g' ->
  exists ix iy iz,
    index (fst (fst (shape g))) x = Ok ix /\
    index (snd (fst (shape g))) y = Ok iy /\
    index (snd (shape g)) z = Ok iz /\
    setitem g (Z.of_nat ix) (Z.of_nat iy) (Z.of_nat iz) v = Ok g'.
Proof.
  unfold setitem. destruct (shape g) as [[d0 d1] d2] eqn:Sg. cbn [fst snd].
  destruct (index d0 x) as [ix|] eqn:Ex; [|discriminate].
  destruct (index d1 y) as [iy|] eqn:Ey; [|discriminate].
  destruct (index d2 z) as [iz|] eqn:Ez; [|discriminate].
  cbn [bind]. intros E. exists ix, iy, iz. repeat (split; [reflexivity|]).
  rewrite (index_nat d0 ix (index_lt _ _ _ Ex)), (index_nat d1 iy (index_lt _ _ _ Ey)),
    (index_nat d2 iz (index_lt _ _ _ Ez)).
  exact E.
Qed.

Lemma write_cell_paired x y color z s s' :
  paired s -> write_cell x y color z s = Ok s' -> paired s'.
Proof.
  destruct s as [vg cs]. intros (Sh & W1 & W2 & P). simpl in Sh, W1, W2, P.
  unfold write_cell.
  destruct (setitem vg x y z true) as [vg'|] eqn:E1; [|discriminate]. cbn [bind].
  destruct (setitem cs x y z (color z)) as [cs'|] eqn:E2; [|discriminate]. cbn [bind].
  intros [= <-].
  apply setitem_inv in E1. destruct E1 as (ix & iy & iz & X1 & Y1 & Z1 & E1).
  apply setitem_inv in E2. destruct E2 as (jx & jy & jz & X2 & Y2 & Z2 & E2).
  rewrite Sh in X2, Y2, Z2.
  assert (jx = ix) by congruence. assert (jy = iy) by congruence.
  assert (jz = iz) by congruence. subst jx jy jz.
  assert (I : inside (shape vg) ix iy iz = true).
  { apply inside_true. repeat split; eapply index_lt; eauto. }
  destruct (setitem_inside vg ix iy iz true W1 I) as (g1 & F1 & S1 & W1' & C1).
  destruct (setitem_inside cs ix iy iz (color z) W2) as (g2 & F2 & S2 & W2' & C2);
    [now rewrite Sh|].
  assert (g1 = vg') by congruence. assert (g2 = cs') by congruence. subst g1 g2.
  split; [simpl; congruence|]. split; [exact W1'|]. split; [exact W2'|].
  intros x' y' z'. simpl. rewrite C1, C2, Sh.
  destruct ((x' =? ix) && (y' =? iy) && (z' =? iz) && inside (shape vg) x' y' z')%nat.
  - discriminate.
  - apply P.
Qed.

Lemma for_paired {I} (l : list I) (body : I -> grids -> result grids) :
  (forall i s s', paired s -> body i s = Ok s' -> paired s') ->
  forall s s', paired s -> for_ l body s = Ok s' -> paired s'.
Proof.
  intros Hb. induction l as [|i l IH]; intros s s' P; simpl.
  - intros [= <-]. exact P.
  - destruct (body i s) as [s1|] eqn:E; [|discriminate]. simpl.
    apply IH. eapply Hb; eauto.
Qed.

Lemma np_zeros_paired d0 d1 d2 vg cs :
  np_zeros false d0 d1 d2 = Ok vg -> np_zeros black d0 d1 d2 = Ok cs ->
  paired (vg, cs).
Proof.
  intros E1 E2.
  assert (N : 0 <= d0 /\ 0 <= d1 /\ 0 <= d2).
  { unfold np_zeros in E1.
    destruct (Z.ltb_spec d0 0), (Z.ltb_spec d1 0), (Z.ltb_spec d2 0);
      simpl in E1; try discriminate. lia. }
  destruct N as (N0 & N1 & N2).
  destruct (np_zeros_ok false d0 d1 d2 N0 N1 N2) as (g1 & F1 & S1 & W1 & C1).
  destruct (np_zeros_ok black d0 d1 d2 N0 N1 N2) as (g2 & F2 & S2 & W2 & C2).
  assert (g1 = vg) by congruence. assert (g2 = cs) by congruence. subst g1 g2.
  split; [simpl; congruence|]. split; [exact W1|]. split; [exact W2|].
  intros x y z. simpl. unfold cell at 1.
  destruct (inside (shape vg) x y z) eqn:I; [|discriminate].
  intros _. apply C2. congruence.
Qed.

(** Whatever the inputs, a strategy that returns grids returns paired
    grids. *)
Lemma height_paired cv image R H s :
  _height_based_voxels cv image R H = Ok s -> paired s.
Proof.
  unfold _height_based_voxels.
  destruct (cv2_resize cv image R R) as [resized|]; [|discriminate]. cbn [bind].
  destruct (np_zeros false R R H) as [vg|] eqn:E1; [|discriminate]. cbn [bind].
  destruct (np_zeros black R R H) as [cs|] eqn:E2; [|discriminate]. cbn [bind].
  apply for_paired; [|eapply np_zeros_paired; eauto].
  intros x s0 s1. apply for_paired. clear. intros y [vg cs] s1 P.
  destruct (getitem2 _ y x) as [h|]; [|discriminate]. cbn [bind].
  destruct (h >? 0); [|now intros [= <-]].
  revert P. apply for_paired. clear. intros z [vg cs] s1 P E.
  destruct (getitem2 resized y x) as [c|] eqn:Ec.
  - apply (write_cell_paired x y (fun _ => c) z (vg, cs) s1 P).
    unfold write_cell. destruct (setitem vg x y z true); [|discriminate]. exact E.
  - destruct (setitem vg x y z true); discriminate.
Qed.

Lemma hue_paired cv image R L s :
  _color_layered_voxels cv image R L = Ok s -> paired s.
Proof.
  unfold _color_layered_voxels.
  destruct (cv2_resize cv image R R) as [resized|]; [|discriminate]. cbn [bind].
  destruct (np_zeros false R R L) as [vg|] eqn:E1; [|discriminate]. cbn [bind].
  destruct (np_zeros black R R L) as [cs|] eqn:E2; [|discriminate]. cbn [bind].
  apply for_paired; [|eapply np_zeros_paired; eauto].
  intros x s0 s1. apply for_paired. clear. intros y [vg cs] s1 P.
  destruct (getitem2 resized y x) as [c|]; [|discriminate]. cbn [bind].
  destruct (getitem2 _ y x) as [[[hue sat] val]|]; [|discriminate]. cbn [bind].
  destruct ((sat >? 30) && (val >? 30)); [|now intros [= <-]].
  apply (write_cell_paired x y (fun _ => c) (hue_layer_of hue L) (vg, cs) s1 P).
Qed.

Lemma structure_paired cv image R D s :
  _structure_based_voxels cv image R D = Ok s -> paired s.
Proof.
  unfold _structure_based_voxels.
  destruct (cv2_resize cv image R R) as [resized|]; [|discriminate]. cbn [bind].
  destruct (np_max _) as [m|]; [|discriminate]. cbn [bind].
  destruct (np_zeros false R R D) as [vg|] eqn:E1; [|discriminate]. cbn [bind].
  destruct (np_zeros black R R D) as [cs|] eqn:E2; [|discriminate]. cbn [bind].
  apply for_paired; [|eapply np_zeros_paired; eauto].
  intros x s0 s1. apply for_paired. clear. intros y [vg cs] s1 P.
  destruct (getitem2 _ y x) as [k|]; [|discriminate]. cbn [bind].
  destruct (getitem2 resized y x) as [c|]; [|discriminate]. cbn [bind].
  revert P. apply for_paired. clear. intros z [vg cs] s1.
  apply (write_cell_paired x y (fun z => darken c (color_intensity_of z D)) z (vg, cs) s1).
Qed.

End PairedFacts.

(* ================================================================== *)
(** * Facts: rounding is monotone *)

Module FloatOrder.
Import Float FloatFacts.

(** [2^e] as a fraction [pow2n e / pow2d e] of two positive integers. *)
Lemma pow2_pos e : 0 < 2 ^ Z.max e 0.
Proof. apply Z.pow_pos_nonneg; lia. Qed.

(** The rounded mantissa lies where its argument lies. *)
Lemma round_half_even_ge n d K : 0 < d -> K * d <= n -> K <= round_half_even n d.
Proof.
  intros Hd Hn. unfold round_half_even.
  pose proof (Z.div_mod n d ltac:(lia)) as E.
  pose proof (Z.mod_pos_bound n d Hd) as B.
  assert (Hq : K <= n / d) by nia.
  destruct (2 * (n mod d) ?= d); [destruct (Z.even (n / d))| |]; lia.
Qed.

(** If the rounding is at least [j], the argument is at least [j - 1/2],
    and a tie went to an even [j]. *)
Lemma round_half_even_ge_inv n d j :
  0 < d -> j <= round_half_even n d ->
  (2 * j - 1) * d <= 2 * n /\ ((2 * j - 1) * d = 2 * n -> Z.even j = true).
Proof.
  intros Hd. unfold round_half_even.
  pose proof (Z.div_mod n d ltac:(lia)) as E.
  pose proof (Z.mod_pos_bound n d Hd) as B.
  set (q := n / d) in *. set (r := n mod d) in *. clearbody q r.
  destruct (2 * r ?= d) eqn:C.
  - apply Z.compare_eq in C. destruct (Z.even q) eqn:Ev; intros Hj.
    + assert (d * j <= d * q) by nia.
      split; [nia|]. intros T. exfalso. nia.
    + assert (d * j <= d * (q + 1)) by nia.
      split; [nia|]. intros T. assert (j = q + 1) by nia. subst j.
      rewrite Z.even_add, Ev. reflexivity.
  - rewrite Z.compare_lt_iff in C. intros Hj. assert (d * j <= d * q) by nia.
    split; [nia|]. intros T. exfalso. nia.
  - rewrite Z.compare_gt_iff in C. intros Hj. assert (d * j <= d * (q + 1)) by nia.
    split; [nia|]. intros T. exfalso. nia.
Qed.

(** If the rounding is at most [k], the argument is at most [k + 1/2],
    and a tie went to an even [k]. *)
Lemma round_half_even_le_inv n d k :
  0 < d -> round_half_even n d <= k ->
  2 * n <= (2 * k + 1) * d /\ (2 * n = (2 * k + 1) * d -> Z.even k = true).
Proof.
  intros Hd. unfold round_half_even.
  pose proof (Z.div_mod n d ltac:(lia)) as E.
  pose proof (Z.mod_pos_bound n d Hd) as B.
  set (q := n / d) in *. set (r := n mod d) in *. clearbody q r.
  destruct (2 * r ?= d) eqn:C.
  - apply Z.compare_eq in C. destruct (Z.even q) eqn:Ev; intros Hk.
    + assert (d * q <= d * k) by nia.
      split; [nia|]. intros T. assert (k = q) by nia. subst k. exact Ev.
    + assert (d * (q + 1) <= d * k) by nia.
      split; [nia|]. intros T. exfalso. nia.
  - rewrite Z.compare_lt_iff in C. intros Hk. assert (d * q <= d * k) by nia.
    split; [nia|]. intros T. exfalso. nia.
  - rewrite Z.compare_gt_iff in C. intros Hk. assert (d * (q + 1) <= d * k) by nia.
    split; [nia|]. intros T. exfalso. nia.
Qed.

(** Rounding to the nearest integer is monotone. *)
Lemma round_half_even_mono n1 d1 n2 d2 :
  0 < d1 -> 0 < d2 -> n1 * d2 <= n2 * d1 ->
  round_half_even n1 d1 <= round_half_even n2 d2.
Proof.
  intros H1 H2 Hle.
  destruct (Z_le_gt_dec (round_half_even n1 d1) (round_half_even n2 d2)) as [|G];
    [assumption | exfalso].
  set (k := round_half_even n2 d2) in *.
  destruct (round_half_even_ge_inv n1 d1 (k + 1) H1 ltac:(lia)) as [A1 A2].
  destruct (round_half_even_le_inv n2 d2 k H2 ltac:(subst k; lia)) as [B1 B2].
  assert (T1 : (2 * (k + 1) - 1) * d1 = 2 * n1) by nia.
  assert (T2 : 2 * n2 = (2 * k + 1) * d2) by nia.
  specialize (A2 T1). specialize (B2 T2).
  rewrite Z.even_add, B2 in A2. discriminate.
Qed.

(** [2^e] is the fraction [pn e / pd e] of two positive integers. *)
Local Abbreviation pn e := (2 ^ Z.max e 0).
Local Abbreviation pd e := (2 ^ Z.max (- e) 0).

Lemma pow2_shift e j :
  0 <= j -> pn (e + j) * pd e = 2 ^ j * pn e * pd (e + j).
Proof.
  intros Hj.
  destruct (Z_le_gt_dec 0 e) as [He|He].
  - rewrite (Z.max_l (e + j)), (Z.max_r (- e)), (Z.max_l e), (Z.max_r (- (e + j))) by lia.
    rewrite Z.pow_0_r, !Z.mul_1_r, <- Z.pow_add_r by lia. f_equal. lia.
  - destruct (Z_le_gt_dec 0 (e + j)) as [Hs|Hs].
    + rewrite (Z.max_l (e + j)), (Z.max_l (- e)), (Z.max_r e), (Z.max_r (- (e + j))) by lia.
      rewrite Z.pow_0_r, !Z.mul_1_r, <- Z.pow_add_r by lia. f_equal. lia.
    + rewrite (Z.max_r (e + j)), (Z.max_l (- e)), (Z.max_r e), (Z.max_l (- (e + j))) by lia.
      rewrite Z.pow_0_r, Z.mul_1_r, Z.mul_1_l, <- Z.pow_add_r by lia. f_equal. lia.
Qed.

Lemma pow2_frac b s : 0 <= b -> 0 <= b + s -> 2 ^ (b + s) * pd s = 2 ^ b * pn s.
Proof.
  intros Hb Hs.
  destruct (Z_le_gt_dec 0 s) as [H|H].
  - rewrite (Z.max_r (- s)), (Z.max_l s) by lia.
    rewrite Z.pow_0_r, Z.mul_1_r, <- Z.pow_add_r by lia. reflexivity.
  - rewrite (Z.max_l (- s)), (Z.max_r s) by lia.
    rewrite Z.pow_0_r, Z.mul_1_r, <- Z.pow_add_r by lia. f_equal. lia.
Qed.

Lemma pn_pos e : 0 < pn e.
Proof. apply Z.pow_pos_nonneg; lia. Qed.

Lemma pd_pos e : 0 < pd e.
Proof. apply Z.pow_pos_nonneg; lia. Qed.

Lemma ge_pow2_spec n d t : ge_pow2 n d t = true <-> d * pn t <= n * pd t.
Proof.
  unfold ge_pow2. destruct (Z.leb_spec 0 t) as [H|H].
  - rewrite (Z.max_l t), (Z.max_r (- t)) by lia. rewrite Z.pow_0_r, Z.mul_1_r.
    apply Z.leb_le.
  - rewrite (Z.max_r t), (Z.max_l (- t)) by lia. rewrite Z.pow_0_r, Z.mul_1_r.
    apply Z.leb_le.
Qed.

(** The shape of a rounded positive value: a mantissa [m] between
    [2^(p-1)] and [2^p], nearest to the argument scaled by [2^-e]. *)
Lemma rnd_pos_spec p n d :
  0 < p -> 0 < n -> 0 < d ->
  exists e,
    rnd_pos p n d =
      Qmake (round_half_even (n * pd e) (d * pn e) * pn e) (Z.to_pos (pd e)) /\
    2 ^ (p - 1) * (d * pn e) <= n * pd e < 2 ^ p * (d * pn e).
Proof.
  intros Hp Hn Hd. unfold rnd_pos. cbv zeta.
  pose proof (Z.log2_spec n Hn) as [La Ua].
  pose proof (Z.log2_spec d Hd) as [Lb Ub].
  pose proof (Z.log2_nonneg n) as Na. pose proof (Z.log2_nonneg d) as Nb.
  set (a := Z.log2 n) in *. set (b := Z.log2 d) in *.
  replace (Z.succ a) with (a + 1) in Ua by lia.
  replace (Z.succ b) with (b + 1) in Ub by lia.
  set (t := a - b).
  set (k := if ge_pow2 n d t then t else t - 1).
  assert (K : d * pn k <= n * pd k /\ n * pd (k + 1) < d * pn (k + 1)).
  { pose proof (pn_pos (t - 1)) as P1. pose proof (pd_pos (t + 1)) as P2.
    pose proof (pow2_frac b (t + 1) Nb ltac:(subst t; lia)) as F1.
    replace (b + (t + 1)) with (a + 1) in F1 by (subst t; lia).
    pose proof (pow2_frac (b + 1) (t - 1) ltac:(lia) ltac:(subst t; lia)) as F2.
    replace (b + 1 + (t - 1)) with a in F2 by (subst t; lia).
    subst k. destruct (ge_pow2 n d t) eqn:G.
    - apply ge_pow2_spec in G. split; [exact G | nia].
    - assert (G' : ~ d * pn t <= n * pd t)
        by (intros X; apply ge_pow2_spec in X; congruence).
      replace (t - 1 + 1) with t by lia. split; [nia | lia]. }
  clearbody k. destruct K as [K1 K2].
  set (e := k - p + 1).
  exists e. split.
  - unfold scaled. destruct (Z.leb_spec 0 e) as [H|H].
    + rewrite (Z.max_l e), (Z.max_r (- e)) by lia.
      rewrite Z.pow_0_r, Z.mul_1_r. reflexivity.
    + rewrite (Z.max_r e), (Z.max_l (- e)) by lia.
      rewrite Z.pow_0_r, !Z.mul_1_r. reflexivity.
  - pose proof (pow2_shift e (p - 1) ltac:(lia)) as S1.
    replace (e + (p - 1)) with k in S1 by (subst e; lia).
    pose proof (pow2_shift e p ltac:(lia)) as S2.
    replace (e + p) with (k + 1) in S2 by (subst e; lia).
    pose proof (pn_pos e). pose proof (pd_pos e). pose proof (pd_pos k).
    pose proof (pd_pos (k + 1)). pose proof (pn_pos k). pose proof (pn_pos (k + 1)).
    assert (0 < 2 ^ (p - 1)) by (apply Z.pow_pos_nonneg; lia).
    assert (0 < 2 ^ p) by (apply Z.pow_pos_nonneg; lia).
    split.
    + apply (Z.mul_le_mono_pos_r _ _ (pd k)); [assumption|].
      replace (2 ^ (p - 1) * (d * pn e) * pd k) with (d * (2 ^ (p - 1) * pn e * pd k)) by ring.
      rewrite <- S1.
      replace (d * (pn k * pd e)) with (d * pn k * pd e) by ring.
      replace (n * pd e * pd k) with (n * pd k * pd e) by ring.
      apply Z.mul_le_mono_nonneg_r; [lia | exact K1].
    + apply (Z.mul_lt_mono_pos_r (pd (k + 1))); [assumption|].
      replace (2 ^ p * (d * pn e) * pd (k + 1)) with (d * (2 ^ p * pn e * pd (k + 1))) by ring.
      rewrite <- S2.
      replace (d * (pn (k + 1) * pd e)) with (d * pn (k + 1) * pd e) by ring.
      replace (n * pd e * pd (k + 1)) with (n * pd (k + 1) * pd e) by ring.
      apply Z.mul_lt_mono_pos_r; [assumption | exact K2].
Qed.

(** Rounding is monotone on positive rationals. *)
Lemma rnd_pos_mono p n1 d1 n2 d2 :
  0 < p -> 0 < n1 -> 0 < d1 -> 0 < n2 -> 0 < d2 ->
  n1 * d2 <= n2 * d1 ->
  (rnd_pos p n1 d1 <= rnd_pos p n2 d2)%Q.
Proof.
  intros Hp Hn1 Hd1 Hn2 Hd2 Hle.
  destruct (rnd_pos_spec p n1 d1 Hp Hn1 Hd1) as (e1 & E1 & L1 & U1).
  destruct (rnd_pos_spec p n2 d2 Hp Hn2 Hd2) as (e2 & E2 & L2 & U2).
  rewrite E1, E2. clear E1 E2.
  pose proof (pn_pos e1) as Pn1. pose proof (pd_pos e1) as Pd1.
  pose proof (pn_pos e2) as Pn2. pose proof (pd_pos e2) as Pd2.
  assert (P1 : 0 < 2 ^ (p - 1)) by (apply Z.pow_pos_nonneg; lia).
  assert (P2 : 2 ^ p = 2 * 2 ^ (p - 1)).
  { replace p with (1 + (p - 1)) at 1 by lia. rewrite Z.pow_add_r by lia. reflexivity. }
  set (A1 := n1 * pd e1) in *. set (B1 := d1 * pn e1) in *.
  set (A2 := n2 * pd e2) in *. set (B2 := d2 * pn e2) in *.
  assert (HB1 : 0 < B1) by (subst B1; nia).
  assert (HB2 : 0 < B2) by (subst B2; nia).
  assert (M1 : round_half_even A1 B1 <= 2 ^ p)
    by (apply round_half_even_le; lia).
  assert (M2 : 2 ^ (p - 1) <= round_half_even A2 B2)
    by (apply round_half_even_ge; lia).
  unfold Qle. cbn [Qnum Qden]. rewrite !Z2Pos.id by assumption.
  destruct (Z.lt_trichotomy e1 e2) as [Lt|[Eq|Gt]].
  - (* the smaller value has the smaller exponent *)
    pose proof (pow2_shift e1 (e2 - e1) ltac:(lia)) as S.
    replace (e1 + (e2 - e1)) with e2 in S by lia.
    assert (J : 2 <= 2 ^ (e2 - e1)).
    { change 2 with (2 ^ 1) at 1. apply Z.pow_le_mono_r; lia. }
    replace (round_half_even A2 B2 * pn e2 * pd e1)
      with (round_half_even A2 B2 * (pn e2 * pd e1)) by ring.
    rewrite S.
    replace (round_half_even A2 B2 * (2 ^ (e2 - e1) * pn e1 * pd e2))
      with (round_half_even A2 B2 * 2 ^ (e2 - e1) * (pn e1 * pd e2)) by ring.
    replace (round_half_even A1 B1 * pn e1 * pd e2)
      with (round_half_even A1 B1 * (pn e1 * pd e2)) by ring.
    apply Z.mul_le_mono_nonneg_r; [nia|]. nia.
  - (* same exponent: the mantissas are ordered *)
    subst e2.
    assert (M : round_half_even A1 B1 <= round_half_even A2 B2).
    { apply round_half_even_mono; [assumption..|]. subst A1 A2 B1 B2.
      replace (n1 * pd e1 * (d2 * pn e1)) with (n1 * d2 * (pd e1 * pn e1)) by ring.
      replace (n2 * pd e1 * (d1 * pn e1)) with (n2 * d1 * (pd e1 * pn e1)) by ring.
      apply Z.mul_le_mono_nonneg_r; [nia | exact Hle]. }
    apply Z.mul_le_mono_nonneg_r; [lia|].
    apply Z.mul_le_mono_nonneg_r; [lia | exact M].
  - (* a larger exponent contradicts the order of the arguments *)
    exfalso.
    pose proof (pow2_shift e2 (e1 - e2) ltac:(lia)) as S.
    replace (e2 + (e1 - e2)) with e1 in S by lia.
    assert (J : 2 <= 2 ^ (e1 - e2)).
    { change 2 with (2 ^ 1) at 1. apply Z.pow_le_mono_r; lia. }
    assert (X1 : 2 ^ (p - 1) * d1 * (pn e1 * pd e2) <= n1 * pd e1 * pd e2).
    { subst A1 B1.
      replace (2 ^ (p - 1) * d1 * (pn e1 * pd e2))
        with (2 ^ (p - 1) * (d1 * pn e1) * pd e2) by ring.
      apply Z.mul_le_mono_nonneg_r; [lia | exact L1]. }
    rewrite S in X1.
    assert (X2 : n2 * pd e2 * (d1 * pd e1) < 2 ^ p * (d2 * pn e2) * (d1 * pd e1)).
    { apply Z.mul_lt_mono_pos_r; [nia | exact U2]. }
    assert (X3 : n1 * d2 * (pd e1 * pd e2) <= n2 * d1 * (pd e1 * pd e2)).
    { apply Z.mul_le_mono_nonneg_r; [nia | exact Hle]. }
    assert (X4 : 2 ^ (p - 1) * d1 * (2 ^ (e1 - e2) * pn e2 * pd e1) * d2
                 <= n1 * pd e1 * pd e2 * d2).
    { apply Z.mul_le_mono_nonneg_r; [lia | exact X1]. }
    set (W := d1 * d2 * pn e2 * pd e1) in *.
    assert (HW : 0 < W) by (subst W; nia).
    assert (Y1 : 2 ^ (p - 1) * 2 ^ (e1 - e2) * W <= n1 * d2 * (pd e1 * pd e2)).
    { subst W. etransitivity; [|etransitivity; [exact X4|]]; [|]; apply Z.eq_le_incl; ring. }
    assert (Y2 : n2 * d1 * (pd e1 * pd e2) < 2 ^ p * W).
    { subst W. eapply Z.le_lt_trans; [|eapply Z.lt_le_trans; [exact X2|]];
        apply Z.eq_le_incl; ring. }
    assert (Y3 : 2 ^ p * W <= 2 ^ (p - 1) * 2 ^ (e1 - e2) * W).
    { rewrite P2. apply Z.mul_le_mono_nonneg_r; [lia|]. nia. }
    lia.
Qed.

(** Rounding is monotone on non-negative values. *)
Lemma rnd_mono p x y :
  0 < p -> (0 <= x)%Q -> (x <= y)%Q -> (rnd p x <= rnd p y)%Q.
Proof.
  intros Hp Hx Hxy.
  assert (Hy : (0 <= y)%Q) by (eapply Qle_trans; eauto).
  destruct x as [nx dx], y as [ny dy].
  unfold Qle in Hx, Hy, Hxy; simpl in Hx, Hy, Hxy.
  destruct nx as [|nx|nx]; [| |lia].
  - change (rnd p (0 # dx)) with 0%Q. apply rnd_nonneg.
    unfold Qle; simpl. lia.
  - destruct ny as [|ny|ny]; [lia| |lia].
    unfold rnd. cbn [Qnum Qden]. apply rnd_pos_mono; lia.
Qed.

(** An integer below [2^p] is a lower bound of the rounding of anything
    above it. *)
Lemma rnd_ge_int p x K :
  0 < p -> 0 <= K < 2 ^ p -> (inject_Z K <= x)%Q -> (inject_Z K <= rnd p x)%Q.
Proof.
  intros Hp HK Hx.
  rewrite <- (of_int_exact p K Hp HK). unfold of_int.
  apply rnd_mono; [exact Hp | | exact Hx].
  unfold Qle; simpl. lia.
Qed.

Lemma trunc_mono x y : (0 <= x)%Q -> (x <= y)%Q -> trunc x <= trunc y.
Proof.
  intros Hx Hxy. unfold trunc.
  assert (Hy : (0 <= y)%Q) by (eapply Qle_trans; eauto).
  destruct x as [nx dx], y as [ny dy].
  unfold Qle in Hx, Hy, Hxy; simpl in *.
  rewrite !Z.quot_div_nonneg by lia.
  apply Z.div_le_lower_bound; [lia|].
  pose proof (Z.mul_div_le nx (Zpos dx) ltac:(lia)) as A.
  pose proof (Z.div_mod ny (Zpos dy) ltac:(lia)) as B.
  pose proof (Z.mod_pos_bound ny (Zpos dy) ltac:(lia)) as C.
  set (a := nx / Zpos dx) in *. set (b := ny / Zpos dy) in *.
  destruct (Z_le_gt_dec a b) as [|G]; [nia | exfalso].
  assert (Zpos dx * (b + 1) <= Zpos dx * a) by nia.
  nia.
Qed.

Lemma trunc_ge_int x K : (inject_Z K <= x)%Q -> 0 <= K -> K <= trunc x.
Proof.
  intros H HK.
  replace K with (trunc (inject_Z K)).
  - apply trunc_mono; [unfold Qle; simpl; lia | exact H].
  - unfold trunc. simpl. apply Z.quot_1_r.
Qed.

(** The operations are monotone on non-negative values. *)
Lemma div_mono p a a' b :
  0 < p -> (0 <= a)%Q -> (a <= a')%Q -> (0 < b)%Q ->
  (div p a b <= div p a' b)%Q.
Proof.
  intros Hp Ha Haa Hb. unfold div. apply rnd_mono; [exact Hp| |].
  - apply Qle_shift_div_l; [exact Hb|]. now rewrite Qmult_0_l.
  - apply Qmult_le_compat_r; [exact Haa|].
    apply Qlt_le_weak. apply Qinv_lt_0_compat. exact Hb.
Qed.

Lemma mul_mono p a a' b b' :
  0 < p -> (0 <= a)%Q -> (a <= a')%Q -> (0 <= b)%Q -> (b <= b')%Q ->
  (mul p a b <= mul p a' b')%Q.
Proof.
  intros Hp Ha Haa Hb Hbb. unfold mul. apply rnd_mono; [exact Hp| |].
  - apply Qmult_le_0_compat; assumption.
  - eapply Qle_trans.
    + apply Qmult_le_compat_r; [exact Haa | exact Hb].
    + rewrite (Qmult_comm a' b), (Qmult_comm a' b').
      apply Qmult_le_compat_r; [exact Hbb|].
      apply (Qle_trans _ a); assumption.
Qed.

Lemma of_int_mono p n n' :
  0 < p -> 0 <= n <= n' -> (of_int p n <= of_int p n')%Q.
Proof.
  intros Hp Hn. unfold of_int. apply rnd_mono; [exact Hp| |].
  - unfold Qle; simpl. lia.
  - rewrite <- Zle_Qle. lia.
Qed.

Lemma of_int_nonneg p n : 0 <= n -> (0 <= of_int p n)%Q.
Proof. intros Hn. apply rnd_nonneg. unfold Qle; simpl. lia. Qed.

End FloatOrder.

(* ================================================================== *)
(** * Facts: heights, depths and shades are ordered *)

Module StrategyOrder.
Import Float FloatFacts FloatOrder StrategyFacts.

Lemma height_of_mono g g' H H' :
  0 <= g <= g' -> 0 <= H <= H' -> height_of g H <= height_of g' H'.
Proof.
  intros Hg HH. unfold height_of, binary64.
  assert (Q0 : (0 <= div 53 (inject_Z g) 255)%Q).
  { unfold div. apply rnd_nonneg. apply Qle_shift_div_l; [reflexivity|].
    rewrite Qmult_0_l. apply inject_Z_nonneg. lia. }
  apply trunc_mono.
  - unfold mul. apply rnd_nonneg. apply Qmult_le_0_compat; [exact Q0|].
    apply of_int_nonneg. lia.
  - apply mul_mono; [lia | exact Q0 | | apply of_int_nonneg; lia | apply of_int_mono; lia].
    apply div_mono; [lia | apply inject_Z_nonneg; lia | | reflexivity].
    rewrite <- Zle_Qle. lia.
Qed.

Lemma height_of_black H : height_of 0 H = 0.
Proof. reflexivity. Qed.

Lemma height_of_white H : 0 <= H < 2 ^ 53 -> height_of 255 H = H.
Proof.
  intros HH.
  pose proof (height_of_bounds 255 H ltac:(unfold uint8; lia) HH) as [_ U].
  apply Z.le_antisymm; [exact U|].
  unfold height_of, binary64. apply trunc_ge_int; [|lia].
  unfold mul. apply rnd_ge_int; [lia | exact HH|].
  assert (Q1 : (1 <= div 53 (inject_Z 255) 255)%Q) by (vm_compute; discriminate).
  rewrite <- (of_int_exact 53 H ltac:(lia) HH) at 1.
  rewrite <- (Qmult_1_l (of_int 53 H)) at 1.
  apply Qmult_le_compat_r; [exact Q1 | apply of_int_nonneg; lia].
Qed.

Lemma hue_layer_of_mono h h' L :
  0 <= h <= h' -> 0 <= L -> hue_layer_of h L <= hue_layer_of h' L.
Proof.
  intros Hh HL. unfold hue_layer_of, binary64.
  apply Z.min_le_compat_r.
  assert (Q0 : (0 <= div 53 (inject_Z h) 180)%Q).
  { unfold div. apply rnd_nonneg. apply Qle_shift_div_l; [reflexivity|].
    rewrite Qmult_0_l. apply inject_Z_nonneg. lia. }
  apply trunc_mono.
  - unfold mul. apply rnd_nonneg. apply Qmult_le_0_compat; [exact Q0|].
    apply of_int_nonneg. lia.
  - apply mul_mono; [lia | exact Q0 | | apply of_int_nonneg; lia | apply Qle_refl].
    apply div_mono; [lia | apply inject_Z_nonneg; lia | | reflexivity].
    rewrite <- Zle_Qle. lia.
Qed.

Lemma div_nonneg p a b : (0 <= a)%Q -> (0 < b)%Q -> (0 <= div p a b)%Q.
Proof.
  intros Ha Hb. unfold div. apply rnd_nonneg.
  apply Qle_shift_div_l; [exact Hb|]. now rewrite Qmult_0_l.
Qed.

Lemma depth_of_mono d d' m D :
  (0 <= d)%Q -> (d <= d')%Q -> (0 < m)%Q -> 1 <= D ->
  depth_of d m D <= depth_of d' m D.
Proof.
  intros Hd Hdd Hm HD. unfold depth_of, binary32.
  apply trunc_mono.
  - unfold mul. apply rnd_nonneg. apply Qmult_le_0_compat;
      [apply div_nonneg; assumption | apply of_int_nonneg; lia].
  - apply mul_mono; [lia | apply div_nonneg; assumption | |
                     apply of_int_nonneg; lia | apply Qle_refl].
    apply div_mono; [lia | assumption..].
Qed.

Lemma depth_of_zero d m D : (d == 0)%Q -> depth_of d m D = 0.
Proof.
  intros Hd. assert (N : Qnum d = 0).
  { unfold Qeq in Hd. simpl in Hd. lia. }
  unfold depth_of, mul, div.
  assert (E : rnd binary32 (d / m) = 0%Q).
  { unfold rnd. replace (Qnum (d / m)) with 0; [reflexivity|].
    unfold Qdiv, Qmult. simpl. rewrite N. reflexivity. }
  rewrite E. reflexivity.
Qed.

(** The pixel farthest from every edge gets the deepest column. *)
Lemma depth_of_max d m D :
  (0 < m)%Q -> (d <= m)%Q -> (m <= d)%Q -> 0 < D <= 2 ^ 24 ->
  depth_of d m D = D - 1.
Proof.
  intros Hm Hdm Hmd HD.
  assert (Hd : (0 <= d)%Q) by (apply (Qle_trans _ m); [apply Qlt_le_weak|]; assumption).
  pose proof (depth_of_bounds d m D Hd Hdm Hm HD) as [_ U].
  apply Z.le_antisymm; [exact U|].
  unfold depth_of, binary32. apply trunc_ge_int; [|lia].
  unfold mul. apply rnd_ge_int; [lia | lia|].
  assert (Q1 : (1 <= div 24 d m)%Q).
  { unfold div. apply (rnd_ge_int 24 _ 1); [lia | split; [lia | reflexivity]|].
    change (inject_Z 1) with 1%Q. apply Qle_shift_div_l; [exact Hm|].
    rewrite Qmult_1_l. exact Hmd. }
  rewrite <- (of_int_exact 24 (D - 1) ltac:(lia) ltac:(lia)) at 1.
  rewrite <- (Qmult_1_l (of_int 24 (D - 1))) at 1.
  apply Qmult_le_compat_r; [exact Q1 | apply of_int_nonneg; lia].
Qed.

(** ** Shades *)

Lemma half_exact : (rnd 53 (1 # 2) == 1 # 2)%Q.
Proof. vm_compute. reflexivity. Qed.

Lemma one_exact : (rnd 53 1 == 1)%Q.
Proof. vm_compute. reflexivity. Qed.

(** The intensity is between one half and one, and decreases with [z]. *)
Lemma color_intensity_ge_half z D :
  0 <= z <= Z.max D 1 -> (1 # 2 <= color_intensity_of z D)%Q.
Proof.
  intros Hz. unfold color_intensity_of, binary64.
  pose proof (unit_ratio_bounds 53 z (Z.max D 1) ltac:(lia) Hz ltac:(lia)) as [Q0 Q1].
  set (q := div 53 (inject_Z z) (inject_Z (Z.max D 1))) in *.
  assert (T : (mul 53 q (1 # 2) <= 1 # 2)%Q).
  { unfold mul. rewrite <- half_exact at 2. apply rnd_mono; [lia | lra | lra]. }
  assert (T0 : (0 <= mul 53 q (1 # 2))%Q) by (unfold mul; apply rnd_nonneg; lra).
  unfold sub. rewrite <- half_exact at 1. apply rnd_mono; [lia | lra | lra].
Qed.

Lemma color_intensity_mono z z' D :
  0 <= z <= z' -> z' <= Z.max D 1 ->
  (color_intensity_of z' D <= color_intensity_of z D)%Q.
Proof.
  intros Hz Hz'. unfold color_intensity_of, binary64.
  pose proof (unit_ratio_bounds 53 z (Z.max D 1) ltac:(lia) ltac:(lia) ltac:(lia)) as [A0 A1].
  pose proof (unit_ratio_bounds 53 z' (Z.max D 1) ltac:(lia) ltac:(lia) ltac:(lia)) as [B0 B1].
  assert (M : (div 53 (inject_Z z) (inject_Z (Z.max D 1))
               <= div 53 (inject_Z z') (inject_Z (Z.max D 1)))%Q).
  { apply div_mono; [lia | apply inject_Z_nonneg; lia | | apply inject_Z_pos; lia].
    rewrite <- Zle_Qle. lia. }
  set (q := div 53 (inject_Z z) (inject_Z (Z.max D 1))) in *.
  set (q' := div 53 (inject_Z z') (inject_Z (Z.max D 1))) in *.
  assert (T : (mul 53 q (1 # 2) <= mul 53 q' (1 # 2))%Q).
  { apply mul_mono; [lia | exact A0 | exact M | discriminate | apply Qle_refl]. }
  assert (T' : (mul 53 q' (1 # 2) <= 1)%Q).
  { unfold mul. rewrite <- one_exact. apply rnd_mono; [lia | lra | lra]. }
  unfold sub. apply rnd_mono; [lia | lra | lra].
Qed.

Lemma color_intensity_zero D : (color_intensity_of 0 D == 1)%Q.
Proof.
  unfold color_intensity_of, binary64.
  assert (E : div 53 (inject_Z 0) (inject_Z (Z.max D 1)) = 0%Q) by reflexivity.
  rewrite E. vm_compute. reflexivity.
Qed.

Lemma stored_channel_mono c i i' :
  0 <= c -> (0 <= i)%Q -> (i <= i')%Q ->
  trunc (mul binary64 (inject_Z c) i) <= trunc (mul binary64 (inject_Z c) i').
Proof.
  intros Hc Hi Hii. unfold binary64.
  assert (C0 : (0 <= inject_Z c)%Q) by (apply inject_Z_nonneg; lia).
  apply trunc_mono.
  - unfold mul. apply rnd_nonneg. apply Qmult_le_0_compat; assumption.
  - apply mul_mono; [lia | exact C0 | apply Qle_refl | exact Hi | exact Hii].
Qed.

(** At full intensity a channel is stored unchanged. *)
Lemma stored_channel_full c i :
  uint8 c -> (i == 1)%Q -> trunc (mul binary64 (inject_Z c) i) = c.
Proof.
  intros Hc Hi. unfold uint8 in Hc.
  assert (I : (0 <= i <= 1)%Q) by (rewrite Hi; split; discriminate).
  destruct (darken_channel_bounds c i Hc I) as [E [_ U]]. rewrite E in U.
  apply Z.le_antisymm; [exact U|].
  unfold binary64. apply trunc_ge_int; [|lia].
  unfold mul. apply rnd_ge_int; [lia | |].
  - split; [lia|]. assert (2 ^ 8 <= 2 ^ 53) by (apply Z.pow_le_mono_r; lia).
    change (2 ^ 8) with 256 in *. lia.
  - rewrite Hi, Qmult_1_r. apply Qle_refl.
Qed.

(** A stored channel is at least half of the channel, rounded down. *)
Lemma stored_channel_ge_half c i :
  uint8 c -> (1 # 2 <= i)%Q -> c / 2 <= trunc (mul binary64 (inject_Z c) i).
Proof.
  intros Hc Hi. unfold uint8 in Hc. unfold binary64.
  apply trunc_ge_int; [|apply Z.div_pos; lia].
  unfold mul. apply rnd_ge_int; [lia | |].
  - split; [apply Z.div_pos; lia|].
    assert (c / 2 <= c) by (apply Z.div_le_upper_bound; lia).
    assert (2 ^ 8 <= 2 ^ 53) by (apply Z.pow_le_mono_r; lia).
    change (2 ^ 8) with 256 in *. lia.
  - apply (Qle_trans _ (inject_Z c * (1 # 2))).
    + unfold Qle; simpl. pose proof (Z.mul_div_le c 2 ltac:(lia)). lia.
    + rewrite !(Qmult_comm (inject_Z c)).
      apply Qmult_le_compat_r; [exact Hi | apply inject_Z_nonneg; lia].
Qed.

(** ** Cells *)

Lemma cell_some_inside {A} (g : ndarray A) x y z v :
  cell g x y z = Some v -> inside (shape g) x y z = true.
Proof.
  unfold cell. destruct (inside (shape g) x y z); [reflexivity | discriminate].
Qed.

Lemma filled_occupied dims occ col vg cs x y z :
  filled dims occ col (fun _ _ => true) (vg, cs) ->
  cell vg x y z = Some true ->
  inside dims x y z = true /\ occ x y z = true /\ cell cs x y z = Some (col x y z).
Proof.
  intros F Hc. pose proof F as (S1 & _ & _ & _ & C). cbn [fst snd] in S1, C.
  pose proof (cell_some_inside _ _ _ _ _ Hc) as I. rewrite S1 in I.
  destruct (C x y z I) as [C1 C2]. cbn [andb] in C1, C2.
  rewrite Hc in C1. injection C1 as C1. rewrite <- C1 in C2. auto.
Qed.

Lemma filled_cell dims occ col vg cs x y z :
  filled dims occ col (fun _ _ => true) (vg, cs) -> inside dims x y z = true ->
  cell vg x y z = Some (occ x y z).
Proof. intros (_ & _ & _ & _ & C) I. destruct (C x y z I) as [C1 _]. exact C1. Qed.

Lemma depth_map_entry (dist : array2 Q) m D y x d :
  getitem2 dist y x = Ok d ->
  getitem2 (depth_map_of dist m D) y x =
  Ok (if positive_float m then depth_of d m D else 0).
Proof.
  intros E. unfold depth_map_of. destruct (positive_float m).
  - exact (NpFacts.getitem2_map2 (fun d => depth_of d m D) _ _ _ _ E).
  - exact (NpFacts.getitem2_map2 (fun _ => 0) _ _ _ _ E).
Qed.

End StrategyOrder.

(* ================================================================== *)
(** * Facts: the runs of [convert_image] and [save_voxels] *)

Module OrchestratorFacts.
Import NpFacts EncoderFacts IoFacts PairedFacts.

Ltac run_io :=
  cbv beta iota zeta delta
    [io_bind os_path_exists cv2_imread emit io_lift io_raise io_ret io_for
     files makedirs log negb cv2_BGR2RGB logged fst snd].

(** The common start of every run on a decodable file. *)
Lemma convert_image_all cv path kwargs w img :
  files w path = Some (Some img) ->
  let img_rgb := map2 (fun '(b, g, r) => (r, g, b)) img in
  let start := [ev_exists path; ev_imread path;
                ev_print_processing (length (hd [] img_rgb)) (length img_rgb)] in
  convert_image cv path "all" kwargs w =
  match call_height cv img_rgb kwargs with
  | Raise e => (logged w (start ++ [ev_print_running "height"]), Raise e)
  | Ok s1 =>
    let e1 := [ev_print_running "height"; ev_print_created (np_sum (fst s1)) "height"] in
    match call_color cv img_rgb kwargs with
    | Raise e => (logged w (start ++ e1 ++ [ev_print_running "color"]), Raise e)
    | Ok s2 =>
      let e2 := [ev_print_running "color"; ev_print_created (np_sum (fst s2)) "color"] in
      match call_structure cv img_rgb kwargs with
      | Raise e =>
          (logged w (start ++ e1 ++ e2 ++ [ev_print_running "structure"]), Raise e)
      | Ok s3 =>
          (logged w (start ++ e1 ++ e2 ++
                     [ev_print_running "structure";
                      ev_print_created (np_sum (fst s3)) "structure"]),
           Ok [("height"%string, entry_of "height" s1);
               ("color"%string, entry_of "color" s2);
               ("structure"%string, entry_of "structure" s3)])
      end
    end
  end.
Proof.
  intros Hf img_rgb start. subst start.
  destruct w as [fs mk lg]. cbn [files makedirs log] in *.
  unfold convert_image, call_height, call_color, call_structure.
  change (String.eqb "all" "all") with true. cbv iota.
  run_io. rewrite Hf. run_io. rewrite Hf. run_io. fold img_rgb.
  change (String.eqb "height" "height") with true.
  change (String.eqb "color" "height") with false.
  change (String.eqb "color" "color") with true.
  change (String.eqb "structure" "height") with false.
  change (String.eqb "structure" "color") with false.
  change (String.eqb "structure" "structure") with true.
  cbv iota.
  destruct (_height_based_voxels cv img_rgb _ _) as [[vg1 cs1]|e1]; run_io;
    [|rewrite <- !app_assoc; reflexivity].
  destruct (_color_layered_voxels cv img_rgb _ _) as [[vg2 cs2]|e2]; run_io;
    [|rewrite <- !app_assoc; reflexivity].
  destruct (_structure_based_voxels cv img_rgb _ _) as [[vg3 cs3]|e3]; run_io;
    rewrite <- !app_assoc; reflexivity.
Qed.

(** A run with one of the three strategy names. *)
Lemma convert_image_single cv path m kwargs w img call :
  files w path = Some (Some img) ->
  (m = "height"%string /\ call = call_height) \/
  (m = "color"%string /\ call = call_color) \/
  (m = "structure"%string /\ call = call_structure) ->
  let img_rgb := map2 (fun '(b, g, r) => (r, g, b)) img in
  let start := [ev_exists path; ev_imread path;
                ev_print_processing (length (hd [] img_rgb)) (length img_rgb);
                ev_print_running m] in
  convert_image cv path m kwargs w =
  match call cv img_rgb kwargs with
  | Raise e => (logged w start, Raise e)
  | Ok s =>
      (logged w (start ++ [ev_print_created (np_sum (fst s)) m]),
       Ok [(m, entry_of m s)])
  end.
Proof.
  intros Hf Hm img_rgb start. subst start.
  destruct w as [fs mk lg]. cbn [files makedirs log] in *.
  unfold convert_image, call_height, call_color, call_structure.
  destruct Hm as [[-> ->]|[[-> ->]|[-> ->]]].
  - change (String.eqb "height" "all") with false. cbv iota.
    run_io. rewrite Hf. run_io. rewrite Hf. run_io. fold img_rgb.
    change (String.eqb "height" "height") with true. cbv iota.
    unfold call_height.
    destruct (_height_based_voxels cv img_rgb _ _) as [[vg1 cs1]|e1]; run_io;
      rewrite <- !app_assoc; reflexivity.
  - change (String.eqb "color" "all") with false. cbv iota.
    run_io. rewrite Hf. run_io. rewrite Hf. run_io. fold img_rgb.
    change (String.eqb "color" "height") with false.
    change (String.eqb "color" "color") with true. cbv iota.
    unfold call_color.
    destruct (_color_layered_voxels cv img_rgb _ _) as [[vg1 cs1]|e1]; run_io;
      rewrite <- !app_assoc; reflexivity.
  - change (String.eqb "structure" "all") with false. cbv iota.
    run_io. rewrite Hf. run_io. rewrite Hf. run_io. fold img_rgb.
    change (String.eqb "structure" "height") with false.
    change (String.eqb "structure" "color") with false.
    change (String.eqb "structure" "structure") with true. cbv iota.
    unfold call_structure.
    destruct (_structure_based_voxels cv img_rgb _ _) as [[vg1 cs1]|e1]; run_io;
      rewrite <- !app_assoc; reflexivity.
Qed.

(** [cv2.cvtColor(img, cv2.COLOR_BGR2RGB)] of a decoded image is a decoded
    image. *)
Lemma valid_image_swap img :
  valid_image img -> valid_image (map2 (fun '(b, g, r) => (r, g, b)) img).
Proof.
  intros (h & w & Hh & Hw & S & U). exists h, w.
  split; [exact Hh|]. split; [exact Hw|]. split; [now apply shape2_map2|].
  unfold all2, map2. apply Forall_map. eapply Forall_impl; [|exact U].
  intros row Hrow. simpl. apply Forall_map. eapply Forall_impl; [|exact Hrow].
  intros [[b g] r] (Hb & Hg & Hr). simpl. auto.
Qed.

(** A path with no file, and a file that does not decode. *)
Lemma convert_image_no_file cv path method kwargs w :
  files w path = None ->
  convert_image cv path method kwargs w =
  (logged w [ev_exists path], Raise FileNotFoundError).
Proof.
  intros Hf. destruct w as [fs mk lg]. cbn [files makedirs log] in *.
  unfold convert_image. run_io. rewrite Hf. reflexivity.
Qed.

Lemma convert_image_not_an_image cv path method kwargs w :
  files w path = Some None ->
  convert_image cv path method kwargs w =
  (logged w [ev_exists path; ev_imread path], Raise cv2_error).
Proof.
  intros Hf. destruct w as [fs mk lg]. cbn [files makedirs log] in *.
  unfold convert_image. run_io. rewrite Hf. run_io. rewrite Hf. run_io.
  rewrite <- !app_assoc. reflexivity.
Qed.

(** ** Only the log changes *)

Lemma logged_logged w a b : logged (logged w a) b = logged w (a ++ b).
Proof. unfold logged. cbn [files makedirs log]. now rewrite app_assoc. Qed.

Lemma logged_nil w : logged w [] = w.
Proof. destruct w. unfold logged. cbn [files makedirs log]. now rewrite app_nil_r. Qed.

Section Emits.
Variable P : event -> Prop.

Lemma emits_ret {A} (a : A) : emits P (io_ret a).
Proof. intros w. exists []. simpl. now rewrite logged_nil. Qed.

Lemma emits_raise {A} e : emits P (@io_raise A e).
Proof. intros w. exists []. simpl. now rewrite logged_nil. Qed.

Lemma emits_lift {A} (r : result A) : emits P (io_lift r).
Proof. intros w. exists []. simpl. now rewrite logged_nil. Qed.

Lemma emits_emit e : P e -> emits P (emit e).
Proof. intros He w. exists [e]. split; [reflexivity | auto]. Qed.

Lemma emits_bind {A B} (c : io A) (k : A -> io B) :
  emits P c -> (forall a, emits P (k a)) -> emits P (io_bind c k).
Proof.
  intros C K w. unfold io_bind. destruct (C w) as (e1 & E1 & F1).
  destruct (c w) as [w1 [a|e]]; simpl in E1; subst w1.
  - destruct (K a (logged w e1)) as (e2 & E2 & F2). exists (e1 ++ e2).
    rewrite E2. split; [apply logged_logged | apply Forall_app; auto].
  - exists e1. auto.
Qed.

Lemma emits_for {I S} (l : list I) (body : I -> S -> io S) :
  (forall i s, emits P (body i s)) -> forall s, emits P (io_for l body s).
Proof.
  intros Hb. induction l as [|i l IH]; intros s; simpl.
  - apply emits_ret.
  - apply emits_bind; [apply Hb | exact IH].
Qed.

Lemma emits_read {A} (f : world -> A) : emits P (fun w => (w, Ok (f w))).
Proof. intros w. exists []. simpl. now rewrite logged_nil. Qed.

End Emits.

Lemma emits_convert_image cv path method kwargs :
  emits conversion_event (convert_image cv path method kwargs).
Proof.
  unfold convert_image.
  apply emits_bind.
  { unfold os_path_exists. apply emits_bind; [apply emits_emit; exact I|].
    intros _. apply emits_read. }
  intros found. destruct (negb found); [apply emits_raise|].
  apply emits_bind.
  { unfold cv2_imread. apply emits_bind; [apply emits_emit; exact I|].
    intros _. apply emits_read. }
  intros img_bgr.
  apply emits_bind; [apply emits_lift|]. intros img_rgb.
  apply emits_bind; [apply emits_emit; exact I|]. intros _.
  apply emits_bind; [|intros; apply emits_ret].
  apply emits_for. intros m [bound results].
  apply emits_bind; [apply emits_emit; exact I|]. intros _.
  apply emits_bind.
  - repeat match goal with
           | |- emits _ (if ?b then _ else _) => destruct b
           | |- emits _ (io_bind _ _) =>
               apply emits_bind; [apply emits_lift | intros]
           | |- emits _ (io_ret _) => apply emits_ret
           end.
  - intros [[vg cg]|]; [|apply emits_raise].
    apply emits_bind; [apply emits_emit; exact I|]. intros _. apply emits_ret.
Qed.

(** ** What a normal return of [convert_image] holds *)

Lemma returns_ret {A} (a : A) (Q : A -> Prop) : Q a -> returns (io_ret a) Q.
Proof. intros H w w' b [= _ <-]. exact H. Qed.

Lemma returns_raise {A} e (Q : A -> Prop) : returns (io_raise e) Q.
Proof. intros w w' b. discriminate. Qed.

Lemma returns_bind {A B} (c : io A) (k : A -> io B) (P : A -> Prop) (Q : B -> Prop) :
  returns c P -> (forall a, P a -> returns (k a) Q) -> returns (io_bind c k) Q.
Proof.
  intros C K w w' b. unfold io_bind.
  destruct (c w) as [w1 [a|e]] eqn:E; [|discriminate].
  intros Hk. eapply K; [eapply C; exact E | exact Hk].
Qed.

Lemma returns_for {I S} (l : list I) (body : I -> S -> io S) (Inv : S -> Prop) :
  (forall i s, Inv s -> returns (body i s) Inv) ->
  forall s, Inv s -> returns (io_for l body s) Inv.
Proof.
  intros Hb. induction l as [|i l IH]; intros s Hs; simpl.
  - apply returns_ret. exact Hs.
  - eapply returns_bind; [apply Hb; exact Hs | exact IH].
Qed.

Lemma returns_any {A} (c : io A) : returns c (fun _ => True).
Proof. intros w w' a _. exact I. Qed.

Lemma returns_lift {A} (r : result A) (Q : A -> Prop) :
  (forall a, r = Ok a -> Q a) -> returns (io_lift r) Q.
Proof. intros H w w' a [= _ E]. apply H. exact E. Qed.

Lemma entry_of_ok m s : paired s -> entry_ok (m, entry_of m s).
Proof.
  intros P. unfold entry_ok, entry_of. cbn [method count voxels colors].
  split; [reflexivity|]. split; [reflexivity|].
  split; [destruct s; exact P|].
  destruct P as (Sh & W1 & W2 & _).
  destruct (encode_npz_ok {| voxels := fst s; colors := snd s;
                             count := np_sum (fst s); method := m |} W1 W2 Sh)
    as (p & Ep & _ & _ & _ & Ec & _).
  exists p. split; [exact Ep | exact Ec].
Qed.

Lemma dict_set_Forall {V} (P : string * V -> Prop) d m r :
  P (m, r) -> Forall P d -> Forall P (dict_set d m r).
Proof.
  intros Hr. induction d as [|[k v] d IH]; intros F; simpl.
  - constructor; [exact Hr | constructor].
  - inversion F; subst. destruct (String.eqb_spec k m) as [->|N]; constructor; auto.
Qed.

(** Every entry of a result dictionary is well formed. *)
Lemma convert_image_entries cv path method kwargs :
  returns (convert_image cv path method kwargs) (Forall entry_ok).
Proof.
  unfold convert_image.
  eapply returns_bind; [apply returns_any|]. intros found _.
  destruct (negb found); [apply returns_raise|].
  eapply returns_bind; [apply returns_any|]. intros img_bgr _.
  eapply returns_bind; [apply returns_any|]. intros img_rgb _.
  eapply returns_bind; [apply returns_any|]. intros _ _.
  eapply (returns_bind _ _ (fun st => (forall s, fst st = Some s -> paired s) /\
                                      Forall entry_ok (snd st))).
  2:{ intros st [_ F]. apply returns_ret. exact F. }
  apply returns_for.
  2:{ split; [intros s; discriminate | constructor]. }
  intros m [bound results] [Hb Hr]. cbn [fst snd] in Hb, Hr.
  eapply returns_bind; [apply returns_any|]. intros _ _.
  eapply (returns_bind _ _ (fun b => forall s, b = Some s -> paired s)).
  - repeat match goal with
           | |- returns (if ?b then _ else _) _ => destruct b
           end.
    + eapply returns_bind; [apply returns_lift; intros a E; exact (height_paired _ _ _ _ _ E)|].
      intros a Pa. apply returns_ret. intros s [= <-]. exact Pa.
    + eapply returns_bind; [apply returns_lift; intros a E; exact (hue_paired _ _ _ _ _ E)|].
      intros a Pa. apply returns_ret. intros s [= <-]. exact Pa.
    + eapply returns_bind;
        [apply returns_lift; intros a E; exact (structure_paired _ _ _ _ _ E)|].
      intros a Pa. apply returns_ret. intros s [= <-]. exact Pa.
    + apply returns_ret. exact Hb.
  - intros [[vg cg]|] Hs; [|apply returns_raise].
    eapply returns_bind; [apply returns_any|]. intros _ _.
    apply returns_ret. cbn [fst snd]. split; [exact Hs|].
    apply dict_set_Forall; [|exact Hr].
    apply (entry_of_ok m (vg, cg)). apply Hs. reflexivity.
Qed.

(** ** The branches of [save_voxels] *)

Lemma save_voxels_run voxel_data output_path w :
  save_voxels voxel_data output_path w =
  match makedirs w output_path with
  | Raise e => (logged w [ev_makedirs output_path], Raise e)
  | Ok _ =>
      if endswith output_path ".npz" then
        match encode_npz voxel_data with
        | Ok p => (logged w [ev_makedirs output_path; ev_savez output_path p;
                             ev_print_saved output_path], Ok tt)
        | Raise e => (logged w [ev_makedirs output_path], Raise e)
        end
      else if endswith output_path ".bin" then
        (logged w [ev_makedirs output_path], Raise AttributeError)
      else
        (logged w [ev_makedirs output_path; ev_print_saved output_path], Ok tt)
  end.
Proof.
  destruct w as [fs mk lg]. unfold save_voxels. run_io.
  destruct (mk output_path) as [u|e]; [|reflexivity].
  destruct (endswith output_path ".npz").
  - run_io. destruct (encode_npz voxel_data); run_io;
      rewrite <- ?app_assoc; reflexivity.
  - destruct (endswith output_path ".bin"); run_io;
      rewrite <- ?app_assoc; reflexivity.
Qed.

End OrchestratorFacts.

(* ================================================================== *)
(** * Facts: counting the occupied voxels column by column *)

Module CountFacts.
Import NpFacts.

Lemma count_true_app l1 l2 : count_true (l1 ++ l2) = count_true l1 + count_true l2.
Proof. unfold count_true. rewrite filter_app, length_app. lia. Qed.

Lemma sum_over_ext n f g :
  (forall i, (i < n)%nat -> f i = g i) -> sum_over n f = sum_over n g.
Proof.
  unfold sum_over. intros H.
  assert (G : forall l, (forall i, In i l -> f i = g i) ->
            fold_right (fun i acc => f i + acc) 0 l
            = fold_right (fun i acc => g i + acc) 0 l).
  { induction l as [|a l IH]; intros Hl; simpl; [reflexivity|].
    rewrite (Hl a (or_introl eq_refl)), IH; [reflexivity|].
    intros i Hi. apply Hl. now right. }
  apply G. intros i Hi. apply in_seq in Hi. apply H. lia.
Qed.

Lemma fold_sum_app (f : nat -> Z) l1 l2 :
  fold_right (fun i acc => f i + acc) 0 (l1 ++ l2)
  = fold_right (fun i acc => f i + acc) 0 l1 + fold_right (fun i acc => f i + acc) 0 l2.
Proof. induction l1 as [|a l1 IH]; simpl; [reflexivity | rewrite IH; lia]. Qed.

Lemma sum_over_S n f : sum_over (S n) f = sum_over n f + f n.
Proof.
  unfold sum_over. rewrite seq_S, fold_sum_app. simpl. lia.
Qed.

Lemma sum_over_bounds n f lo hi :
  (forall i, (i < n)%nat -> lo <= f i <= hi) ->
  Z.of_nat n * lo <= sum_over n f <= Z.of_nat n * hi.
Proof.
  induction n as [|n IH]; intros H.
  - unfold sum_over. simpl. lia.
  - rewrite sum_over_S. specialize (IH ltac:(intros; apply H; lia)).
    specialize (H n ltac:(lia)). lia.
Qed.

Lemma sum_over_add a b f :
  sum_over (a + b) f = sum_over a f + sum_over b (fun y => f (a + y)%nat).
Proof.
  induction b as [|b IH].
  - rewrite Nat.add_0_r. unfold sum_over at 3. simpl. lia.
  - replace (a + S b)%nat with (S (a + b)) by lia.
    rewrite !sum_over_S, IH. lia.
Qed.

(** A sum over [n * m] indices is a double sum. *)
Lemma sum_over_mul n m f :
  sum_over (n * m) f = sum_over n (fun x => sum_over m (fun y => f (x * m + y)%nat)).
Proof.
  induction n as [|n IH].
  - reflexivity.
  - rewrite sum_over_S, <- IH.
    replace (S n * m)%nat with (n * m + m)%nat by lia.
    apply sum_over_add.
Qed.

(** The [True] entries of a buffer of [n] chunks of [m] entries, chunk by
    chunk. *)
Lemma count_true_chunks m : forall n l,
  length l = (n * m)%nat ->
  count_true l = sum_over n (fun i => count_true (firstn m (skipn (i * m) l))).
Proof.
  induction n as [|n IH]; intros l Hl.
  - destruct l; [reflexivity | discriminate].
  - rewrite sum_over_S.
    rewrite <- (firstn_skipn (n * m) l) at 1. rewrite count_true_app.
    rewrite (IH (firstn (n * m) l)) by (rewrite length_firstn; lia).
    f_equal.
    + apply sum_over_ext. intros i Hi. f_equal.
      assert (B : (i * m + m <= n * m)%nat) by nia.
      rewrite skipn_firstn_comm, firstn_firstn. f_equal. lia.
    + f_equal. rewrite firstn_all2; [reflexivity|].
      rewrite length_skipn. lia.
Qed.

Lemma nth_error_chunk {A} (l : list A) off m z :
  (z < m)%nat -> nth_error (firstn m (skipn off l)) z = nth_error l (off + z).
Proof.
  intros Hz. rewrite nth_error_firstn.
  replace (z <? m)%nat with true by (symmetry; apply Nat.ltb_lt; lia).
  apply nth_error_skipn.
Qed.

(** A list known entry by entry. *)
Lemma list_by_entries {A} (l : list A) m (f : nat -> A) :
  length l = m -> (forall z, (z < m)%nat -> nth_error l z = Some (f z)) ->
  l = map f (seq 0 m).
Proof.
  intros Hl H. apply nth_error_ext. intros z.
  destruct (Nat.lt_ge_cases z m) as [L|L].
  - rewrite (H z L), nth_error_map, nth_error_seq.
    replace (z <? m)%nat with true by (symmetry; apply Nat.ltb_lt; lia). reflexivity.
  - rewrite (proj2 (nth_error_None _ _)) by lia.
    symmetry. apply nth_error_None. rewrite length_map, length_seq. lia.
Qed.

(** The occupied voxels of a grid, summed over its columns. *)
Lemma np_sum_by_columns (g : ndarray bool) d0 d1 d2 (occ : nat -> nat -> nat -> bool) :
  shape g = (d0, d1, d2) -> wf g ->
  (forall x y z, inside (d0, d1, d2) x y z = true -> cell g x y z = Some (occ x y z)) ->
  np_sum g =
  sum_over d0 (fun x => sum_over d1 (fun y => count_true (map (occ x y) (seq 0 d2)))).
Proof.
  intros Sh W C. unfold wf in W. rewrite Sh in W. simpl in W.
  change (np_sum g) with (count_true (data g)).
  rewrite (count_true_chunks d2 (d0 * d1) (data g)) by (rewrite W; reflexivity).
  rewrite sum_over_mul. apply sum_over_ext. intros x Hx.
  apply sum_over_ext. intros y Hy. f_equal.
  apply list_by_entries.
  - rewrite length_firstn, length_skipn, W.
    assert ((x * d1 + y + 1) * d2 <= d0 * d1 * d2)%nat
      by (apply Nat.mul_le_mono_r; nia).
    nia.
  - intros z Hz. rewrite nth_error_chunk by exact Hz.
    specialize (C x y z ltac:(apply inside_true; simpl; lia)).
    unfold cell in C. rewrite Sh in C.
    replace (inside (d0, d1, d2) x y z) with true in C
      by (symmetry; apply inside_true; simpl; lia).
    exact C.
Qed.

Lemma count_true_below h m :
  0 <= h <= Z.of_nat m ->
  count_true (map (fun z => Z.of_nat z <? h) (seq 0 m)) = h.
Proof.
  intros H. replace m with (Z.to_nat h + (m - Z.to_nat h))%nat by lia.
  rewrite seq_app, map_app, count_true_app.
  assert (A : forall a n, (forall z, In z (seq a n) -> (Z.of_nat z <? h) = true) ->
            count_true (map (fun z => Z.of_nat z <? h) (seq a n)) = Z.of_nat n).
  { intros a n. revert a. induction n as [|n IH]; intros a Hn; [reflexivity|].
    unfold count_true in *. simpl. rewrite (Hn a (or_introl eq_refl)). simpl.
    specialize (IH (S a) ltac:(intros; apply Hn; now right)). lia. }
  assert (B : forall a n, (forall z, In z (seq a n) -> (Z.of_nat z <? h) = false) ->
            count_true (map (fun z => Z.of_nat z <? h) (seq a n)) = 0).
  { intros a n. revert a. induction n as [|n IH]; intros a Hn; [reflexivity|].
    unfold count_true in *. simpl. rewrite (Hn a (or_introl eq_refl)).
    apply IH. intros; apply Hn; now right. }
  rewrite A, B; [lia | |].
  - intros z Hz. apply in_seq in Hz. apply Z.ltb_ge. lia.
  - intros z Hz. apply in_seq in Hz. apply Z.ltb_lt. lia.
Qed.

Lemma count_true_upto k m :
  0 <= k < Z.of_nat m ->
  count_true (map (fun z => Z.of_nat z <=? k) (seq 0 m)) = k + 1.
Proof.
  intros H. rewrite <- (count_true_below (k + 1) m) by lia.
  f_equal. apply map_ext. intros z.
  destruct (Z.leb_spec (Z.of_nat z) k), (Z.ltb_spec (Z.of_nat z) (k + 1)); auto; lia.
Qed.

Lemma count_true_single (b : bool) a m :
  0 <= a < Z.of_nat m ->
  count_true (map (fun z => b && (Z.of_nat z =? a)) (seq 0 m)) = if b then 1 else 0.
Proof.
  intros H. destruct b.
  - pose proof (count_true_upto a m H) as U.
    pose proof (count_true_below a m ltac:(lia)) as L.
    cbn [andb]. unfold count_true in *.
    assert (G : forall l,
      Z.of_nat (length (filter (fun b => b) (map (fun z => Z.of_nat z =? a) l)))
      = Z.of_nat (length (filter (fun b => b) (map (fun z => Z.of_nat z <=? a) l)))
        - Z.of_nat (length (filter (fun b => b) (map (fun z => Z.of_nat z <? a) l)))).
    { induction l as [|z l IH]; [reflexivity|]. cbn [map filter].
      destruct (Z.eqb_spec (Z.of_nat z) a), (Z.leb_spec (Z.of_nat z) a),
        (Z.ltb_spec (Z.of_nat z) a); cbn [length];
        rewrite ?Nat2Z.inj_succ; lia. }
    rewrite G. lia.
  - cbn [andb]. unfold count_true.
    induction (seq 0 m) as [|z l IH]; [reflexivity | exact IH].
Qed.

End CountFacts.
(* ================================================================== *)
(** * Loops that leave the state alone, and degenerate depths *)

Module EdgeFacts.
Import NpFacts FillFacts StrategyFacts.

(** A loop whose body either returns the state unchanged or raises [e]:
    it returns the state when no iteration raises and raises [e] as soon
    as one does. *)
Lemma for_stuck {I S} (l : list I) (body : I -> S -> result S) s e :
  (forall i, In i l -> body i s = Ok s \/ body i s = Raise e) ->
  (for_ l body s = Ok s /\ forall i, In i l -> body i s = Ok s) \/
  (for_ l body s = Raise e /\ exists i, In i l /\ body i s = Raise e).
Proof.
  induction l as [|i l IH]; intros H.
  - left. split; [reflexivity | intros i []].
  - destruct (H i (or_introl eq_refl)) as [E|E].
    + destruct IH as [[E1 A]|[E1 (j & Hj & Ej)]].
      * intros j Hj. apply H. now right.
      * left. split; [cbn [for_]; rewrite E; exact E1|].
        intros j [<-|Hj]; auto.
      * right. split; [cbn [for_]; rewrite E; exact E1|].
        exists j. split; [now right | exact Ej].
    + right. split; [cbn [for_]; rewrite E; reflexivity|].
      exists i. split; [now left | exact E].
Qed.

Lemma in_range i n : In i (range n) <-> exists k, (k < Z.to_nat n)%nat /\ i = Z.of_nat k.
Proof.
  unfold range. rewrite in_map_iff. split.
  - intros (k & <- & Hk). apply in_seq in Hk. exists k. split; [lia | reflexivity].
  - intros (k & Hk & ->). exists k. split; [reflexivity | apply in_seq; lia].
Qed.

Lemma np_zeros_negative {A} (zero : A) d0 d1 d2 :
  d2 < 0 -> np_zeros zero d0 d1 d2 = Raise ValueError.
Proof.
  intros H. unfold np_zeros.
  replace (d2 <? 0) with true by (symmetry; apply Z.ltb_lt; lia).
  now rewrite orb_true_r.
Qed.

(** An array with an axis of length 0 has no cell. *)
Lemma flat_array_empty {A} (g : ndarray A) d0 d1 :
  shape g = (d0, d1, O) -> wf g -> data g = [].
Proof.
  intros S W. unfold wf in W. rewrite S in W. cbn [size3] in W.
  rewrite Nat.mul_0_r in W. now apply length_zero_iff_nil.
Qed.

Lemma index_empty_axis i : index 0 i = Raise IndexError.
Proof.
  unfold index. cbn [Z.of_nat Z.opp].
  destruct (Z.leb_spec 0 i).
  - destruct (Z.ltb_spec i 0); [lia | reflexivity].
  - destruct (Z.leb_spec 0 i); [lia | reflexivity].
Qed.

Lemma setitem_empty_axis {A} (g : ndarray A) d0 d1 x y z v :
  shape g = (d0, d1, O) -> (x < d0)%nat -> (y < d1)%nat ->
  setitem g (Z.of_nat x) (Z.of_nat y) z v = Raise IndexError.
Proof.
  intros S Hx Hy. unfold setitem. rewrite S.
  rewrite (index_nat d0 x Hx), (index_nat d1 y Hy). cbn [bind].
  now rewrite index_empty_axis.
Qed.

End EdgeFacts.
(* ================================================================== *)
(** * What a payload says about the grids *)

Module PayloadFacts.
Import NpFacts EncoderFacts.

(** [unravel] inverts [ravel] on the cells of the array. *)
Lemma unravel_ravel sh x y z :
  inside sh x y z = true -> unravel sh (ravel sh x y z) = (x, y, z).
Proof.
  intros I. destruct sh as [[d0 d1] d2].
  pose proof I as I'. apply inside_true in I'. cbn in I'. destruct I' as (Hx & Hy & Hz).
  pose proof (ravel_unravel (d0, d1, d2) (ravel (d0, d1, d2) x y z)
                (ravel_lt d0 d1 d2 x y z Hx Hy Hz)) as RU.
  destruct (unravel (d0, d1, d2) (ravel (d0, d1, d2) x y z)) as [[x' y'] z'].
  destruct RU as [I2 E]. apply inside_true in I2. cbn in I2.
  destruct (ravel_inj d0 d1 d2 x' y' z' x y z) as (-> & -> & ->);
    [lia | lia | lia | lia | exact E | reflexivity].
Qed.

(** Two arrays of one shape with the same cells are equal. *)
Lemma ndarray_ext {A} (g1 g2 : ndarray A) :
  shape g1 = shape g2 -> wf g1 -> wf g2 ->
  (forall x y z, inside (shape g1) x y z = true -> cell g1 x y z = cell g2 x y z) ->
  g1 = g2.
Proof.
  destruct g1 as [sh d1], g2 as [sh2 d2]. unfold wf. cbn [shape data].
  intros <- W1 W2 C. f_equal. apply nth_error_ext. intros i.
  destruct (Nat.lt_ge_cases i (size3 sh)) as [L|L].
  - pose proof (ravel_unravel sh i L) as RU.
    destruct (unravel sh i) as [[x y] z]. destruct RU as [I E].
    specialize (C x y z I). unfold cell in C. cbn [shape data] in C.
    rewrite I, E in C. exact C.
  - transitivity (@None A); [|symmetry]; apply nth_error_None; lia.
Qed.

(** The occupied cells are the listed coordinates. *)
Lemma np_where_complete (g : ndarray bool) x y z :
  cell g x y z = Some true -> In (x, y, z) (np_where g).
Proof.
  unfold cell, np_where. intros C.
  destruct (inside (shape g) x y z) eqn:I; [|discriminate].
  apply in_map_iff. exists (ravel (shape g) x y z).
  split; [now apply unravel_ravel|].
  apply where_from_In. split; [lia|]. now rewrite Nat.sub_0_r.
Qed.

Lemma getitem3_cell {A} (g : ndarray A) x y z v :
  getitem3 g (x, y, z) = Ok v -> cell g x y z = Some v.
Proof.
  unfold getitem3. destruct (cell g x y z); [|discriminate].
  intros E. now inversion E.
Qed.

(** Two results whose unoccupied cells are black and whose payloads are
    equal have the same grids. *)
Lemma paired_payload_injective r1 r2 p :
  paired (voxels r1, colors r1) -> paired (voxels r2, colors r2) ->
  encode_npz r1 = Ok p -> encode_npz r2 = Ok p ->
  voxels r1 = voxels r2 /\ colors r1 = colors r2 /\ method r1 = method r2.
Proof.
  intros (S1 & V1 & C1 & B1) (S2 & V2 & C2 & B2) E1 E2. cbn [fst snd] in *.
  destruct (encode_npz_ok r1 V1 C1 S1)
    as (p1 & Ep1 & P1 & G1 & M1 & _ & _ & N1 & _ & _ & D1).
  destruct (encode_npz_ok r2 V2 C2 S2)
    as (p2 & Ep2 & P2 & G2 & M2 & _ & _ & N2 & _ & _ & D2).
  assert (p1 = p) by congruence. assert (p2 = p) by congruence. subst p1 p2.
  assert (EV : voxels r1 = voxels r2) by congruence.
  split; [exact EV|]. split; [|congruence].
  apply ndarray_ext; [congruence | exact C1 | exact C2|].
  intros x y z I. rewrite S1 in I.
  destruct (cell_inside (voxels r1) x y z V1 I) as ([|] & Cv).
  - pose proof (np_where_complete _ _ _ _ Cv) as Hin. rewrite <- P1 in Hin.
    apply In_nth_error in Hin. destruct Hin as (k & Hk).
    destruct (N1 k _ Hk) as (v1 & K1 & T1).
    destruct (N2 k _ Hk) as (v2 & K2 & T2).
    assert (v1 = v2) by congruence. subst v2.
    now rewrite (getitem3_cell _ _ _ _ _ T1), (getitem3_cell _ _ _ _ _ T2).
  - rewrite (B1 _ _ _ Cv). rewrite EV in Cv. now rewrite (B2 _ _ _ Cv).
Qed.

End PayloadFacts.
(* ================================================================== *)
(** * Facts: sessions, [visualize_3d] and [main] *)

Module CliFacts.
Import NpFacts StrategyFacts EncoderFacts IoFacts PairedFacts OrchestratorFacts
  PayloadFacts.

Lemma shown_shown s d a d' b : shown (shown s d a) d' b = shown s d' (a ++ b).
Proof. unfold shown. cbn [disk dirs output_dir choice draws screen]. now rewrite app_assoc. Qed.

Lemma shown_same s : shown s (draws s) [] = s.
Proof. destruct s. unfold shown. cbn [disk dirs output_dir choice draws screen]. now rewrite app_nil_r. Qed.

(** ** Converter calls inside a session *)

Lemma run_logged {A} (c : io A) s evs r :
  c (world_of s) = (logged (world_of s) evs, r) ->
  run c s = (shown s (draws s) (map ev_core evs), r).
Proof. intros E. unfold run. rewrite E. reflexivity. Qed.

Lemma emits_save_voxels voxel_data output_path :
  emits (fun _ => True) (save_voxels voxel_data output_path).
Proof.
  intros w. rewrite save_voxels_run.
  destruct (makedirs w output_path); [|eexists; split; [reflexivity | auto]].
  destruct (endswith output_path ".npz").
  - destruct (encode_npz voxel_data); eexists; (split; [reflexivity | auto]).
  - destruct (endswith output_path ".bin"); eexists; (split; [reflexivity | auto]).
Qed.

(** ** Computations that only add to the screen *)

Lemma extends_ret {A} (a : A) : extends (cli_ret a).
Proof. intros s. exists (draws s), []. simpl. now rewrite shown_same. Qed.

Lemma extends_lift {A} (r : result A) : extends (cli_lift r).
Proof. intros s. exists (draws s), []. simpl. now rewrite shown_same. Qed.

Lemma extends_emit e : extends (cli_emit e).
Proof. intros s. exists (draws s), [e]. reflexivity. Qed.

Lemma extends_bind {A B} (c : cli A) (k : A -> cli B) :
  extends c -> (forall a, extends (k a)) -> extends (cli_bind c k).
Proof.
  intros C K s. unfold cli_bind. destruct (C s) as (d & evs & E).
  destruct (c s) as [s1 [a|e]]; simpl in E; subst s1.
  - destruct (K a (shown s d evs)) as (d' & evs' & E').
    exists d', (evs ++ evs'). now rewrite E', shown_shown.
  - exists d, evs. reflexivity.
Qed.

Lemma extends_for {I S} (l : list I) (body : I -> S -> cli S) :
  (forall i s, extends (body i s)) -> forall s, extends (cli_for l body s).
Proof.
  intros H. induction l as [|i l IH]; intros s; simpl.
  - apply extends_ret.
  - apply extends_bind; [apply H | exact IH].
Qed.

Lemma extends_run {A} (P : event -> Prop) (c : io A) : emits P c -> extends (run c).
Proof.
  intros H s. destruct (H (world_of s)) as (evs & E & _).
  destruct (c (world_of s)) as [w r] eqn:Ec. simpl in E. subst w.
  rewrite (run_logged c s evs r Ec). exists (draws s), (map ev_core evs). reflexivity.
Qed.

Lemma extends_choice n size : extends (np_random_choice n size).
Proof.
  intros s. unfold np_random_choice.
  destruct (size <? 0); [exists (draws s), []; simpl; now rewrite shown_same|].
  destruct (Z.of_nat n <? size); [exists (draws s), []; simpl; now rewrite shown_same|].
  exists (S (draws s)), []. reflexivity.
Qed.

Lemma extends_visualize_3d voxel_data max_voxels :
  extends (visualize_3d voxel_data max_voxels).
Proof.
  unfold visualize_3d. cbv zeta.
  destruct (length (np_where (voxels voxel_data)) =? 0)%nat; [apply extends_emit|].
  apply extends_bind.
  - destruct (Z.of_nat (length (np_where (voxels voxel_data))) >? max_voxels).
    + apply extends_bind; [apply extends_choice | intros; apply extends_lift].
    + apply extends_ret.
  - intros occupied. apply extends_bind; [apply extends_lift|].
    intros picked. apply extends_emit.
Qed.

Lemma extends_makedirs_output output : extends (os_makedirs_output output).
Proof.
  unfold os_makedirs_output. apply extends_bind; [apply extends_emit|].
  intros _ s. exists (draws s), []. simpl. now rewrite shown_same.
Qed.

Lemma finishes_emit last : finishes (cli_emit last) last.
Proof. intros s. exists (draws s), []. left. reflexivity. Qed.

Lemma finishes_bind {A} (c : cli A) (k : A -> cli unit) last :
  extends c -> (forall a, finishes (k a) last) -> finishes (cli_bind c k) last.
Proof.
  intros C K s. unfold cli_bind. destruct (C s) as (d & evs & E).
  destruct (c s) as [s1 [a|e]]; simpl in E; subst s1.
  - destruct (K a (shown s d evs)) as (d' & evs' & [E'|(e & E')]).
    + exists d', (evs ++ evs'). left. now rewrite E', shown_shown, app_assoc.
    + exists d', (evs ++ evs'). right. exists e. now rewrite E', shown_shown.
  - exists d, evs. right. exists e. reflexivity.
Qed.

Lemma finishes_main_body cv args :
  finishes
    (results <- run (convert_image cv (args_input args) (args_method args)
                       [("voxel_resolution"%string, args_resolution args)]) ;;
     os_makedirs_output (args_output args) ;;
     cli_for results (fun '(method_name, voxel_data) _ =>
       let output_file :=
         os_path_join (args_output args) (method_name ++ "_voxels.npz") in
       run (save_voxels voxel_data output_file) ;;
       if args_visualize args then visualize_3d voxel_data 8000 else cli_ret tt) tt ;;
     cli_emit (ev_print_complete (args_output args)))%cli
    (ev_print_complete (args_output args)).
Proof.
  apply finishes_bind; [eapply extends_run; apply emits_convert_image|].
  intros results.
  apply finishes_bind; [apply extends_makedirs_output|]. intros _.
  apply finishes_bind; [|intros; apply finishes_emit].
  apply extends_for. intros [method_name voxel_data] [].
  apply extends_bind; [eapply extends_run; apply emits_save_voxels|]. intros _.
  destruct (args_visualize args); [apply extends_visualize_3d | apply extends_ret].
Qed.

(** ** The listed coordinates *)

Lemma np_where_length g : Z.of_nat (length (np_where g)) = np_sum g.
Proof. unfold np_where, np_sum. now rewrite length_map, where_from_length. Qed.

Lemma np_where_sound (g : ndarray bool) x y z :
  wf g -> In (x, y, z) (np_where g) ->
  inside (shape g) x y z = true /\ cell g x y z = Some true.
Proof.
  intros W H. unfold np_where in H. apply in_map_iff in H.
  destruct H as (j & Ej & Hj).
  pose proof (where_from_bound _ _ _ Hj) as Bj. cbn in Bj. rewrite W in Bj.
  apply where_from_In in Hj. destruct Hj as [_ Hj]. rewrite Nat.sub_0_r in Hj.
  pose proof (ravel_unravel (shape g) j Bj) as RU. rewrite Ej in RU.
  destruct RU as [I R]. split; [exact I|].
  unfold cell. now rewrite I, R.
Qed.

(** ** Index arrays *)

Lemma getitems_ok {A} (a : list A) indices :
  Forall (fun i => (i < length a)%nat) indices ->
  exists vs, getitems a indices = Ok vs /\ map Some vs = map (nth_error a) indices.
Proof.
  induction indices as [|i rest IH]; intros F.
  - exists []. split; reflexivity.
  - inversion F as [|? ? Hi F']; subst.
    destruct (IH F') as (vs & E & M).
    destruct (nth_error a i) as [v|] eqn:Ei.
    + exists (v :: vs). cbn [getitems]. rewrite Ei, E. cbn [bind map].
      split; [reflexivity|]. now rewrite Ei, M.
    + apply nth_error_None in Ei. lia.
Qed.

Lemma nodup_picks {A} (a : list A) indices :
  NoDup a -> NoDup indices -> Forall (fun i => (i < length a)%nat) indices ->
  NoDup (map (nth_error a) indices).
Proof.
  intros Na Ni F. induction Ni as [|i rest Hi Ni IH]; cbn [map]; [constructor|].
  inversion F as [|? ? Li F']; subst. constructor; [|apply IH; exact F'].
  intros Hin. apply in_map_iff in Hin. destruct Hin as (j & Ej & Hj).
  rewrite NoDup_nth_error in Na.
  rewrite Forall_forall in F'. specialize (F' j Hj).
  assert (j = i) by (apply Na; [exact F' | exact Ej]). subst j. contradiction.
Qed.

Lemma map_Some_length {A} (vs : list A) (l : list (option A)) :
  map Some vs = l -> length vs = length l.
Proof. intros <-. now rewrite length_map. Qed.

Lemma map_Some_In {A} (a vs : list A) indices v :
  map Some vs = map (nth_error a) indices -> In v vs -> In v a.
Proof.
  intros M Hv. apply (in_map Some) in Hv. rewrite M in Hv.
  apply in_map_iff in Hv. destruct Hv as (i & Ei & _).
  now apply nth_error_In with i.
Qed.

(** ** File names *)

Lemma endswith_cons c s suffix :
  (String.length suffix <= String.length s)%nat ->
  endswith (String c s) suffix = endswith s suffix.
Proof.
  intros H. unfold endswith. cbn [String.length].
  replace (String.length suffix <=? S (String.length s))%nat with true
    by (symmetry; apply Nat.leb_le; lia).
  replace (String.length suffix <=? String.length s)%nat with true
    by (symmetry; apply Nat.leb_le; lia).
  replace (S (String.length s) - String.length suffix)%nat
    with (S (String.length s - String.length suffix)) by lia.
  reflexivity.
Qed.

Lemma endswith_length s suffix :
  endswith s suffix = true -> (String.length suffix <= String.length s)%nat.
Proof.
  unfold endswith. intros H. apply andb_true_iff in H. destruct H as [H _].
  now apply Nat.leb_le.
Qed.

Lemma endswith_app a b suffix :
  endswith b suffix = true -> endswith (a ++ b) suffix = true.
Proof.
  intros H. induction a as [|c a IH]; [exact H|].
  cbn [String.append]. rewrite endswith_cons; [exact IH|].
  now apply endswith_length.
Qed.

(** Every file name [main] builds has the extension [.npz]. *)
Lemma output_file_npz output method_name :
  endswith (os_path_join output (method_name ++ "_voxels.npz")) ".npz" = true.
Proof.
  assert (B : endswith (method_name ++ "_voxels.npz") ".npz" = true)
    by (apply endswith_app; reflexivity).
  unfold os_path_join.
  destruct (String.prefix "/" (method_name ++ "_voxels.npz")); [exact B|].
  destruct ((String.length output =? 0)%nat || endswith output "/").
  - now apply endswith_app.
  - apply endswith_app. now apply (endswith_app "/").
Qed.

(** ** What a session saved and created *)

Lemma saved_app a b : saved (a ++ b) = saved a ++ saved b.
Proof.
  induction a as [|e a IH]; [reflexivity|].
  destruct e as [[]| | | | |]; cbn [saved app]; now rewrite ?IH.
Qed.

Lemma created_app a b : created (a ++ b) = created a ++ created b.
Proof.
  induction a as [|e a IH]; [reflexivity|].
  destruct e as [[]| | | | |]; cbn [created app]; now rewrite ?IH.
Qed.

Lemma conversion_saves_nothing evs :
  Forall conversion_event evs ->
  saved (map ev_core evs) = [] /\ created (map ev_core evs) = [].
Proof.
  induction 1 as [|e evs He _ [IH1 IH2]]; [split; reflexivity|].
  destruct e; cbn in He; try contradiction; cbn [map saved created]; auto.
Qed.

Lemma encode_npz_fields r p :
  encode_npz r = Ok p ->
  positions p = np_where (voxels r) /\
  grid_shape p = shape (voxels r) /\ npz_method p = method r.
Proof.
  unfold encode_npz. destruct (take (colors r) (np_where (voxels r))); [|discriminate].
  cbn [bind]. intros E. inversion E. subst p. auto.
Qed.

(** ** The steps of [main] *)

Lemma run_convert_image cv path m kwargs s :
  exists evs,
    Forall conversion_event evs /\
    run (convert_image cv path m kwargs) s =
    (shown s (draws s) (map ev_core evs),
     snd (convert_image cv path m kwargs (world_of s))).
Proof.
  destruct (emits_convert_image cv path m kwargs (world_of s)) as (evs & E & F).
  exists evs. split; [exact F|].
  destruct (convert_image cv path m kwargs (world_of s)) as [w r] eqn:Ec.
  simpl in E. subst w. cbn [snd]. now apply run_logged.
Qed.

Lemma run_save_voxels_npz voxel_data output_path p s :
  dirs s output_path = Ok tt ->
  endswith output_path ".npz" = true ->
  encode_npz voxel_data = Ok p ->
  run (save_voxels voxel_data output_path) s =
  (shown s (draws s)
     [ev_core (ev_makedirs output_path); ev_core (ev_savez output_path p);
      ev_core (ev_print_saved output_path)], Ok tt).
Proof.
  intros Hd Hn He.
  apply (run_logged _ s [ev_makedirs output_path; ev_savez output_path p;
                         ev_print_saved output_path]).
  rewrite save_voxels_run. cbn [world_of makedirs]. now rewrite Hd, Hn, He.
Qed.

(** The loop of [main] without [--visualize], when every directory can be
    created and every entry has a payload. *)
Lemma main_loop output results : forall s,
  (forall path, dirs s path = Ok tt) ->
  Forall (fun e => exists p, encode_npz (snd e) = Ok p) results ->
  exists evs,
    cli_for results (fun '(method_name, voxel_data) _ =>
      let output_file := os_path_join output (method_name ++ "_voxels.npz") in
      (run (save_voxels voxel_data output_file) ;; cli_ret tt)%cli) tt s
    = (shown s (draws s) evs, Ok tt) /\
    Forall2 (fun e fp =>
               fst fp = os_path_join output (fst e ++ "_voxels.npz") /\
               encode_npz (snd e) = Ok (snd fp))
      results (saved evs) /\
    created evs = map (fun e => os_path_join output (fst e ++ "_voxels.npz")) results.
Proof.
  induction results as [|[m r] results IH]; intros s Hd F.
  - exists []. cbn [cli_for cli_ret]. rewrite shown_same.
    split; [reflexivity|]. split; [constructor | reflexivity].
  - inversion F as [|? ? (p & Ep) F']; subst. cbn [snd] in Ep.
    destruct (IH (shown s (draws s)
                    [ev_core (ev_makedirs (os_path_join output (m ++ "_voxels.npz")));
                     ev_core (ev_savez (os_path_join output (m ++ "_voxels.npz")) p);
                     ev_core (ev_print_saved (os_path_join output (m ++ "_voxels.npz")))])
                 Hd F') as (evs & E & S & C).
    eexists. cbn [cli_for]. cbv zeta. unfold cli_bind at 1 2.
    rewrite (run_save_voxels_npz r _ p s (Hd _) (output_file_npz output m) Ep).
    cbn [cli_ret]. cbv zeta in E. rewrite E. cbn [draws shown]. rewrite shown_shown.
    split; [reflexivity|].
    cbn [app saved created map fst]. split; [|now rewrite C].
    constructor; [split; [reflexivity | exact Ep] | exact S].
Qed.

End CliFacts.

(* ================================================================== *)
(** * The properties of the specification *)

Import FloatFacts NpFacts FillFacts StrategyFacts TableFacts EncoderFacts
  IoFacts PairedFacts.

Lemma valid_image_gray : valid_image gray_image.
Proof.
  exists 1%nat, 1%nat. repeat split; try lia; repeat constructor; unfold uint8; lia.
Qed.

Lemma valid_image_green : valid_image green_image.
Proof.
  exists 1%nat, 1%nat. repeat split; try lia; repeat constructor; unfold uint8; lia.
Qed.

Lemma valid_image_edge : valid_image edge_image.
Proof.
  exists 2%nat, 2%nat. repeat split; try lia; repeat constructor; unfold uint8; lia.
Qed.

Lemma valid_image_two_hue : valid_image two_hue_image.
Proof.
  exists 2%nat, 2%nat. repeat split; try lia; repeat constructor; unfold uint8; lia.
Qed.

Lemma filled_cells dims occ col s x y z :
  filled dims occ col (fun _ _ => true) s -> inside dims x y z = true ->
  cell (fst s) x y z = Some (occ x y z) /\
  cell (snd s) x y z = Some (if occ x y z then col x y z else black).
Proof.
  intros (_ & _ & _ & _ & C) I. destruct (C x y z I) as [C1 C2]. auto.
Qed.

(** C1 (as amended). For every valid image, every resolution [R > 0] and
    every [0 < H < 2^53], the Height strategy returns grids of shape
    [(R, R, H)]; in the column of the pixel [(x, y)], with gray level [g]
    and color [c], the occupied cells are exactly those with
    [z < height_of g H], where [height_of g H] is the truncation of the
    double-precision product [(g / 255.0) * H] and lies between [0] and
    [H]; each of them has the color [c].  A height of [0] leaves the column
    empty. *)
Theorem C1_height_columns cv image R H :
  OpenCV_ok cv -> valid_image image -> 0 < R -> 0 < H < 2 ^ 53 ->
  exists resized vg cs,
    cv2_resize cv image R R = Ok resized /\
    _height_based_voxels cv image R H = Ok (vg, cs) /\
    shape vg = (Z.to_nat R, Z.to_nat R, Z.to_nat H) /\
    shape cs = (Z.to_nat R, Z.to_nat R, Z.to_nat H) /\
    forall x y, (x < Z.to_nat R)%nat -> (y < Z.to_nat R)%nat ->
      exists g c,
        getitem2 (cv2_RGB2GRAY cv resized) (Z.of_nat y) (Z.of_nat x) = Ok g /\
        getitem2 resized (Z.of_nat y) (Z.of_nat x) = Ok c /\
        0 <= height_of g H <= H /\
        forall z, (z < Z.to_nat H)%nat ->
          cell vg x y z = Some (Z.of_nat z <? height_of g H) /\
          (Z.of_nat z < height_of g H -> cell cs x y z = Some c).
Proof.
  intros cv_ok image_ok HR HH.
  destruct (height_run cv image R H cv_ok image_ok HR ltac:(lia))
    as (resized & [vg cs] & Er & Sr & Es & F).
  exists resized, vg, cs. split; [exact Er|]. split; [exact Es|].
  pose proof F as (S1 & S2 & _). simpl in S1, S2.
  split; [exact S1|]. split; [exact S2|].
  intros x y Hx Hy.
  pose proof (gray_shape cv cv_ok resized _ _ Sr) as Sg.
  destruct (getitem2_shape _ _ _ y x Sg Hy Hx) as (g & Eg).
  destruct (getitem2_shape _ _ _ y x Sr Hy Hx) as (c & Ec).
  exists g, c. split; [exact Eg|]. split; [exact Ec|]. split.
  - apply height_of_bounds; [|lia].
    exact (getitem2_all2 _ _ _ _ _ (gray_range cv cv_ok resized) Eg).
  - intros z Hz.
    destruct (filled_cells _ _ _ _ x y z F) as [C1 C2];
      [apply inside_true; simpl; lia|].
    simpl in C1, C2. unfold height_occ, height_col, pixel in C1, C2.
    rewrite Eg in C1. rewrite Eg, Ec in C2.
    split; [exact C1|]. intros L.
    replace (Z.of_nat z <? height_of g H) with true in C2
      by (symmetry; apply Z.ltb_lt; exact L).
    exact C2.
Qed.

Lemma C1_height_columns_witness :
  exists resized vg cs,
    cv2_resize (table_cv gray_scene) gray_image 1 1 = Ok resized /\
    _height_based_voxels (table_cv gray_scene) gray_image 1 51 = Ok (vg, cs) /\
    shape vg = (Z.to_nat 1, Z.to_nat 1, Z.to_nat 51) /\
    shape cs = (Z.to_nat 1, Z.to_nat 1, Z.to_nat 51) /\
    forall x y, (x < Z.to_nat 1)%nat -> (y < Z.to_nat 1)%nat ->
      exists g c,
        getitem2 (cv2_RGB2GRAY (table_cv gray_scene) resized) (Z.of_nat y) (Z.of_nat x)
          = Ok g /\
        getitem2 resized (Z.of_nat y) (Z.of_nat x) = Ok c /\
        0 <= height_of g 51 <= 51 /\
        forall z, (z < Z.to_nat 51)%nat ->
          cell vg x y z = Some (Z.of_nat z <? height_of g 51) /\
          (Z.of_nat z < height_of g 51 -> cell cs x y z = Some c).
Proof.
  apply (C1_height_columns (table_cv gray_scene) gray_image 1 51).
  - apply table_cv_ok.
  - apply valid_image_gray.
  - lia.
  - split; [lia | reflexivity].
Defined.

(** C1, as stated, fails: on a pixel of gray level 155 with [H = 51] the
    exact value of [floor((155/255) * 51)] is 31, but the double-precision
    product is just below 31 and the column has 30 occupied cells: the cell
    [z = 30] is empty. *)
Lemma C1_exact_floor_counterexample :
  exists vg cs,
    _height_based_voxels (table_cv gray_scene) gray_image 1 51 = Ok (vg, cs) /\
    pixel 0 (cv2_RGB2GRAY (table_cv gray_scene) gray_image) 0 0 = 155 /\
    Spec.height 155 51 = 31 /\
    ~ (forall z, (z < 51)%nat ->
         cell vg 0 0 z = Some (Z.of_nat z <? Spec.height 155 51)).
Proof.
  eexists. eexists. split; [vm_compute; reflexivity|].
  split; [reflexivity|]. split; [reflexivity|].
  intros H. specialize (H 30%nat ltac:(lia)). vm_compute in H. discriminate.
Qed.

(** C2 (as amended). For every valid image, [R > 0] and [L > 0], the
    Hue-Layer strategy returns grids of shape [(R, R, L)].  A pixel whose
    saturation or value is at most 30 leaves its column empty.  A pixel
    that passes the gate occupies exactly one cell of its column, at
    [hue_layer_of hue L]: the truncation of the double-precision product
    [(hue / 180.0) * L], capped at [L - 1]; that cell has the color of the
    pixel. *)
Theorem C2_hue_layer_columns cv image R L :
  OpenCV_ok cv -> valid_image image -> 0 < R -> 0 < L ->
  exists resized vg cs,
    cv2_resize cv image R R = Ok resized /\
    _color_layered_voxels cv image R L = Ok (vg, cs) /\
    shape vg = (Z.to_nat R, Z.to_nat R, Z.to_nat L) /\
    shape cs = (Z.to_nat R, Z.to_nat R, Z.to_nat L) /\
    forall x y, (x < Z.to_nat R)%nat -> (y < Z.to_nat R)%nat ->
      exists hue sat val c,
        getitem2 (cv2_RGB2HSV cv resized) (Z.of_nat y) (Z.of_nat x)
          = Ok (hue, sat, val) /\
        getitem2 resized (Z.of_nat y) (Z.of_nat x) = Ok c /\
        0 <= hue_layer_of hue L <= L - 1 /\
        (sat <= 30 \/ val <= 30 ->
           forall z, (z < Z.to_nat L)%nat -> cell vg x y z = Some false) /\
        (30 < sat /\ 30 < val ->
           (forall z, (z < Z.to_nat L)%nat ->
              cell vg x y z = Some (Z.of_nat z =? hue_layer_of hue L)) /\
           cell vg x y (Z.to_nat (hue_layer_of hue L)) = Some true /\
           cell cs x y (Z.to_nat (hue_layer_of hue L)) = Some c).
Proof.
  intros cv_ok image_ok HR HL.
  destruct (hue_run cv image R L cv_ok image_ok HR HL)
    as (resized & [vg cs] & Er & Sr & Es & F).
  exists resized, vg, cs. split; [exact Er|]. split; [exact Es|].
  pose proof F as (S1 & S2 & _). simpl in S1, S2.
  split; [exact S1|]. split; [exact S2|].
  intros x y Hx Hy.
  pose proof (hsv_shape cv cv_ok resized _ _ Sr) as Sh.
  destruct (getitem2_shape _ _ _ y x Sh Hy Hx) as ([[hue sat] val] & Eh).
  destruct (getitem2_shape _ _ _ y x Sr Hy Hx) as (c & Ec).
  exists hue, sat, val, c. split; [exact Eh|]. split; [exact Ec|].
  pose proof (getitem2_all2 _ _ _ _ _ (hsv_range cv cv_ok resized) Eh) as (Hhue & _ & _).
  pose proof (hue_layer_of_bounds hue L ltac:(unfold uint8 in Hhue; lia) HL) as Hb.
  split; [exact Hb|].
  assert (C : forall z, (z < Z.to_nat L)%nat ->
            cell vg x y z
              = Some ((sat >? 30) && (val >? 30) && (Z.of_nat z =? hue_layer_of hue L)) /\
            cell cs x y z
              = Some (if (sat >? 30) && (val >? 30) && (Z.of_nat z =? hue_layer_of hue L)
                      then c else black)).
  { intros z Hz.
    destruct (filled_cells _ _ _ _ x y z F) as [C1 C2];
      [apply inside_true; simpl; lia|].
    simpl in C1, C2. unfold hue_occ, height_col, pixel in C1, C2.
    rewrite Eh in C1. rewrite Eh, Ec in C2.
    cbn [hue_gate fst] in C1, C2. auto. }
  split.
  - intros Hgate z Hz. destruct (C z Hz) as [C1 _]. rewrite C1.
    replace ((sat >? 30) && (val >? 30)) with false; [reflexivity|].
    symmetry. apply andb_false_iff.
    destruct Hgate; [left | right]; rewrite Z.gtb_ltb; apply Z.ltb_ge; lia.
  - intros [Hs Hv].
    assert (G : (sat >? 30) && (val >? 30) = true).
    { apply andb_true_iff. split; rewrite Z.gtb_ltb; apply Z.ltb_lt; lia. }
    rewrite G in C. cbn [andb] in C.
    split; [intros z Hz; apply C; exact Hz|].
    destruct (C (Z.to_nat (hue_layer_of hue L)) ltac:(lia)) as [C1 C2].
    rewrite Z2Nat.id, Z.eqb_refl in C1, C2 by lia. auto.
Qed.

Lemma C2_hue_layer_columns_witness :
  exists resized vg cs,
    cv2_resize (table_cv green_scene) green_image 1 1 = Ok resized /\
    _color_layered_voxels (table_cv green_scene) green_image 1 45 = Ok (vg, cs) /\
    shape vg = (Z.to_nat 1, Z.to_nat 1, Z.to_nat 45) /\
    shape cs = (Z.to_nat 1, Z.to_nat 1, Z.to_nat 45) /\
    forall x y, (x < Z.to_nat 1)%nat -> (y < Z.to_nat 1)%nat ->
      exists hue sat val c,
        getitem2 (cv2_RGB2HSV (table_cv green_scene) resized) (Z.of_nat y) (Z.of_nat x)
          = Ok (hue, sat, val) /\
        getitem2 resized (Z.of_nat y) (Z.of_nat x) = Ok c /\
        0 <= hue_layer_of hue 45 <= 45 - 1 /\
        (sat <= 30 \/ val <= 30 ->
           forall z, (z < Z.to_nat 45)%nat -> cell vg x y z = Some false) /\
        (30 < sat /\ 30 < val ->
           (forall z, (z < Z.to_nat 45)%nat ->
              cell vg x y z = Some (Z.of_nat z =? hue_layer_of hue 45)) /\
           cell vg x y (Z.to_nat (hue_layer_of hue 45)) = Some true /\
           cell cs x y (Z.to_nat (hue_layer_of hue 45)) = Some c).
Proof.
  apply (C2_hue_layer_columns (table_cv green_scene) green_image 1 45).
  - apply table_cv_ok.
  - apply valid_image_green.
  - lia.
  - lia.
Defined.

(** C2, as stated, fails: a pixel of hue 52, saturation 255 and value 255
    passes the gate; with [L = 45] the exact value of
    [floor((52/180) * 45)] is 13, but the double-precision product is just
    below 13 and the voxel is put in layer 12. *)
Lemma C2_exact_floor_counterexample :
  exists vg cs,
    _color_layered_voxels (table_cv green_scene) green_image 1 45 = Ok (vg, cs) /\
    pixel (A := hsv) (0, 0, 0) (cv2_RGB2HSV (table_cv green_scene) green_image) 0 0
      = (52, 255, 255) /\
    Spec.hue_layer 52 45 = 13 /\
    ~ cell vg 0 0 (Z.to_nat (Spec.hue_layer 52 45)) = Some true /\
    cell vg 0 0 12 = Some true.
Proof.
  eexists. eexists. split; [vm_compute; reflexivity|].
  split; [reflexivity|]. split; [reflexivity|].
  split; [vm_compute; discriminate | vm_compute; reflexivity].
Qed.

(** The edge picture at resolution 2 with [D = 2^24 + 4] layers: the depth
    of the white column is [D], one past the last layer. *)
Lemma edge_scene_overflow :
  cv2_resize (table_cv edge_scene) edge_image 2 2 = Ok edge_image /\
  np_max (dist_field (table_cv edge_scene) edge_image) = Ok 1%Q /\
  getitem2 (depth_map_of (dist_field (table_cv edge_scene) edge_image) 1 16777220) 0 1
    = Ok 16777220 /\
  _structure_based_voxels (table_cv edge_scene) edge_image 2 16777220
    = Raise IndexError.
Proof.
  assert (E1 : cv2_resize (table_cv edge_scene) edge_image 2 2 = Ok edge_image)
    by (vm_compute; reflexivity).
  assert (E2 : np_max (dist_field (table_cv edge_scene) edge_image) = Ok 1%Q)
    by (vm_compute; reflexivity).
  split; [exact E1|]. split; [exact E2|]. split; [vm_compute; reflexivity|].
  apply (structure_overflow (table_cv edge_scene) edge_image 2 16777220
           (table_cv_ok edge_scene) valid_image_edge ltac:(lia) edge_image 1%Q 1%nat 0%nat);
    [lia | exact E1 | exact E2 | simpl; lia | simpl; lia | |].
  - intros x y Hx Hy B.
    assert (Hx0 : x = 0%nat).
    { unfold visited_before in B. simpl in Hx.
      destruct x as [|[|x]]; [reflexivity | | lia].
      simpl in B. destruct y; discriminate. }
    subst x. simpl in Hy.
    destruct y as [|[|y]]; [| |lia]; exists 0; (split; [vm_compute; reflexivity | lia]).
  - exists 16777220. split; [vm_compute; reflexivity | lia].
Qed.

(** C3 (what the code does at the failing input).  On the 2 x 2 edge
    picture with [D = 2^24 + 4] layers the Structure-Depth strategy returns
    no grid.  The depth map is computed in single precision, where
    [D - 1 = 2^24 + 3] is not representable and rounds to [2^24 + 4 = D];
    the column at the largest distance then gets the depth [D] instead of
    [D - 1], the write [voxel_grid[x, y, D] = True] is refused, and the
    strategy ends in [IndexError]: no column of the claim is delivered. *)
Theorem C3_large_depth_raises :
  let D := 2 ^ 24 + 4 in
  cv2_resize (table_cv edge_scene) edge_image 2 2 = Ok edge_image /\
  np_max (dist_field (table_cv edge_scene) edge_image) = Ok 1%Q /\
  Float.of_int Float.binary32 (D - 1) = inject_Z D /\
  _structure_based_voxels (table_cv edge_scene) edge_image 2 D = Raise IndexError /\
  ~ exists vg cs,
      _structure_based_voxels (table_cv edge_scene) edge_image 2 D = Ok (vg, cs).
Proof.
  change (2 ^ 24 + 4) with 16777220. cbv zeta.
  destruct edge_scene_overflow as (E1 & E2 & _ & F).
  split; [exact E1|]. split; [exact E2|]. split; [vm_compute; reflexivity|].
  split; [exact F|].
  intros (vg & cs & E). congruence.
Qed.

(** C7 (as amended). For every valid image, [R > 0] and
    [0 < D <= 2^24], every occupied voxel [(x, y, z)] of the
    Structure-Depth strategy, over a pixel of color [(r, g, b)], stores per
    channel the truncation toward zero of the double-precision product of
    the channel and [1.0 - (z / D) * 0.5]; the stored channel is between
    [0] and the channel of the pixel, so the cast to 8 bits never wraps. *)
Theorem C7_darkened_colors cv image R D :
  OpenCV_ok cv -> valid_image image -> 0 < R -> 0 < D <= 2 ^ 24 ->
  exists resized vg cs,
    cv2_resize cv image R R = Ok resized /\
    _structure_based_voxels cv image R D = Ok (vg, cs) /\
    forall x y z, cell vg x y z = Some true ->
      exists r g b,
        getitem2 resized (Z.of_nat y) (Z.of_nat x) = Ok (r, g, b) /\
        let i := color_intensity_of (Z.of_nat z) D in
        let stored c := Float.trunc (Float.mul Float.binary64 (inject_Z c) i) in
        cell cs x y z = Some (stored r, stored g, stored b) /\
        0 <= stored r <= r /\ 0 <= stored g <= g /\ 0 <= stored b <= b /\
        r <= 255 /\ g <= 255 /\ b <= 255.
Proof.
  intros cv_ok image_ok HR HD.
  destruct (structure_run cv image R D cv_ok image_ok HR HD)
    as (resized & m & [vg cs] & Er & Sr & Ur & Em & Dm & Es & F).
  exists resized, vg, cs. split; [exact Er|]. split; [exact Es|].
  intros x y z Hc.
  pose proof F as (S1 & _ & _ & _ & _). simpl in S1.
  assert (I : inside (Z.to_nat R, Z.to_nat R, Z.to_nat D) x y z = true).
  { unfold cell in Hc. rewrite S1 in Hc.
    destruct (inside (Z.to_nat R, Z.to_nat R, Z.to_nat D) x y z);
      [reflexivity | discriminate]. }
  pose proof I as I'. apply inside_true in I'. simpl in I'. destruct I' as (Hx & Hy & Hz).
  destruct (filled_cells _ _ _ _ x y z F I) as [C1 C2]. simpl in C1, C2.
  rewrite Hc in C1. injection C1 as C1. rewrite <- C1 in C2.
  destruct (getitem2_shape _ _ _ y x Sr Hy Hx) as ([[r g] b] & Ec).
  pose proof (getitem2_all2 _ _ _ _ _ Ur Ec) as (Ur' & Ug' & Ub').
  exists r, g, b. split; [exact Ec|].
  unfold structure_col, pixel in C2. rewrite Ec in C2. cbn [darken] in C2.
  pose proof (color_intensity_bounds (Z.of_nat z) D ltac:(lia)) as Hi.
  destruct (darken_channel_bounds r _ Ur' Hi) as [Er1 Er2].
  destruct (darken_channel_bounds g _ Ug' Hi) as [Eg1 Eg2].
  destruct (darken_channel_bounds b _ Ub' Hi) as [Eb1 Eb2].
  cbv zeta beta. rewrite <- Er1, <- Eg1, <- Eb1.
  unfold uint8 in *. repeat split; try assumption; lia.
Qed.

Lemma C7_darkened_colors_witness :
  exists resized vg cs,
    cv2_resize (table_cv edge_scene) edge_image 2 2 = Ok resized /\
    _structure_based_voxels (table_cv edge_scene) edge_image 2 24 = Ok (vg, cs) /\
    forall x y z, cell vg x y z = Some true ->
      exists r g b,
        getitem2 resized (Z.of_nat y) (Z.of_nat x) = Ok (r, g, b) /\
        let i := color_intensity_of (Z.of_nat z) 24 in
        let stored c := Float.trunc (Float.mul Float.binary64 (inject_Z c) i) in
        cell cs x y z = Some (stored r, stored g, stored b) /\
        0 <= stored r <= r /\ 0 <= stored g <= g /\ 0 <= stored b <= b /\
        r <= 255 /\ g <= 255 /\ b <= 255.
Proof.
  apply (C7_darkened_colors (table_cv edge_scene) edge_image 2 24).
  - apply table_cv_ok.
  - apply valid_image_edge.
  - lia.
  - split; [lia | discriminate].
Defined.

(** C7, as stated, fails: the code truncates where the claim rounds.  On
    the white column of the edge picture, with [D = 24], the voxel at
    [z = 1] is occupied and [255 * (1 - (1/24) * 0.5) = 249.6875]: the
    stored channel is 249, the rounded one is 250. *)
Lemma C7_rounding_counterexample :
  exists vg cs,
    _structure_based_voxels (table_cv edge_scene) edge_image 2 24 = Ok (vg, cs) /\
    cell vg 1 0 1 = Some true /\
    getitem2 edge_image 0 1 = Ok (255, 255, 255) /\
    cell cs 1 0 1 = Some (249, 249, 249) /\
    Spec.darkened_channel 255 1 24 = 250.
Proof.
  eexists. eexists. split; [vm_compute; reflexivity|].
  repeat split; vm_compute; reflexivity.
Qed.

(** C9. Whatever the image and the parameters, in the grids a strategy
    returns the color of every cell that is not occupied is [(0, 0, 0)]. *)
Theorem C9_unoccupied_cells_are_black cv image R depth vg cs :
  _height_based_voxels cv image R depth = Ok (vg, cs) \/
  _color_layered_voxels cv image R depth = Ok (vg, cs) \/
  _structure_based_voxels cv image R depth = Ok (vg, cs) ->
  shape cs = shape vg /\
  forall x y z, cell vg x y z = Some false -> cell cs x y z = Some (0, 0, 0).
Proof.
  intros H.
  assert (P : paired (vg, cs)).
  { destruct H as [H|[H|H]];
      [eapply height_paired | eapply hue_paired | eapply structure_paired]; eauto. }
  destruct P as (Sh & _ & _ & P). simpl in Sh, P. split; [exact Sh | exact P].
Qed.

Lemma C9_unoccupied_cells_are_black_witness :
  exists vg cs,
    _height_based_voxels (table_cv gray_scene) gray_image 1 4 = Ok (vg, cs) /\
    cell vg 0 0 3 = Some false /\
    shape cs = shape vg /\
    forall x y z, cell vg x y z = Some false -> cell cs x y z = Some (0, 0, 0).
Proof.
  eexists. eexists. split; [vm_compute; reflexivity|].
  split; [vm_compute; reflexivity|].
  apply (C9_unoccupied_cells_are_black (table_cv gray_scene) gray_image 1 4).
  left. vm_compute. reflexivity.
Defined.

(** C10 (what the code does at the failing input).  On the 2 x 2 edge
    picture with [D = 2^24 + 4] layers the depth of the column at the
    largest distance is [D], which exceeds [D - 1]: the loop
    [for z in range(max_depth + 1)] reaches [z = D], and the write
    [voxel_grid[1, 0, D] = True] into a grid of shape [(2, 2, D)] is out of
    bounds and raises [IndexError].  The scaling by [depth_levels - 1] is
    meant to keep the depth below [D] but is rounded in single precision,
    and unlike the hue layer the depth is not clamped. *)
Theorem C10_write_past_last_layer :
  let D := 2 ^ 24 + 4 in
  exists k,
    getitem2 (depth_map_of (dist_field (table_cv edge_scene) edge_image) 1 D) 0 1
      = Ok k /\
    k = D /\ D - 1 < k /\
    (forall g : ndarray bool,
       shape g = (2, 2, Z.to_nat D)%nat -> setitem g 1 0 k true = Raise IndexError) /\
    _structure_based_voxels (table_cv edge_scene) edge_image 2 D = Raise IndexError.
Proof.
  change (2 ^ 24 + 4) with 16777220. cbv zeta.
  destruct edge_scene_overflow as (_ & _ & Ek & F).
  exists 16777220. split; [exact Ek|]. split; [reflexivity|]. split; [lia|].
  split; [|exact F].
  intros g Hg.
  apply (setitem_past_end g 1 0 16777220 true); rewrite Hg; cbn [fst snd]; lia.
Qed.



(** C4. For a strategy result (two well-formed grids of one shape) and a
    path ending in [.npz] whose directory can be created, [save_voxels]
    hands one payload to [np.savez_compressed]: as many coordinates, and as
    many colors, as there are occupied voxels; the color at each rank is
    the one stored at the coordinate of that rank; the coordinates are in
    strictly ascending flattened-index order, hence without repetition;
    the declared shape is the shape of the occupancy grid; and setting the
    listed coordinates in an all-false grid of the declared shape gives the
    occupancy grid back. *)
Theorem C4_sparse_payload voxel_data output_path w :
  wf (voxels voxel_data) -> wf (colors voxel_data) ->
  shape (colors voxel_data) = shape (voxels voxel_data) ->
  endswith output_path ".npz" = true ->
  makedirs w output_path = Ok tt ->
  exists p,
    save_voxels voxel_data output_path w =
      ({| files := files w; makedirs := makedirs w;
          log := log w ++ [ev_makedirs output_path; ev_savez output_path p;
                           ev_print_saved output_path] |}, Ok tt) /\
    Z.of_nat (length (positions p)) = np_sum (voxels voxel_data) /\
    length (npz_colors p) = length (positions p) /\
    (forall k c, nth_error (positions p) k = Some c ->
       exists v, nth_error (npz_colors p) k = Some v /\
                 getitem3 (colors voxel_data) c = Ok v) /\
    StronglySorted lt (map (Spec.flat_index p) (positions p)) /\
    NoDup (positions p) /\
    grid_shape p = shape (voxels voxel_data) /\
    Spec.dense_of_payload p = voxels voxel_data.
Proof.
  intros W1 W2 Sh Hnpz Hmk.
  destruct (encode_npz_ok voxel_data W1 W2 Sh)
    as (p & Ep & _ & Eg & _ & Ec & El & En & Es & Ed & Er).
  exists p. split; [|auto 10].
  destruct w as [fs mk lg]. cbn [files makedirs log] in *.
  unfold save_voxels. rewrite Hnpz.
  cbv beta iota zeta delta [io_bind emit io_lift io_ret files makedirs log].
  rewrite Hmk, Ep. rewrite <- !app_assoc. reflexivity.
Qed.

Lemma C4_sparse_payload_witness :
  exists p,
    save_voxels tiny_result "out/height_voxels.npz" (one_file "photo.png" gray_image []) =
      ({| files := files (one_file "photo.png" gray_image []);
          makedirs := makedirs (one_file "photo.png" gray_image []);
          log := log (one_file "photo.png" gray_image [])
                 ++ [ev_makedirs "out/height_voxels.npz";
                     ev_savez "out/height_voxels.npz" p;
                     ev_print_saved "out/height_voxels.npz"] |}, Ok tt) /\
    Z.of_nat (length (positions p)) = np_sum (voxels tiny_result) /\
    length (npz_colors p) = length (positions p) /\
    (forall k c, nth_error (positions p) k = Some c ->
       exists v, nth_error (npz_colors p) k = Some v /\
                 getitem3 (colors tiny_result) c = Ok v) /\
    StronglySorted lt (map (Spec.flat_index p) (positions p)) /\
    NoDup (positions p) /\
    grid_shape p = shape (voxels tiny_result) /\
    Spec.dense_of_payload p = voxels tiny_result.
Proof.
  apply (C4_sparse_payload tiny_result "out/height_voxels.npz"
           (one_file "photo.png" gray_image [])); reflexivity.
Defined.

(** C5 (what the code does at the failing input). With a selector outside
    [height], [color], [structure] and [all], and an image that exists,
    [convert_image] checks the path, reads and converts the image, prints
    its size and enters the loop; only then does it fail, with
    [UnboundLocalError] on the local [voxels].  Nothing rejects the
    selector beforehand. *)
Theorem C5_unknown_method_fails_late cv path method kwargs w img :
  ~ In method supported_methods ->
  files w path = Some (Some img) ->
  snd (convert_image cv path method kwargs w) = Raise UnboundLocalError /\
  exists width height,
    log (fst (convert_image cv path method kwargs w)) =
    log w ++ [ev_exists path; ev_imread path; ev_print_processing width height;
              ev_print_running method].
Proof.
  intros Hm Hf. rewrite (convert_image_unknown_method cv path method kwargs w img Hm Hf).
  split; [reflexivity|]. eexists. eexists. reflexivity.
Qed.

Lemma C5_unknown_method_fails_late_witness :
  snd (convert_image (table_cv gray_scene) "photo.png" "cubes" []
         (one_file "photo.png" gray_image []))
    = Raise UnboundLocalError /\
  exists width height,
    log (fst (convert_image (table_cv gray_scene) "photo.png" "cubes" []
                (one_file "photo.png" gray_image []))) =
    log (one_file "photo.png" gray_image [])
    ++ [ev_exists "photo.png"; ev_imread "photo.png"; ev_print_processing width height;
        ev_print_running "cubes"].
Proof.
  apply (C5_unknown_method_fails_late (table_cv gray_scene) "photo.png" "cubes" []
           (one_file "photo.png" gray_image []) gray_image).
  - simpl. intros [H|[H|[H|[H|[]]]]]; discriminate.
  - reflexivity.
Defined.

(* ================================================================== *)
(** * Further properties of the module *)

Import FloatOrder StrategyOrder OrchestratorFacts.

(** ** [convert_image] *)

(** X1. A path with no file is reported first: whatever the selector and
    the parameters, [convert_image] raises [FileNotFoundError] after the
    existence check alone; the image is not read and no strategy starts. *)
Theorem convert_image_missing_file_first cv path method kwargs w :
  files w path = None ->
  convert_image cv path method kwargs w =
  (logged w [ev_exists path], Raise FileNotFoundError).
Proof. apply convert_image_no_file. Qed.

Lemma convert_image_missing_file_first_witness :
  convert_image (table_cv gray_scene) "nowhere.png" "cubes" []
    (one_file "photo.png" gray_image []) =
  (logged (one_file "photo.png" gray_image []) [ev_exists "nowhere.png"],
   Raise FileNotFoundError).
Proof.
  apply (convert_image_missing_file_first (table_cv gray_scene) "nowhere.png" "cubes" []
           (one_file "photo.png" gray_image [])).
  reflexivity.
Defined.

(** X2. A file that [cv2.imread] cannot decode makes [convert_image] fail
    with the OpenCV error of the color conversion, right after the read:
    no strategy starts, whatever the selector. *)
Theorem convert_image_undecodable_file cv path method kwargs w :
  files w path = Some None ->
  convert_image cv path method kwargs w =
  (logged w [ev_exists path; ev_imread path], Raise cv2_error).
Proof. apply convert_image_not_an_image. Qed.

Lemma convert_image_undecodable_file_witness :
  convert_image (table_cv gray_scene) "notes.txt" "all" [] (broken_file "notes.txt") =
  (logged (broken_file "notes.txt") [ev_exists "notes.txt"; ev_imread "notes.txt"],
   Raise cv2_error).
Proof.
  apply (convert_image_undecodable_file (table_cv gray_scene) "notes.txt" "all" []
           (broken_file "notes.txt")).
  reflexivity.
Defined.

(** X3. With the selector [all], [convert_image] runs the height, color
    and structure strategies in that order on the RGB image and stops at
    the first one that raises: the result is the dictionary of the three
    entries, in that order, exactly when all three return, and otherwise
    the exception of the first failure, the results obtained so far being
    dropped.  All three read the same [voxel_resolution] keyword. *)
Theorem convert_image_all_is_fail_fast cv path kwargs w img :
  files w path = Some (Some img) ->
  let img_rgb := map2 (fun '(b, g, r) => (r, g, b)) img in
  snd (convert_image cv path "all" kwargs w) =
  (s1 <- call_height cv img_rgb kwargs ;;
   s2 <- call_color cv img_rgb kwargs ;;
   s3 <- call_structure cv img_rgb kwargs ;;
   Ok [("height"%string, entry_of "height" s1);
       ("color"%string, entry_of "color" s2);
       ("structure"%string, entry_of "structure" s3)]).
Proof.
  intros Hf img_rgb. rewrite (convert_image_all cv path kwargs w img Hf). cbv zeta.
  fold img_rgb.
  destruct (call_height cv img_rgb kwargs); [|reflexivity]. cbn [bind].
  destruct (call_color cv img_rgb kwargs); [|reflexivity]. cbn [bind].
  destruct (call_structure cv img_rgb kwargs); reflexivity.
Qed.

Lemma convert_image_all_is_fail_fast_witness :
  let img_rgb := map2 (fun '(b, g, r) => (r, g, b)) gray_image in
  snd (convert_image (table_cv gray_scene) "photo.png" "all"
         [("voxel_resolution"%string, 0)] (one_file "photo.png" gray_image [])) =
  (s1 <- call_height (table_cv gray_scene) img_rgb [("voxel_resolution"%string, 0)] ;;
   s2 <- call_color (table_cv gray_scene) img_rgb [("voxel_resolution"%string, 0)] ;;
   s3 <- call_structure (table_cv gray_scene) img_rgb [("voxel_resolution"%string, 0)] ;;
   Ok [("height"%string, entry_of "height" s1);
       ("color"%string, entry_of "color" s2);
       ("structure"%string, entry_of "structure" s3)]).
Proof.
  apply (convert_image_all_is_fail_fast (table_cv gray_scene) "photo.png"
           [("voxel_resolution"%string, 0)] (one_file "photo.png" gray_image [])
           gray_image).
  reflexivity.
Defined.

(** X4. When a strategy raises under [all], the strategies after it are
    never started: the log ends with the announcement of the failing one. *)
Theorem convert_image_all_stops_at_failure cv path kwargs w img e :
  files w path = Some (Some img) ->
  let img_rgb := map2 (fun '(b, g, r) => (r, g, b)) img in
  call_height cv img_rgb kwargs = Raise e ->
  convert_image cv path "all" kwargs w =
  (logged w [ev_exists path; ev_imread path;
             ev_print_processing (length (hd [] img_rgb)) (length img_rgb);
             ev_print_running "height"],
   Raise e).
Proof.
  intros Hf img_rgb He. rewrite (convert_image_all cv path kwargs w img Hf). cbv zeta.
  fold img_rgb. rewrite He. reflexivity.
Qed.

Lemma convert_image_all_stops_at_failure_witness :
  let img_rgb := map2 (fun '(b, g, r) => (r, g, b)) gray_image in
  convert_image (table_cv gray_scene) "photo.png" "all"
    [("voxel_resolution"%string, 0)] (one_file "photo.png" gray_image []) =
  (logged (one_file "photo.png" gray_image [])
     [ev_exists "photo.png"; ev_imread "photo.png";
      ev_print_processing (length (hd [] img_rgb)) (length img_rgb);
      ev_print_running "height"],
   Raise cv2_error).
Proof.
  apply (convert_image_all_stops_at_failure (table_cv gray_scene) "photo.png"
           [("voxel_resolution"%string, 0)] (one_file "photo.png" gray_image [])
           gray_image cv2_error); reflexivity.
Defined.

(** X5. With one of the selectors [height], [color] and [structure],
    [convert_image] calls that strategy alone, with its own keywords and
    defaults, and returns a dictionary with that single entry, whose count
    is the number of occupied voxels of its grid; the exception of the
    strategy is passed on unchanged. *)
Theorem convert_image_single_method cv path kwargs w img :
  files w path = Some (Some img) ->
  let img_rgb := map2 (fun '(b, g, r) => (r, g, b)) img in
  snd (convert_image cv path "height" kwargs w) =
    (s <- call_height cv img_rgb kwargs ;; Ok [("height"%string, entry_of "height" s)]) /\
  snd (convert_image cv path "color" kwargs w) =
    (s <- call_color cv img_rgb kwargs ;; Ok [("color"%string, entry_of "color" s)]) /\
  snd (convert_image cv path "structure" kwargs w) =
    (s <- call_structure cv img_rgb kwargs ;;
     Ok [("structure"%string, entry_of "structure" s)]).
Proof.
  intros Hf img_rgb.
  rewrite (convert_image_single cv path "height" kwargs w img call_height Hf)
    by (left; auto).
  rewrite (convert_image_single cv path "color" kwargs w img call_color Hf)
    by (right; left; auto).
  rewrite (convert_image_single cv path "structure" kwargs w img call_structure Hf)
    by (right; right; auto).
  cbv zeta. fold img_rgb.
  destruct (call_height cv img_rgb kwargs), (call_color cv img_rgb kwargs),
    (call_structure cv img_rgb kwargs); auto.
Qed.

Lemma convert_image_single_method_witness :
  let cv := table_cv gray_scene in
  let kwargs := [("max_height"%string, 4); ("voxel_resolution"%string, 1)] in
  let w := one_file "photo.png" gray_image [] in
  let img_rgb := map2 (fun '(b, g, r) => (r, g, b)) gray_image in
  snd (convert_image cv "photo.png" "height" kwargs w) =
    (s <- call_height cv img_rgb kwargs ;; Ok [("height"%string, entry_of "height" s)]) /\
  snd (convert_image cv "photo.png" "color" kwargs w) =
    (s <- call_color cv img_rgb kwargs ;; Ok [("color"%string, entry_of "color" s)]) /\
  snd (convert_image cv "photo.png" "structure" kwargs w) =
    (s <- call_structure cv img_rgb kwargs ;;
     Ok [("structure"%string, entry_of "structure" s)]).
Proof.
  apply (convert_image_single_method (table_cv gray_scene) "photo.png"
           [("max_height"%string, 4); ("voxel_resolution"%string, 1)]
           (one_file "photo.png" gray_image []) gray_image).
  reflexivity.
Defined.

(** X6. [convert_image] never touches the files or the directories: all
    it leaves behind, on success and on failure, is the record of what it
    probed and printed, appended to the log; it creates no directory and
    saves nothing. *)
Theorem convert_image_only_appends_to_log cv path method kwargs w :
  exists evs,
    fst (convert_image cv path method kwargs w) = logged w evs /\
    files (fst (convert_image cv path method kwargs w)) = files w /\
    makedirs (fst (convert_image cv path method kwargs w)) = makedirs w /\
    (forall out, ~ In (ev_makedirs out) evs) /\
    (forall out p, ~ In (ev_savez out p) evs).
Proof.
  destruct (emits_convert_image cv path method kwargs w) as (evs & E & F).
  exists evs. rewrite E. cbn [logged files makedirs]. rewrite Forall_forall in F.
  repeat split; intros; intros Hin; exact (F _ Hin).
Qed.

(** X7. Whatever [convert_image] returns can be saved: every entry of the
    dictionary carries the name of its method, two grids of one shape, and
    a count equal to the number of occupied voxels; its payload can be
    built (no index is out of range) and lists exactly [count]
    coordinates. *)
Theorem convert_image_entries_can_be_saved cv path selector kwargs w results :
  snd (convert_image cv path selector kwargs w) = Ok results ->
  forall m r, In (m, r) results ->
    method r = m /\
    count r = np_sum (voxels r) /\
    shape (colors r) = shape (voxels r) /\
    exists p, encode_npz r = Ok p /\
              Z.of_nat (length (positions p)) = count r /\
              length (npz_colors p) = length (positions p).
Proof.
  intros E m r Hin.
  destruct (convert_image cv path selector kwargs w) as [w' res] eqn:Ew.
  simpl in E. subst res.
  pose proof (convert_image_entries cv path selector kwargs w w' results Ew) as F.
  rewrite Forall_forall in F. specialize (F _ Hin).
  destruct F as (Hm & Hc & (Sh & W1 & W2 & _) & _). cbn [fst snd] in Sh, W1, W2.
  destruct (encode_npz_ok r W1 W2 Sh) as (p & Ep & _ & _ & _ & Ec & El & _).
  split; [exact Hm|]. split; [exact Hc|]. split; [exact Sh|].
  exists p. rewrite Hc. auto.
Qed.

Lemma convert_image_entries_can_be_saved_witness :
  exists results,
    snd (convert_image (table_cv edge_scene) "photo.png" "all"
           [("voxel_resolution"%string, 2); ("max_height"%string, 3);
            ("layers"%string, 2); ("depth_levels"%string, 2)]
           (one_file "photo.png" edge_image [])) = Ok results /\
    length results = 3%nat /\
    forall m r, In (m, r) results ->
      method r = m /\
      count r = np_sum (voxels r) /\
      shape (colors r) = shape (voxels r) /\
      exists p, encode_npz r = Ok p /\
                Z.of_nat (length (positions p)) = count r /\
                length (npz_colors p) = length (positions p).
Proof.
  eexists. split; [vm_compute; reflexivity|]. split; [reflexivity|].
  apply (convert_image_entries_can_be_saved (table_cv edge_scene) "photo.png" "all"
           [("voxel_resolution"%string, 2); ("max_height"%string, 3);
            ("layers"%string, 2); ("depth_levels"%string, 2)]
           (one_file "photo.png" edge_image [])).
  vm_compute. reflexivity.
Defined.

(** ** [save_voxels] *)

(** X8. When the directory of the output path cannot be created,
    [save_voxels] passes the exception on before looking at the extension:
    no payload is built, nothing is saved and nothing is printed. *)
Theorem save_voxels_directory_failure voxel_data output_path w e :
  makedirs w output_path = Raise e ->
  save_voxels voxel_data output_path w =
  (logged w [ev_makedirs output_path], Raise e).
Proof. intros H. rewrite save_voxels_run, H. reflexivity. Qed.

Lemma save_voxels_directory_failure_witness :
  save_voxels tiny_result "out/v.npz" read_only_disk =
  (logged read_only_disk [ev_makedirs "out/v.npz"], Raise FileNotFoundError).
Proof.
  apply (save_voxels_directory_failure tiny_result "out/v.npz" read_only_disk
           FileNotFoundError).
  reflexivity.
Defined.

(** X9. A path ending in [.bin] always fails: the class has no
    [_save_binary_format], so after creating the directory [save_voxels]
    raises [AttributeError]; nothing is saved and nothing is printed. *)
Theorem save_voxels_bin_is_attribute_error voxel_data output_path w :
  makedirs w output_path = Ok tt ->
  endswith output_path ".bin" = true ->
  save_voxels voxel_data output_path w =
  (logged w [ev_makedirs output_path], Raise AttributeError).
Proof.
  intros Hm Hb. rewrite save_voxels_run, Hm.
  assert (N : endswith output_path ".npz" = false).
  { destruct (endswith output_path ".npz") eqn:E; [|reflexivity].
    unfold endswith in E, Hb. apply andb_true_iff in E, Hb.
    destruct E as [_ E], Hb as [_ Hb].
    apply String.eqb_eq in E, Hb.
    change (String.length ".npz") with 4%nat in E.
    change (String.length ".bin") with 4%nat in Hb.
    rewrite E in Hb. discriminate. }
  rewrite N, Hb. reflexivity.
Qed.

Lemma save_voxels_bin_is_attribute_error_witness :
  save_voxels tiny_result "out/v.bin" (one_file "photo.png" gray_image []) =
  (logged (one_file "photo.png" gray_image []) [ev_makedirs "out/v.bin"],
   Raise AttributeError).
Proof.
  apply (save_voxels_bin_is_attribute_error tiny_result "out/v.bin"
           (one_file "photo.png" gray_image [])); reflexivity.
Defined.

(** X10. A path with any other extension is accepted silently:
    [save_voxels] creates the directory, saves nothing, and still prints
    that the data was saved and returns normally. *)
Theorem save_voxels_other_extension_saves_nothing voxel_data output_path w :
  makedirs w output_path = Ok tt ->
  endswith output_path ".npz" = false ->
  endswith output_path ".bin" = false ->
  save_voxels voxel_data output_path w =
  (logged w [ev_makedirs output_path; ev_print_saved output_path], Ok tt).
Proof.
  intros Hm Hn Hb. rewrite save_voxels_run, Hm, Hn, Hb. reflexivity.
Qed.

Lemma save_voxels_other_extension_saves_nothing_witness :
  save_voxels tiny_result "out/v.ply" (one_file "photo.png" gray_image []) =
  (logged (one_file "photo.png" gray_image [])
     [ev_makedirs "out/v.ply"; ev_print_saved "out/v.ply"], Ok tt).
Proof.
  apply (save_voxels_other_extension_saves_nothing tiny_result "out/v.ply"
           (one_file "photo.png" gray_image [])); reflexivity.
Defined.

(** ** The strategies: order *)

(** X11. In the Height strategy a brighter pixel never gets a shorter
    column: every cell occupied over a pixel is occupied over every pixel
    at least as bright.  A black pixel (gray 0) gets an empty column and a
    white one (gray 255) a full column of [H] voxels. *)
Theorem height_brighter_pixels_get_taller_columns cv image R H :
  OpenCV_ok cv -> valid_image image -> 0 < R -> 0 < H < 2 ^ 53 ->
  exists resized vg cs,
    cv2_resize cv image R R = Ok resized /\
    _height_based_voxels cv image R H = Ok (vg, cs) /\
    let gray x y := pixel 0 (cv2_RGB2GRAY cv resized) x y in
    forall x y, (x < Z.to_nat R)%nat -> (y < Z.to_nat R)%nat ->
      (forall x' y', (x' < Z.to_nat R)%nat -> (y' < Z.to_nat R)%nat ->
         gray x y <= gray x' y' ->
         forall z, cell vg x y z = Some true -> cell vg x' y' z = Some true) /\
      (gray x y = 0 ->
         forall z, (z < Z.to_nat H)%nat -> cell vg x y z = Some false) /\
      (gray x y = 255 ->
         forall z, (z < Z.to_nat H)%nat -> cell vg x y z = Some true).
Proof.
  intros cv_ok image_ok HR HH.
  destruct (height_run cv image R H cv_ok image_ok HR ltac:(lia))
    as (resized & [vg cs] & Er & Sr & Es & F).
  exists resized, vg, cs. split; [exact Er|]. split; [exact Es|].
  intros gray x y Hx Hy.
  pose proof (gray_shape cv cv_ok resized _ _ Sr) as Sg.
  assert (G : forall x y, (x < Z.to_nat R)%nat -> (y < Z.to_nat R)%nat ->
                uint8 (gray x y)).
  { intros a b Ha Hb. destruct (getitem2_shape _ _ _ b a Sg Hb Ha) as (g & Eg).
    unfold gray. rewrite (pixel_ok _ _ _ _ _ Eg).
    exact (getitem2_all2 _ _ _ _ _ (gray_range cv cv_ok resized) Eg). }
  assert (C : forall x y z, (x < Z.to_nat R)%nat -> (y < Z.to_nat R)%nat ->
                (z < Z.to_nat H)%nat ->
                cell vg x y z = Some (Z.of_nat z <? height_of (gray x y) H)).
  { intros a b z Ha Hb Hz.
    apply (filled_cell _ _ _ vg cs a b z F). apply inside_true. simpl. lia. }
  split; [|split].
  - intros x' y' Hx' Hy' Hg z Hc.
    destruct (filled_occupied _ _ _ _ _ x y z F Hc) as (I & O & _).
    apply inside_true in I. simpl in I.
    rewrite (C x' y' z) by lia. f_equal.
    unfold height_occ in O. fold (gray x y) in O.
    apply Z.ltb_lt in O. apply Z.ltb_lt.
    pose proof (G x y Hx Hy) as U. unfold uint8 in U.
    pose proof (height_of_mono (gray x y) (gray x' y') H H ltac:(lia) ltac:(lia)). lia.
  - intros E z Hz. rewrite (C x y z) by lia. rewrite E, height_of_black.
    f_equal. apply Z.ltb_ge. lia.
  - intros E z Hz. rewrite (C x y z) by lia. rewrite E, height_of_white by lia.
    f_equal. apply Z.ltb_lt. lia.
Qed.

Lemma height_brighter_pixels_get_taller_columns_witness :
  exists resized vg cs,
    cv2_resize (table_cv edge_scene) edge_image 2 2 = Ok resized /\
    _height_based_voxels (table_cv edge_scene) edge_image 2 5 = Ok (vg, cs) /\
    let gray x y := pixel 0 (cv2_RGB2GRAY (table_cv edge_scene) resized) x y in
    forall x y, (x < Z.to_nat 2)%nat -> (y < Z.to_nat 2)%nat ->
      (forall x' y', (x' < Z.to_nat 2)%nat -> (y' < Z.to_nat 2)%nat ->
         gray x y <= gray x' y' ->
         forall z, cell vg x y z = Some true -> cell vg x' y' z = Some true) /\
      (gray x y = 0 ->
         forall z, (z < Z.to_nat 5)%nat -> cell vg x y z = Some false) /\
      (gray x y = 255 ->
         forall z, (z < Z.to_nat 5)%nat -> cell vg x y z = Some true).
Proof.
  apply (height_brighter_pixels_get_taller_columns (table_cv edge_scene) edge_image 2 5).
  - apply table_cv_ok.
  - apply valid_image_edge.
  - lia.
  - split; [lia | reflexivity].
Defined.

(** X12. In the Hue-Layer strategy the layers follow the order of the
    hues: of two pixels that pass the gate, the one with the larger hue is
    never placed in a lower layer. *)
Theorem hue_layers_follow_hue_order cv image R L :
  OpenCV_ok cv -> valid_image image -> 0 < R -> 0 < L ->
  exists resized vg cs,
    cv2_resize cv image R R = Ok resized /\
    _color_layered_voxels cv image R L = Ok (vg, cs) /\
    let hue x y := fst (fst (pixel (A := hsv) (0, 0, 0) (cv2_RGB2HSV cv resized) x y)) in
    forall x y z x' y' z',
      cell vg x y z = Some true -> cell vg x' y' z' = Some true ->
      hue x y <= hue x' y' -> (z <= z')%nat.
Proof.
  intros cv_ok image_ok HR HL.
  destruct (hue_run cv image R L cv_ok image_ok HR HL)
    as (resized & [vg cs] & Er & Sr & Es & F).
  exists resized, vg, cs. split; [exact Er|]. split; [exact Es|].
  intros hue x y z x' y' z' Hc Hc' Hh.
  destruct (filled_occupied _ _ _ _ _ x y z F Hc) as (I & O & _).
  destruct (filled_occupied _ _ _ _ _ x' y' z' F Hc') as (I' & O' & _).
  apply inside_true in I, I'. simpl in I, I'.
  unfold hue_occ in O, O'. cbv zeta in O, O'.
  apply andb_true_iff in O, O'. destruct O as [_ O], O' as [_ O'].
  apply Z.eqb_eq in O, O'. fold (hue x y) in O. fold (hue x' y') in O'.
  pose proof (hsv_shape cv cv_ok resized _ _ Sr) as Sh.
  destruct (getitem2_shape _ _ _ y x Sh ltac:(lia) ltac:(lia)) as (px & Ep).
  assert (U : 0 <= hue x y).
  { unfold hue. rewrite (pixel_ok _ _ _ _ _ Ep).
    pose proof (getitem2_all2 _ _ _ _ _ (hsv_range cv cv_ok resized) Ep) as Hu.
    destruct px as [[h s] v]. destruct Hu as [Hu _]. unfold uint8 in Hu. simpl. lia. }
  pose proof (hue_layer_of_mono (hue x y) (hue x' y') L ltac:(lia) ltac:(lia)). lia.
Qed.

Lemma hue_layers_follow_hue_order_witness :
  exists resized vg cs,
    cv2_resize (table_cv two_hue_scene) two_hue_image 2 2 = Ok resized /\
    _color_layered_voxels (table_cv two_hue_scene) two_hue_image 2 16 = Ok (vg, cs) /\
    (cell vg 0 0 0 = Some true /\ cell vg 1 0 10 = Some true /\
     cell vg 0 1 0 = Some true /\ cell vg 1 1 10 = Some true) /\
    let hue x y :=
      fst (fst (pixel (A := hsv) (0, 0, 0)
                  (cv2_RGB2HSV (table_cv two_hue_scene) resized) x y)) in
    (hue 0%nat 0%nat = 0 /\ hue 1%nat 0%nat = 120) /\
    forall x y z x' y' z',
      cell vg x y z = Some true -> cell vg x' y' z' = Some true ->
      hue x y <= hue x' y' -> (z <= z')%nat.
Proof.
  destruct (hue_layers_follow_hue_order (table_cv two_hue_scene) two_hue_image 2 16
              (table_cv_ok two_hue_scene) valid_image_two_hue eq_refl eq_refl)
    as (resized & vg & cs & Er & Es & Ord).
  exists resized, vg, cs. split; [exact Er|]. split; [exact Es|].
  vm_compute in Er. injection Er as <-.
  vm_compute in Es. injection Es as <- <-.
  split; [repeat split; reflexivity|].
  split; [split; reflexivity | exact Ord].
Defined.

(** X13. In the Structure-Depth strategy ([0 < D <= 2^24]) the depth
    follows the distance to the nearest edge: every cell occupied over a
    pixel is occupied over every pixel at least as far from the edges.  A
    pixel on an edge (distance 0) gets the single voxel [z = 0]; when the
    distance field is not flat, a pixel at the largest distance gets a
    full column of [D] voxels. *)
Theorem structure_depth_follows_distance cv image R D :
  OpenCV_ok cv -> valid_image image -> 0 < R -> 0 < D <= 2 ^ 24 ->
  exists resized max_dist vg cs,
    cv2_resize cv image R R = Ok resized /\
    np_max (dist_field cv resized) = Ok max_dist /\
    _structure_based_voxels cv image R D = Ok (vg, cs) /\
    let dist x y := pixel 0%Q (dist_field cv resized) x y in
    forall x y, (x < Z.to_nat R)%nat -> (y < Z.to_nat R)%nat ->
      (forall x' y', (x' < Z.to_nat R)%nat -> (y' < Z.to_nat R)%nat ->
         (dist x y <= dist x' y')%Q ->
         forall z, cell vg x y z = Some true -> cell vg x' y' z = Some true) /\
      ((dist x y == 0)%Q ->
         forall z, (z < Z.to_nat D)%nat -> cell vg x y z = Some (z =? 0)%nat) /\
      ((0 < max_dist)%Q -> (max_dist <= dist x y)%Q ->
         forall z, (z < Z.to_nat D)%nat -> cell vg x y z = Some true).
Proof.
  intros cv_ok image_ok HR HD.
  destruct (structure_setup cv image R D cv_ok image_ok HR ltac:(lia))
    as (resized & m & _ & _ & Er & Sr & Ur & Sd & Nd & Em & Um & _ & _).
  destruct (structure_run cv image R D cv_ok image_ok HR HD)
    as (resized' & m' & [vg cs] & Er' & _ & _ & Em' & _ & Es & F).
  assert (resized' = resized) by congruence. subst resized'.
  assert (m' = m) by congruence. subst m'.
  exists resized, m, vg, cs.
  split; [exact Er|]. split; [exact Em|]. split; [exact Es|].
  intros dist x y Hx Hy.
  set (depth x y := if positive_float m then depth_of (dist x y) m D else 0).
  assert (P : forall a b, (a < Z.to_nat R)%nat -> (b < Z.to_nat R)%nat ->
                (0 <= dist a b)%Q /\ (dist a b <= m)%Q /\
                pixel 0 (depth_map_of (dist_field cv resized) m D) a b = depth a b).
  { intros a b Ha Hb. destruct (getitem2_shape _ _ _ b a Sd Hb Ha) as (d & Ed).
    unfold depth, dist. rewrite (pixel_ok _ _ _ _ _ Ed).
    split; [exact (getitem2_all2 _ _ _ _ _ Nd Ed)|]. split; [exact (Um _ _ _ Ed)|].
    apply pixel_ok. apply depth_map_entry. exact Ed. }
  assert (C : forall a b z, (a < Z.to_nat R)%nat -> (b < Z.to_nat R)%nat ->
                (z < Z.to_nat D)%nat ->
                cell vg a b z = Some (Z.of_nat z <=? depth a b)).
  { intros a b z Ha Hb Hz.
    rewrite (filled_cell _ _ _ vg cs a b z F) by (apply inside_true; simpl; lia).
    unfold structure_occ. destruct (P a b Ha Hb) as (_ & _ & ->). reflexivity. }
  destruct (P x y Hx Hy) as (D0 & D1 & _).
  split; [|split].
  - intros x' y' Hx' Hy' Hd z Hc.
    destruct (filled_occupied _ _ _ _ _ x y z F Hc) as (I & O & _).
    apply inside_true in I. simpl in I.
    rewrite (C x' y' z) by lia. f_equal.
    unfold structure_occ in O. destruct (P x y Hx Hy) as (_ & _ & E). rewrite E in O.
    apply Z.leb_le in O. apply Z.leb_le.
    assert (depth x y <= depth x' y'); [|lia].
    unfold depth. destruct (positive_float m) eqn:Pm; [|lia].
    apply depth_of_mono; [exact D0 | exact Hd | | lia].
    unfold positive_float in Pm. apply Z.ltb_lt in Pm. unfold Qlt; simpl. lia.
  - intros E z Hz. rewrite (C x y z) by lia. f_equal.
    assert (K : depth x y = 0).
    { unfold depth. destruct (positive_float m); [|reflexivity].
      apply depth_of_zero. exact E. }
    rewrite K. destruct (Z.leb_spec (Z.of_nat z) 0), (Nat.eqb_spec z 0); auto; lia.
  - intros Hm Hd z Hz. rewrite (C x y z) by lia. f_equal.
    assert (K : depth x y = D - 1).
    { unfold depth.
      replace (positive_float m) with true.
      - apply depth_of_max; assumption.
      - symmetry. unfold positive_float. apply Z.ltb_lt.
        unfold Qlt in Hm; simpl in Hm. lia. }
    rewrite K. apply Z.leb_le. lia.
Qed.

Lemma structure_depth_follows_distance_witness :
  exists resized max_dist vg cs,
    cv2_resize (table_cv edge_scene) edge_image 2 2 = Ok resized /\
    np_max (dist_field (table_cv edge_scene) resized) = Ok max_dist /\
    _structure_based_voxels (table_cv edge_scene) edge_image 2 24 = Ok (vg, cs) /\
    let dist x y := pixel 0%Q (dist_field (table_cv edge_scene) resized) x y in
    forall x y, (x < Z.to_nat 2)%nat -> (y < Z.to_nat 2)%nat ->
      (forall x' y', (x' < Z.to_nat 2)%nat -> (y' < Z.to_nat 2)%nat ->
         (dist x y <= dist x' y')%Q ->
         forall z, cell vg x y z = Some true -> cell vg x' y' z = Some true) /\
      ((dist x y == 0)%Q ->
         forall z, (z < Z.to_nat 24)%nat -> cell vg x y z = Some (z =? 0)%nat) /\
      ((0 < max_dist)%Q -> (max_dist <= dist x y)%Q ->
         forall z, (z < Z.to_nat 24)%nat -> cell vg x y z = Some true).
Proof.
  apply (structure_depth_follows_distance (table_cv edge_scene) edge_image 2 24).
  - apply table_cv_ok.
  - apply valid_image_edge.
  - lia.
  - split; [lia | discriminate].
Defined.

(** X14. In the Structure-Depth strategy ([0 < D <= 2^24]) a column
    fades with height but never below half: the voxel at [z = 0] keeps
    the color of the pixel unchanged, every channel of an occupied voxel
    is at least half the channel of the pixel (rounded down), and a higher
    voxel of a column is never brighter than a lower one. *)
Theorem structure_columns_fade_upwards cv image R D :
  OpenCV_ok cv -> valid_image image -> 0 < R -> 0 < D <= 2 ^ 24 ->
  exists resized vg cs,
    cv2_resize cv image R R = Ok resized /\
    _structure_based_voxels cv image R D = Ok (vg, cs) /\
    forall x y, (x < Z.to_nat R)%nat -> (y < Z.to_nat R)%nat ->
      exists r g b,
        getitem2 resized (Z.of_nat y) (Z.of_nat x) = Ok (r, g, b) /\
        cell cs x y 0 = Some (r, g, b) /\
        (forall z r1 g1 b1,
           cell vg x y z = Some true -> cell cs x y z = Some (r1, g1, b1) ->
           r / 2 <= r1 /\ g / 2 <= g1 /\ b / 2 <= b1) /\
        (forall z z' r1 g1 b1 r2 g2 b2,
           (z <= z')%nat ->
           cell vg x y z = Some true -> cell vg x y z' = Some true ->
           cell cs x y z = Some (r1, g1, b1) -> cell cs x y z' = Some (r2, g2, b2) ->
           r2 <= r1 /\ g2 <= g1 /\ b2 <= b1).
Proof.
  intros cv_ok image_ok HR HD.
  destruct (structure_run cv image R D cv_ok image_ok HR HD)
    as (resized & m & [vg cs] & Er & Sr & Ur & Em & Dm & Es & F).
  exists resized, vg, cs. split; [exact Er|]. split; [exact Es|].
  intros x y Hx Hy.
  destruct (getitem2_shape _ _ _ y x Sr Hy Hx) as ([[r g] b] & Ec).
  pose proof (getitem2_all2 _ _ _ _ _ Ur Ec) as (Ur' & Ug' & Ub').
  exists r, g, b. split; [exact Ec|].
  (* the color stored at an occupied cell *)
  assert (S : forall z, cell vg x y z = Some true ->
            (z < Z.to_nat D)%nat /\
            let i := color_intensity_of (Z.of_nat z) D in
            cell cs x y z =
            Some (Float.trunc (Float.mul Float.binary64 (inject_Z r) i),
                  Float.trunc (Float.mul Float.binary64 (inject_Z g) i),
                  Float.trunc (Float.mul Float.binary64 (inject_Z b) i)) /\
            (0 <= i <= 1)%Q).
  { intros z Hc.
    destruct (filled_occupied _ _ _ _ _ x y z F Hc) as (I & _ & C2).
    apply inside_true in I. simpl in I. split; [lia|].
    unfold structure_col in C2.
    rewrite (pixel_ok _ _ _ _ _ Ec) in C2. cbn [darken] in C2.
    pose proof (color_intensity_bounds (Z.of_nat z) D ltac:(lia)) as Hi.
    destruct (darken_channel_bounds r _ Ur' Hi) as [Er1 _].
    destruct (darken_channel_bounds g _ Ug' Hi) as [Eg1 _].
    destruct (darken_channel_bounds b _ Ub' Hi) as [Eb1 _].
    cbv zeta. rewrite <- Er1, <- Eg1, <- Eb1. auto. }
  assert (Z0 : cell vg x y 0 = Some true).
  { rewrite (filled_cell _ _ _ vg cs x y 0%nat F) by (apply inside_true; simpl; lia).
    f_equal. unfold structure_occ. apply Z.leb_le.
    destruct (Dm x y Hx Hy) as (k & Ek & Hk). rewrite (pixel_ok _ _ _ _ _ Ek). lia. }
  split; [|split].
  - destruct (S 0%nat Z0) as (_ & E & _). cbv zeta in E. rewrite E.
    pose proof (color_intensity_zero D) as I1. change (Z.of_nat 0) with 0.
    rewrite !stored_channel_full by assumption. reflexivity.
  - intros z r1 g1 b1 Hc Hs. destruct (S z Hc) as (Hz & E & _). cbv zeta in E.
    rewrite E in Hs. injection Hs as <- <- <-.
    pose proof (color_intensity_ge_half (Z.of_nat z) D ltac:(lia)) as Hh.
    repeat split; apply stored_channel_ge_half; assumption.
  - intros z z' r1 g1 b1 r2 g2 b2 Hzz Hc Hc' Hs Hs'.
    destruct (S z Hc) as (Hz & E & _). destruct (S z' Hc') as (Hz' & E' & (I0 & _)).
    cbv zeta in E, E', I0. rewrite E in Hs. rewrite E' in Hs'.
    injection Hs as <- <- <-. injection Hs' as <- <- <-.
    pose proof (color_intensity_mono (Z.of_nat z) (Z.of_nat z') D ltac:(lia) ltac:(lia)) as Hm.
    unfold uint8 in *.
    repeat split; apply stored_channel_mono; try assumption; lia.
Qed.

Lemma structure_columns_fade_upwards_witness :
  exists resized vg cs,
    cv2_resize (table_cv edge_scene) edge_image 2 2 = Ok resized /\
    _structure_based_voxels (table_cv edge_scene) edge_image 2 24 = Ok (vg, cs) /\
    forall x y, (x < Z.to_nat 2)%nat -> (y < Z.to_nat 2)%nat ->
      exists r g b,
        getitem2 resized (Z.of_nat y) (Z.of_nat x) = Ok (r, g, b) /\
        cell cs x y 0 = Some (r, g, b) /\
        (forall z r1 g1 b1,
           cell vg x y z = Some true -> cell cs x y z = Some (r1, g1, b1) ->
           r / 2 <= r1 /\ g / 2 <= g1 /\ b / 2 <= b1) /\
        (forall z z' r1 g1 b1 r2 g2 b2,
           (z <= z')%nat ->
           cell vg x y z = Some true -> cell vg x y z' = Some true ->
           cell cs x y z = Some (r1, g1, b1) -> cell cs x y z' = Some (r2, g2, b2) ->
           r2 <= r1 /\ g2 <= g1 /\ b2 <= b1).
Proof.
  apply (structure_columns_fade_upwards (table_cv edge_scene) edge_image 2 24).
  - apply table_cv_ok.
  - apply valid_image_edge.
  - lia.
  - split; [lia | discriminate].
Defined.

(** ** The strategies: counts *)

Import CountFacts.

(** X15. The number of occupied voxels of the Height strategy, which
    [convert_image] reports as [count], is the sum of the heights of all
    the columns. *)
Theorem height_count_is_sum_of_heights cv image R H :
  OpenCV_ok cv -> valid_image image -> 0 < R -> 0 < H < 2 ^ 53 ->
  exists resized vg cs,
    cv2_resize cv image R R = Ok resized /\
    _height_based_voxels cv image R H = Ok (vg, cs) /\
    np_sum vg =
    sum_over (Z.to_nat R) (fun x =>
      sum_over (Z.to_nat R) (fun y =>
        height_of (pixel 0 (cv2_RGB2GRAY cv resized) x y) H)).
Proof.
  intros cv_ok image_ok HR HH.
  destruct (height_run cv image R H cv_ok image_ok HR ltac:(lia))
    as (resized & [vg cs] & Er & Sr & Es & F).
  exists resized, vg, cs. split; [exact Er|]. split; [exact Es|].
  pose proof F as (S1 & _ & W1 & _ & _). cbn [fst] in S1, W1.
  rewrite (np_sum_by_columns vg _ _ _
             (height_occ (cv2_RGB2GRAY cv resized) H) S1 W1)
    by (intros x y z I; apply (filled_cell _ _ _ vg cs x y z F I)).
  apply sum_over_ext. intros x Hx. apply sum_over_ext. intros y Hy.
  unfold height_occ. apply count_true_below.
  pose proof (gray_shape cv cv_ok resized _ _ Sr) as Sg.
  destruct (getitem2_shape _ _ _ y x Sg Hy Hx) as (g & Eg).
  rewrite (pixel_ok _ _ _ _ _ Eg).
  pose proof (height_of_bounds g H
                (getitem2_all2 _ _ _ _ _ (gray_range cv cv_ok resized) Eg)
                ltac:(lia)). lia.
Qed.

Lemma height_count_is_sum_of_heights_witness :
  exists resized vg cs,
    cv2_resize (table_cv edge_scene) edge_image 2 2 = Ok resized /\
    _height_based_voxels (table_cv edge_scene) edge_image 2 5 = Ok (vg, cs) /\
    np_sum vg =
    sum_over (Z.to_nat 2) (fun x =>
      sum_over (Z.to_nat 2) (fun y =>
        height_of (pixel 0 (cv2_RGB2GRAY (table_cv edge_scene) resized) x y) 5)).
Proof.
  apply (height_count_is_sum_of_heights (table_cv edge_scene) edge_image 2 5).
  - apply table_cv_ok.
  - apply valid_image_edge.
  - lia.
  - split; [lia | reflexivity].
Defined.

(** X16. The number of occupied voxels of the Hue-Layer strategy is the
    number of pixels that pass the saturation and value gate; it never
    exceeds [R * R], one voxel per column. *)
Theorem hue_count_is_number_of_gated_pixels cv image R L :
  OpenCV_ok cv -> valid_image image -> 0 < R -> 0 < L ->
  exists resized vg cs,
    cv2_resize cv image R R = Ok resized /\
    _color_layered_voxels cv image R L = Ok (vg, cs) /\
    np_sum vg =
    sum_over (Z.to_nat R) (fun x =>
      sum_over (Z.to_nat R) (fun y =>
        if hue_gate (pixel (A := hsv) (0, 0, 0) (cv2_RGB2HSV cv resized) x y)
        then 1 else 0)) /\
    0 <= np_sum vg <= R * R.
Proof.
  intros cv_ok image_ok HR HL.
  destruct (hue_run cv image R L cv_ok image_ok HR HL)
    as (resized & [vg cs] & Er & Sr & Es & F).
  exists resized, vg, cs. split; [exact Er|]. split; [exact Es|].
  pose proof F as (S1 & _ & W1 & _ & _). cbn [fst] in S1, W1.
  assert (E : np_sum vg =
    sum_over (Z.to_nat R) (fun x =>
      sum_over (Z.to_nat R) (fun y =>
        if hue_gate (pixel (A := hsv) (0, 0, 0) (cv2_RGB2HSV cv resized) x y)
        then 1 else 0))).
  { rewrite (np_sum_by_columns vg _ _ _
               (hue_occ (cv2_RGB2HSV cv resized) L) S1 W1)
      by (intros x y z I; apply (filled_cell _ _ _ vg cs x y z F I)).
    apply sum_over_ext. intros x Hx. apply sum_over_ext. intros y Hy.
    unfold hue_occ. cbv zeta. apply count_true_single.
    pose proof (hsv_shape cv cv_ok resized _ _ Sr) as Sh.
    destruct (getitem2_shape _ _ _ y x Sh Hy Hx) as ([[hue sat] val] & Eh).
    rewrite (pixel_ok _ _ _ _ _ Eh). cbn [fst].
    pose proof (getitem2_all2 _ _ _ _ _ (hsv_range cv cv_ok resized) Eh) as (Hh & _ & _).
    pose proof (hue_layer_of_bounds hue L ltac:(unfold uint8 in Hh; lia) HL). lia. }
  split; [exact E|]. rewrite E.
  assert (B : Z.of_nat (Z.to_nat R) * 0 <=
              sum_over (Z.to_nat R) (fun x =>
                sum_over (Z.to_nat R) (fun y =>
                  if hue_gate (pixel (A := hsv) (0, 0, 0) (cv2_RGB2HSV cv resized) x y)
                  then 1 else 0))
              <= Z.of_nat (Z.to_nat R) * R).
  { apply sum_over_bounds. intros x Hx.
    pose proof (sum_over_bounds (Z.to_nat R)
                  (fun y => if hue_gate (pixel (A := hsv) (0, 0, 0)
                                           (cv2_RGB2HSV cv resized) x y)
                            then 1 else 0) 0 1) as B.
    assert (B1 : forall i, (i < Z.to_nat R)%nat ->
              0 <= (if hue_gate (pixel (A := hsv) (0, 0, 0)
                                   (cv2_RGB2HSV cv resized) x i)
                    then 1 else 0) <= 1)
      by (intros i _; destruct (hue_gate (pixel (A := hsv) (0, 0, 0)
                                   (cv2_RGB2HSV cv resized) x i)); lia).
    specialize (B B1). lia. }
  rewrite Z2Nat.id in B by lia. lia.
Qed.

Lemma hue_count_is_number_of_gated_pixels_witness :
  exists resized vg cs,
    cv2_resize (table_cv green_scene) green_image 1 1 = Ok resized /\
    _color_layered_voxels (table_cv green_scene) green_image 1 45 = Ok (vg, cs) /\
    np_sum vg =
    sum_over (Z.to_nat 1) (fun x =>
      sum_over (Z.to_nat 1) (fun y =>
        if hue_gate (pixel (A := hsv) (0, 0, 0)
                       (cv2_RGB2HSV (table_cv green_scene) resized) x y)
        then 1 else 0)) /\
    0 <= np_sum vg <= 1 * 1.
Proof.
  apply (hue_count_is_number_of_gated_pixels (table_cv green_scene) green_image 1 45).
  - apply table_cv_ok.
  - apply valid_image_green.
  - lia.
  - lia.
Defined.

(** X17. The number of occupied voxels of the Structure-Depth strategy
    ([0 < D <= 2^24]) is the sum over the columns of the depth plus one;
    it is at least [R * R], one voxel per column, and at most
    [R * R * D]. *)
Theorem structure_count_is_sum_of_depths cv image R D :
  OpenCV_ok cv -> valid_image image -> 0 < R -> 0 < D <= 2 ^ 24 ->
  exists resized max_dist vg cs,
    cv2_resize cv image R R = Ok resized /\
    np_max (dist_field cv resized) = Ok max_dist /\
    _structure_based_voxels cv image R D = Ok (vg, cs) /\
    np_sum vg =
    sum_over (Z.to_nat R) (fun x =>
      sum_over (Z.to_nat R) (fun y =>
        pixel 0 (depth_map_of (dist_field cv resized) max_dist D) x y + 1)) /\
    R * R <= np_sum vg <= R * R * D.
Proof.
  intros cv_ok image_ok HR HD.
  destruct (structure_run cv image R D cv_ok image_ok HR HD)
    as (resized & m & [vg cs] & Er & Sr & Ur & Em & Dm & Es & F).
  exists resized, m, vg, cs.
  split; [exact Er|]. split; [exact Em|]. split; [exact Es|].
  pose proof F as (S1 & _ & W1 & _ & _). cbn [fst] in S1, W1.
  set (depth x y := pixel 0 (depth_map_of (dist_field cv resized) m D) x y).
  assert (B : forall x y, (x < Z.to_nat R)%nat -> (y < Z.to_nat R)%nat ->
                0 <= depth x y <= D - 1).
  { intros x y Hx Hy. destruct (Dm x y Hx Hy) as (k & Ek & Hk).
    unfold depth. rewrite (pixel_ok _ _ _ _ _ Ek). exact Hk. }
  assert (E : np_sum vg =
    sum_over (Z.to_nat R) (fun x => sum_over (Z.to_nat R) (fun y => depth x y + 1))).
  { rewrite (np_sum_by_columns vg _ _ _
               (structure_occ (depth_map_of (dist_field cv resized) m D)) S1 W1)
      by (intros x y z I; apply (filled_cell _ _ _ vg cs x y z F I)).
    apply sum_over_ext. intros x Hx. apply sum_over_ext. intros y Hy.
    unfold structure_occ. fold (depth x y). apply count_true_upto.
    specialize (B x y Hx Hy). lia. }
  split; [exact E|]. rewrite E.
  assert (T : Z.of_nat (Z.to_nat R) * R <=
              sum_over (Z.to_nat R) (fun x =>
                sum_over (Z.to_nat R) (fun y => depth x y + 1))
              <= Z.of_nat (Z.to_nat R) * (R * D)).
  { apply sum_over_bounds. intros x Hx.
    pose proof (sum_over_bounds (Z.to_nat R) (fun y => depth x y + 1) 1 D) as T.
    specialize (T ltac:(intros y Hy; specialize (B x y Hx Hy); lia)).
    rewrite Z2Nat.id in T by lia. lia. }
  rewrite Z2Nat.id in T by lia. lia.
Qed.

Lemma structure_count_is_sum_of_depths_witness :
  exists resized max_dist vg cs,
    cv2_resize (table_cv edge_scene) edge_image 2 2 = Ok resized /\
    np_max (dist_field (table_cv edge_scene) resized) = Ok max_dist /\
    _structure_based_voxels (table_cv edge_scene) edge_image 2 24 = Ok (vg, cs) /\
    np_sum vg =
    sum_over (Z.to_nat 2) (fun x =>
      sum_over (Z.to_nat 2) (fun y =>
        pixel 0 (depth_map_of (dist_field (table_cv edge_scene) resized) max_dist 24) x y
        + 1)) /\
    2 * 2 <= np_sum vg <= 2 * 2 * 24.
Proof.
  apply (structure_count_is_sum_of_depths (table_cv edge_scene) edge_image 2 24).
  - apply table_cv_ok.
  - apply valid_image_edge.
  - lia.
  - split; [lia | discriminate].
Defined.

(** ** The strategies: degenerate depth parameters *)

Import EdgeFacts.

(** X18. A negative [max_height], [layers] or [depth_levels] is refused
    by [np.zeros]: each strategy resizes the image, derives its planes and
    then raises [ValueError] when it allocates the grid, before any voxel
    is written. *)
Theorem strategies_refuse_negative_depth cv image R n :
  OpenCV_ok cv -> valid_image image -> 0 < R -> n < 0 ->
  _height_based_voxels cv image R n = Raise ValueError /\
  _color_layered_voxels cv image R n = Raise ValueError /\
  _structure_based_voxels cv image R n = Raise ValueError.
Proof.
  intros cv_ok image_ok HR Hn.
  destruct (resize_shape cv cv_ok image R R image_ok HR HR) as (resized & Er & Sr & Ur).
  split; [|split].
  - unfold _height_based_voxels. rewrite Er. cbn [bind].
    now rewrite np_zeros_negative.
  - unfold _color_layered_voxels. rewrite Er. cbn [bind].
    now rewrite np_zeros_negative.
  - pose proof (gray_shape cv cv_ok resized _ _ Sr) as Sg.
    pose proof (canny_shape cv cv_ok _ 50 150 _ _ Sg) as Se.
    pose proof (shape2_map2 (fun e => (255 - e) mod 256) _ _ _ Se) as Si.
    pose proof (dist_shape cv cv_ok _ _ _ Si) as Sd.
    destruct (np_max_upper _ _ _ Sd) as (m & Em & _); [lia | lia|].
    unfold _structure_based_voxels. rewrite Er. cbn [bind].
    rewrite Em. cbn [bind]. now rewrite np_zeros_negative.
Qed.

Lemma strategies_refuse_negative_depth_witness :
  _height_based_voxels (table_cv gray_scene) gray_image 2 (-1) = Raise ValueError /\
  _color_layered_voxels (table_cv gray_scene) gray_image 2 (-1) = Raise ValueError /\
  _structure_based_voxels (table_cv gray_scene) gray_image 2 (-1) = Raise ValueError.
Proof.
  apply (strategies_refuse_negative_depth (table_cv gray_scene) gray_image 2 (-1)).
  - apply table_cv_ok.
  - apply valid_image_gray.
  - lia.
  - lia.
Defined.

(** X19. [max_height = 0] is accepted by the Height strategy: it returns
    two grids of shape [(R, R, 0)], which have no cell at all, so that no
    voxel is occupied and the payload lists no coordinate. *)
Theorem height_zero_gives_empty_grids cv image R :
  OpenCV_ok cv -> valid_image image -> 0 < R ->
  exists vg cs,
    _height_based_voxels cv image R 0 = Ok (vg, cs) /\
    shape vg = (Z.to_nat R, Z.to_nat R, O) /\
    shape cs = (Z.to_nat R, Z.to_nat R, O) /\
    data vg = [] /\ data cs = [] /\
    np_sum vg = 0 /\ np_where vg = [].
Proof.
  intros cv_ok image_ok HR.
  destruct (height_run cv image R 0 cv_ok image_ok HR ltac:(split; [lia | reflexivity]))
    as (resized & [vg cs] & _ & _ & Es & (S1 & S2 & W1 & W2 & _)).
  cbn [fst snd] in *. change (Z.to_nat 0) with O in *.
  pose proof (flat_array_empty vg _ _ S1 W1) as D1.
  pose proof (flat_array_empty cs _ _ S2 W2) as D2.
  exists vg, cs. repeat (split; [assumption|]).
  unfold np_sum, np_where. rewrite D1. split; reflexivity.
Qed.

Lemma height_zero_gives_empty_grids_witness :
  exists vg cs,
    _height_based_voxels (table_cv gray_scene) gray_image 2 0 = Ok (vg, cs) /\
    shape vg = (Z.to_nat 2, Z.to_nat 2, O) /\
    shape cs = (Z.to_nat 2, Z.to_nat 2, O) /\
    data vg = [] /\ data cs = [] /\
    np_sum vg = 0 /\ np_where vg = [].
Proof.
  apply (height_zero_gives_empty_grids (table_cv gray_scene) gray_image 2).
  - apply table_cv_ok.
  - apply valid_image_gray.
  - lia.
Defined.

(** X20. [layers = 0] makes the Hue-Layer strategy depend on the image:
    the layer index is then [-1] at best, which an axis of length 0 does
    not have, so the strategy raises [IndexError] as soon as one pixel
    passes the saturation and value gate, and returns two empty grids of
    shape [(R, R, 0)] when none does. *)
Theorem hue_zero_layers cv image R :
  OpenCV_ok cv -> valid_image image -> 0 < R ->
  exists resized,
    cv2_resize cv image R R = Ok resized /\
    let gate x y := hue_gate (pixel (A := hsv) (0, 0, 0) (cv2_RGB2HSV cv resized) x y) in
    ((exists x y, (x < Z.to_nat R)%nat /\ (y < Z.to_nat R)%nat /\ gate x y = true) ->
     _color_layered_voxels cv image R 0 = Raise IndexError) /\
    ((forall x y, (x < Z.to_nat R)%nat -> (y < Z.to_nat R)%nat -> gate x y = false) ->
     exists vg cs,
       _color_layered_voxels cv image R 0 = Ok (vg, cs) /\
       shape vg = (Z.to_nat R, Z.to_nat R, O) /\ data vg = [] /\ np_sum vg = 0).
Proof.
  intros cv_ok image_ok HR.
  destruct (resize_shape cv cv_ok image R R image_ok HR HR) as (resized & Er & Sr & Ur).
  pose proof (hsv_shape cv cv_ok resized _ _ Sr) as Sh.
  exists resized. split; [exact Er|]. intros gate.
  destruct (np_zeros_ok false R R 0) as (vg & E1 & S1 & W1 & _); [lia..|].
  destruct (np_zeros_ok black R R 0) as (cs & E2 & S2 & W2 & _); [lia..|].
  change (Z.to_nat 0) with O in *.
  unfold _color_layered_voxels. rewrite Er. cbn [bind].
  rewrite E1. cbn [bind]. rewrite E2. cbn [bind].
  match goal with
  | |- context [for_ _ (fun x => for_ _ (@?c x)) _] => set (column := c)
  end.
  assert (Col : forall x y, (x < Z.to_nat R)%nat -> (y < Z.to_nat R)%nat ->
            column (Z.of_nat x) (Z.of_nat y) (vg, cs) =
            if gate x y then Raise IndexError else Ok (vg, cs)).
  { intros x y Hx Hy. subst column gate. cbv beta.
    destruct (getitem2_shape _ _ _ y x Sh Hy Hx) as ([[hue sat] val] & Eh).
    destruct (getitem2_shape resized _ _ y x Sr Hy Hx) as (c & Ecx).
    rewrite Ecx, Eh. cbn [bind]. rewrite (pixel_ok _ _ _ _ _ Eh). cbn [hue_gate].
    destruct ((sat >? 30) && (val >? 30)); [|reflexivity].
    now rewrite (setitem_empty_axis vg _ _ x y _ true S1 Hx Hy). }
  assert (Row : forall x, (x < Z.to_nat R)%nat ->
            (for_ (range R) (column (Z.of_nat x)) (vg, cs) = Ok (vg, cs) /\
             forall y, (y < Z.to_nat R)%nat -> gate x y = false) \/
            (for_ (range R) (column (Z.of_nat x)) (vg, cs) = Raise IndexError /\
             exists y, (y < Z.to_nat R)%nat /\ gate x y = true)).
  { intros x Hx.
    destruct (for_stuck (range R) (column (Z.of_nat x)) (vg, cs) IndexError)
      as [[E A]|[E (i & Hi & Ei)]].
    - intros i Hi. apply in_range in Hi. destruct Hi as (y & Hy & ->).
      rewrite (Col x y Hx Hy). destruct (gate x y); auto.
    - left. split; [exact E|]. intros y Hy.
      specialize (A (Z.of_nat y) ltac:(apply in_range; eauto)).
      rewrite (Col x y Hx Hy) in A. destruct (gate x y); [discriminate | reflexivity].
    - right. split; [exact E|].
      apply in_range in Hi. destruct Hi as (y & Hy & ->). exists y. split; [exact Hy|].
      rewrite (Col x y Hx Hy) in Ei. destruct (gate x y); [reflexivity | discriminate]. }
  destruct (for_stuck (range R) (fun x => for_ (range R) (column x)) (vg, cs) IndexError)
    as [[E A]|[E (i & Hi & Ei)]].
  - intros i Hi. apply in_range in Hi. destruct Hi as (x & Hx & ->).
    destruct (Row x Hx) as [[Ex _]|[Ex _]]; auto.
  - split.
    + intros (x & y & Hx & Hy & G). exfalso.
      specialize (A (Z.of_nat x) ltac:(apply in_range; eauto)).
      destruct (Row x Hx) as [[_ N]|[Ex _]]; [|congruence].
      rewrite (N y Hy) in G. discriminate.
    + intros _. exists vg, cs. split; [exact E|]. split; [exact S1|].
      pose proof (flat_array_empty vg _ _ S1 W1) as D1.
      split; [exact D1|]. unfold np_sum. now rewrite D1.
  - split.
    + intros _. exact E.
    + intros N. exfalso.
      apply in_range in Hi. destruct Hi as (x & Hx & ->).
      destruct (Row x Hx) as [[Ex _]|[_ (y & Hy & G)]]; [congruence|].
      rewrite (N x y Hx Hy) in G. discriminate.
Qed.

Lemma hue_zero_layers_witness :
  exists resized,
    cv2_resize (table_cv green_scene) green_image 1 1 = Ok resized /\
    let gate x y :=
      hue_gate (pixel (A := hsv) (0, 0, 0)
                  (cv2_RGB2HSV (table_cv green_scene) resized) x y) in
    ((exists x y, (x < Z.to_nat 1)%nat /\ (y < Z.to_nat 1)%nat /\ gate x y = true) ->
     _color_layered_voxels (table_cv green_scene) green_image 1 0 = Raise IndexError) /\
    ((forall x y, (x < Z.to_nat 1)%nat -> (y < Z.to_nat 1)%nat -> gate x y = false) ->
     exists vg cs,
       _color_layered_voxels (table_cv green_scene) green_image 1 0 = Ok (vg, cs) /\
       shape vg = (Z.to_nat 1, Z.to_nat 1, O) /\ data vg = [] /\ np_sum vg = 0).
Proof.
  apply (hue_zero_layers (table_cv green_scene) green_image 1).
  - apply table_cv_ok.
  - apply valid_image_green.
  - lia.
Defined.

(** ** The payload of an entry *)

Import PayloadFacts.

(** X21. Saving loses nothing: the payload built for an entry returned by
    [convert_image] determines the entry.  Two entries, of any two
    conversions, that give the same payload have the same key, occupancy
    grid, color grid, count and method; the cells that the payload does
    not list are black in both. *)
Theorem payload_determines_entry
    cv path selector kwargs w results cv' path' selector' kwargs' w' results'
    m r m' r' p :
  snd (convert_image cv path selector kwargs w) = Ok results ->
  In (m, r) results ->
  snd (convert_image cv' path' selector' kwargs' w') = Ok results' ->
  In (m', r') results' ->
  encode_npz r = Ok p -> encode_npz r' = Ok p ->
  m = m' /\ r = r'.
Proof.
  intros E Hin E' Hin' P P'.
  destruct (convert_image cv path selector kwargs w) as [w1 res] eqn:Ew.
  destruct (convert_image cv' path' selector' kwargs' w') as [w1' res'] eqn:Ew'.
  simpl in E, E'. subst res res'.
  pose proof (convert_image_entries _ _ _ _ _ _ _ Ew) as F.
  pose proof (convert_image_entries _ _ _ _ _ _ _ Ew') as F'.
  rewrite Forall_forall in F, F'.
  destruct (F _ Hin) as (Hm & Hc & Hp & _).
  destruct (F' _ Hin') as (Hm' & Hc' & Hp' & _).
  destruct (paired_payload_injective r r' p Hp Hp' P P') as (EV & EC & EM).
  split; [congruence|].
  destruct r as [v c n k], r' as [v' c' n' k']. cbn [voxels colors count method] in *.
  congruence.
Qed.

Lemma payload_determines_entry_witness :
  exists results results' r r' p,
    snd (convert_image (table_cv edge_scene) "photo.png" "height"
           [("voxel_resolution"%string, 2); ("max_height"%string, 3)]
           (one_file "photo.png" edge_image [])) = Ok results /\
    In ("height"%string, r) results /\
    snd (convert_image (table_cv edge_scene) "copy.png" "all"
           [("voxel_resolution"%string, 2); ("max_height"%string, 3);
            ("layers"%string, 2); ("depth_levels"%string, 2)]
           (one_file "copy.png" edge_image [ev_exists "copy.png"])) = Ok results' /\
    In ("height"%string, r') results' /\
    encode_npz r = Ok p /\ encode_npz r' = Ok p /\
    "height"%string = "height"%string /\ r = r'.
Proof.
  do 5 eexists.
  split; [vm_compute; reflexivity|].
  split; [left; reflexivity|].
  split; [vm_compute; reflexivity|].
  split; [left; reflexivity|].
  split; [vm_compute; reflexivity|].
  split; [vm_compute; reflexivity|].
  eapply (payload_determines_entry
           (table_cv edge_scene) "photo.png" "height"
           [("voxel_resolution"%string, 2); ("max_height"%string, 3)]
           (one_file "photo.png" edge_image [])
           _
           (table_cv edge_scene) "copy.png" "all"
           [("voxel_resolution"%string, 2); ("max_height"%string, 3);
            ("layers"%string, 2); ("depth_levels"%string, 2)]
           (one_file "copy.png" edge_image [ev_exists "copy.png"])
           _ "height" _ "height" _ _);
    vm_compute; first [reflexivity | left; reflexivity].
Defined.

(** ** [convert_image] on a good image *)

(** X22. On a file that decodes to an image, with a positive resolution
    and depth parameters in range (all of which the defaults are), the
    selector [all] never fails: [convert_image] returns the three entries
    in the order height, color, structure.  Their grids have the shapes
    [(R, R, max_height)], [(R, R, layers)] and [(R, R, depth_levels)],
    where [R] is the keyword [voxel_resolution] when it is given and
    otherwise 64 for the first, 48 for the second and 56 for the third. *)
Theorem convert_image_all_succeeds cv path kwargs w img :
  OpenCV_ok cv ->
  files w path = Some (Some img) -> valid_image img ->
  (forall d, 0 < d -> 0 < kwargs_get kwargs "voxel_resolution" d) ->
  0 <= kwargs_get kwargs "max_height" 32 < 2 ^ 53 ->
  0 < kwargs_get kwargs "layers" 16 ->
  0 < kwargs_get kwargs "depth_levels" 24 <= 2 ^ 24 ->
  exists r1 r2 r3,
    snd (convert_image cv path "all" kwargs w) =
      Ok [("height"%string, r1); ("color"%string, r2); ("structure"%string, r3)] /\
    shape (voxels r1) =
      (Z.to_nat (kwargs_get kwargs "voxel_resolution" 64),
       Z.to_nat (kwargs_get kwargs "voxel_resolution" 64),
       Z.to_nat (kwargs_get kwargs "max_height" 32)) /\
    shape (voxels r2) =
      (Z.to_nat (kwargs_get kwargs "voxel_resolution" 48),
       Z.to_nat (kwargs_get kwargs "voxel_resolution" 48),
       Z.to_nat (kwargs_get kwargs "layers" 16)) /\
    shape (voxels r3) =
      (Z.to_nat (kwargs_get kwargs "voxel_resolution" 56),
       Z.to_nat (kwargs_get kwargs "voxel_resolution" 56),
       Z.to_nat (kwargs_get kwargs "depth_levels" 24)).
Proof.
  intros cv_ok Hf Himg HR HH HL HD.
  pose proof (valid_image_swap img Himg) as Hrgb.
  set (img_rgb := map2 (fun '(b, g, r) => (r, g, b)) img) in *.
  destruct (height_run cv img_rgb _ _ cv_ok Hrgb (HR 64 ltac:(lia)) HH)
    as (i1 & s1 & _ & _ & E1 & (S1 & _)).
  destruct (hue_run cv img_rgb _ _ cv_ok Hrgb (HR 48 ltac:(lia)) HL)
    as (i2 & s2 & _ & _ & E2 & (S2 & _)).
  destruct (structure_run cv img_rgb _ _ cv_ok Hrgb (HR 56 ltac:(lia)) HD)
    as (i3 & m3 & s3 & _ & _ & _ & _ & _ & E3 & (S3 & _)).
  exists (entry_of "height" s1), (entry_of "color" s2), (entry_of "structure" s3).
  rewrite (convert_image_all cv path kwargs w img Hf). cbv zeta.
  fold img_rgb. unfold call_height, call_color, call_structure.
  rewrite E1, E2, E3. cbn [snd entry_of voxels]. auto.
Qed.

Lemma convert_image_all_succeeds_witness :
  exists r1 r2 r3,
    snd (convert_image (table_cv gray_scene) "photo.png" "all" []
           (one_file "photo.png" gray_image [])) =
      Ok [("height"%string, r1); ("color"%string, r2); ("structure"%string, r3)] /\
    shape (voxels r1) = (Z.to_nat 64, Z.to_nat 64, Z.to_nat 32) /\
    shape (voxels r2) = (Z.to_nat 48, Z.to_nat 48, Z.to_nat 16) /\
    shape (voxels r3) = (Z.to_nat 56, Z.to_nat 56, Z.to_nat 24).
Proof.
  apply (convert_image_all_succeeds (table_cv gray_scene) "photo.png" []
           (one_file "photo.png" gray_image []) gray_image).
  - apply table_cv_ok.
  - reflexivity.
  - apply valid_image_gray.
  - intros d Hd. exact Hd.
  - split; [discriminate | reflexivity].
  - reflexivity.
  - split; [reflexivity | discriminate].
Defined.

(** ** [visualize_3d] *)

Import CliFacts.

(** X23. A result without occupied voxel is never plotted: whatever
    [max_voxels], [visualize_3d] only prints that there is no voxel to
    display and returns; no sample is drawn and no figure is shown. *)
Theorem visualize_3d_skips_empty_grids voxel_data max_voxels s :
  np_sum (voxels voxel_data) = 0 ->
  visualize_3d voxel_data max_voxels s =
  (shown s (draws s) [ev_print_no_voxels], Ok tt).
Proof.
  intros H. unfold visualize_3d. cbv zeta.
  pose proof (np_where_length (voxels voxel_data)) as L. rewrite H in L.
  replace (length (np_where (voxels voxel_data))) with O by lia.
  reflexivity.
Qed.

Lemma visualize_3d_skips_empty_grids_witness :
  visualize_3d
    {| voxels := mk_ndarray (1, 1, 2)%nat [false; false];
       colors := mk_ndarray (1, 1, 2)%nat [(0, 0, 0); (0, 0, 0)];
       count := 0; method := "height" |}
    8000 (one_file_session "photo.png" gray_image) =
  (shown (one_file_session "photo.png" gray_image)
     (draws (one_file_session "photo.png" gray_image)) [ev_print_no_voxels], Ok tt).
Proof.
  apply (visualize_3d_skips_empty_grids
           {| voxels := mk_ndarray (1, 1, 2)%nat [false; false];
              colors := mk_ndarray (1, 1, 2)%nat [(0, 0, 0); (0, 0, 0)];
              count := 0; method := "height" |}
           8000 (one_file_session "photo.png" gray_image)).
  reflexivity.
Defined.

(** X24. What [visualize_3d] plots, for grids written together (as every
    entry of [convert_image] is), at least one occupied voxel and
    [max_voxels > 0], when [np.random.choice] returns distinct indices in
    range: one figure, with [min(count, max_voxels)] points, no voxel
    twice; every point is an occupied voxel, drawn in its stored color
    divided by 255; and when the voxels are not more than [max_voxels],
    all of them are plotted, in the order of [np.where]. *)
Theorem visualize_3d_plots_occupied_voxels voxel_data max_voxels s :
  paired (voxels voxel_data, colors voxel_data) ->
  0 < np_sum (voxels voxel_data) -> 0 < max_voxels ->
  choice_ok (choice s) ->
  exists f d,
    visualize_3d voxel_data max_voxels s = (shown s d [ev_show f], Ok tt) /\
    Z.of_nat (length (points f)) = Z.min (np_sum (voxels voxel_data)) max_voxels /\
    NoDup (points f) /\
    (forall k x y z, nth_error (points f) k = Some (x, y, z) ->
       cell (voxels voxel_data) x y z = Some true /\
       exists v, cell (colors voxel_data) x y z = Some v /\
                 nth_error (point_colors f) k = Some (unit_color v)) /\
    (np_sum (voxels voxel_data) <= max_voxels ->
     points f = np_where (voxels voxel_data)).
Proof.
  intros (Sh & W1 & W2 & _) Hpos Hmax Hch. cbn [fst snd] in Sh, W1, W2.
  set (occ := np_where (voxels voxel_data)).
  pose proof (np_where_length (voxels voxel_data)) as Ln. fold occ in Ln.
  destruct (encode_npz_ok voxel_data W1 W2 Sh)
    as (p & _ & Pp & _ & _ & _ & _ & _ & _ & Nd & _).
  rewrite Pp in Nd. fold occ in Nd.
  (* the points kept *)
  assert (Pick : exists pts d,
    (if Z.of_nat (length occ) >? max_voxels then
       cli_bind (np_random_choice (length occ) max_voxels)
         (fun indices => cli_lift (getitems occ indices))
     else cli_ret occ) s = (shown s d [], Ok pts) /\
    Z.of_nat (length pts) = Z.min (np_sum (voxels voxel_data)) max_voxels /\
    NoDup pts /\ (forall c, In c pts -> In c occ) /\
    (np_sum (voxels voxel_data) <= max_voxels -> pts = occ)).
  { destruct (Z.gtb_spec (Z.of_nat (length occ)) max_voxels) as [G|G].
    - destruct (Hch (draws s) (length occ) (Z.to_nat max_voxels) ltac:(lia))
        as (Lc & Nc & Fc).
      destruct (getitems_ok occ _ Fc) as (vs & Ev & Mv).
      exists vs, (S (draws s)).
      unfold cli_bind, np_random_choice, cli_lift.
      replace (max_voxels <? 0) with false by (symmetry; apply Z.ltb_ge; lia).
      replace (Z.of_nat (length occ) <? max_voxels) with false
        by (symmetry; apply Z.ltb_ge; lia).
      rewrite Ev. split; [reflexivity|].
      split; [rewrite (map_Some_length _ _ Mv), length_map, Lc; lia|].
      split; [|split; [|lia]].
      + apply (NoDup_map_inv Some). rewrite Mv. now apply nodup_picks.
      + intros c Hc. eapply map_Some_In; eauto.
    - exists occ, (draws s). unfold cli_ret. rewrite shown_same.
      split; [reflexivity|]. split; [lia|]. split; [exact Nd|]. auto. }
  destruct Pick as (pts & d & Ep & Lp & Np & Ip & Ap).
  assert (In_occ : forall x y z, In (x, y, z) pts ->
            inside (shape (voxels voxel_data)) x y z = true /\
            cell (voxels voxel_data) x y z = Some true).
  { intros x y z H. apply np_where_sound; [exact W1 | now apply Ip]. }
  destruct (take_inside (colors voxel_data) pts W2) as (cs & Et & Lt & Nt).
  { apply Forall_forall. intros [[x y] z] H. rewrite Sh. now apply In_occ. }
  eexists. exists d. split; [|split; [|split; [|split]]].
  - unfold visualize_3d. cbv zeta. fold occ.
    replace (length occ =? 0)%nat with false by (symmetry; apply Nat.eqb_neq; lia).
    unfold cli_bind at 1. rewrite Ep.
    unfold cli_bind, cli_lift, cli_emit. rewrite Et.
    rewrite shown_shown. reflexivity.
  - exact Lp.
  - exact Np.
  - cbn [points point_colors]. intros k x y z Hk.
    split; [apply In_occ; eapply nth_error_In; exact Hk|].
    destruct (Nt k _ Hk) as (v & Kv & Gv).
    exists v. split; [now apply getitem3_cell|].
    now apply map_nth_error.
  - exact Ap.
Qed.

Lemma visualize_3d_plots_occupied_voxels_witness :
  exists f d,
    visualize_3d tiny_result 8000 (one_file_session "photo.png" gray_image) =
      (shown (one_file_session "photo.png" gray_image) d [ev_show f], Ok tt) /\
    Z.of_nat (length (points f)) = Z.min (np_sum (voxels tiny_result)) 8000 /\
    NoDup (points f) /\
    (forall k x y z, nth_error (points f) k = Some (x, y, z) ->
       cell (voxels tiny_result) x y z = Some true /\
       exists v, cell (colors tiny_result) x y z = Some v /\
                 nth_error (point_colors f) k = Some (unit_color v)) /\
    (np_sum (voxels tiny_result) <= 8000 -> points f = np_where (voxels tiny_result)).
Proof.
  apply (visualize_3d_plots_occupied_voxels tiny_result 8000
           (one_file_session "photo.png" gray_image)).
  - split; [reflexivity|]. split; [reflexivity|]. split; [reflexivity|].
    intros [|[|x]] [|[|y]] [|[|[|z]]]; vm_compute; intros H;
      first [reflexivity | discriminate].
  - reflexivity.
  - reflexivity.
  - intros i n k Hk. cbn [one_file_session choice].
    split; [apply length_seq|]. split; [apply seq_NoDup|].
    apply Forall_forall. intros j Hj. apply in_seq in Hj. lia.
Defined.

(** X25. A negative [max_voxels] is only noticed when there is something
    to plot: with at least one occupied voxel, [np.random.choice] refuses
    the negative size and [visualize_3d] raises [ValueError] before any
    figure is made. *)
Theorem visualize_3d_negative_limit voxel_data max_voxels s :
  0 < np_sum (voxels voxel_data) -> max_voxels < 0 ->
  visualize_3d voxel_data max_voxels s = (s, Raise ValueError).
Proof.
  intros Hpos Hneg. unfold visualize_3d. cbv zeta.
  pose proof (np_where_length (voxels voxel_data)) as L.
  replace (length (np_where (voxels voxel_data)) =? 0)%nat with false
    by (symmetry; apply Nat.eqb_neq; lia).
  replace (Z.of_nat (length (np_where (voxels voxel_data))) >? max_voxels) with true
    by (symmetry; apply Z.gtb_lt; lia).
  unfold cli_bind, np_random_choice.
  replace (max_voxels <? 0) with true by (symmetry; apply Z.ltb_lt; lia).
  reflexivity.
Qed.

Lemma visualize_3d_negative_limit_witness :
  visualize_3d tiny_result (-1) (one_file_session "photo.png" gray_image) =
  (one_file_session "photo.png" gray_image, Raise ValueError).
Proof.
  apply (visualize_3d_negative_limit tiny_result (-1)
           (one_file_session "photo.png" gray_image)); reflexivity.
Defined.

(** ** [main] *)

(** X26. [main] never lets an exception of the converter escape: whatever
    the arguments and the state of the disk, it returns normally, and the
    last thing it prints is either the completion message or the error
    message of the exception it caught. *)
Theorem main_always_returns cv args s :
  exists d evs last,
    main cv args s = (shown s d (evs ++ [last]), Ok tt) /\
    (last = ev_print_complete (args_output args) \/
     exists e, last = ev_print_error e).
Proof.
  unfold main, cli_try.
  destruct (finishes_main_body cv args s) as (d & evs & [E|(e & E)]);
    cbv zeta in E; rewrite E.
  - exists d, evs, (ev_print_complete (args_output args)). auto.
  - exists d, evs, (ev_print_error e).
    split; [unfold cli_emit; rewrite shown_shown; reflexivity | eauto].
Qed.

(** X27. When the conversion fails (no input file, a file that does not
    decode, a resolution that [cv2.resize] refuses, ...), [main] prints
    the error and leaves the disk alone: it asks for no directory, not
    even the output directory, and saves no file. *)
Theorem main_failed_conversion_writes_nothing cv args s e :
  snd (convert_image cv (args_input args) (args_method args)
         [("voxel_resolution"%string, args_resolution args)] (world_of s)) = Raise e ->
  exists evs,
    main cv args s = (shown s (draws s) (evs ++ [ev_print_error e]), Ok tt) /\
    saved (evs ++ [ev_print_error e]) = [] /\
    created (evs ++ [ev_print_error e]) = [].
Proof.
  intros H.
  destruct (run_convert_image cv (args_input args) (args_method args)
              [("voxel_resolution"%string, args_resolution args)] s)
    as (evs & F & E).
  rewrite H in E. exists (map ev_core evs).
  destruct (conversion_saves_nothing evs F) as [S C].
  split; [|split].
  - unfold main, cli_try. unfold cli_bind at 1. rewrite E.
    unfold cli_emit. cbn [draws shown]. now rewrite shown_shown.
  - rewrite saved_app, S. reflexivity.
  - rewrite created_app, C. reflexivity.
Qed.

Lemma main_failed_conversion_writes_nothing_witness :
  exists evs,
    main (table_cv gray_scene)
      {| args_input := "photo.png"; args_output := "output/"; args_method := "all";
         args_resolution := 0; args_visualize := true |}
      (one_file_session "photo.png" gray_image) =
    (shown (one_file_session "photo.png" gray_image)
       (draws (one_file_session "photo.png" gray_image))
       (evs ++ [ev_print_error cv2_error]), Ok tt) /\
    saved (evs ++ [ev_print_error cv2_error]) = [] /\
    created (evs ++ [ev_print_error cv2_error]) = [].
Proof.
  apply (main_failed_conversion_writes_nothing (table_cv gray_scene)
           {| args_input := "photo.png"; args_output := "output/"; args_method := "all";
              args_resolution := 0; args_visualize := true |}
           (one_file_session "photo.png" gray_image) cv2_error).
  vm_compute. reflexivity.
Defined.

(** X28. The command line at work.  On an input that decodes to an image,
    with the default method [all], a positive [--resolution], without
    [--visualize], and when the directories can be created, [main] asks
    for the output directory, saves exactly three files,
    [height_voxels.npz], [color_voxels.npz] and [structure_voxels.npz]
    joined to the output directory, in that order, and ends with the
    completion message.  All three grids have the resolution given on the
    command line (unlike the defaults of [convert_image]) and the default
    depths 32, 16 and 24. *)
Theorem main_saves_one_file_per_method cv args s img :
  OpenCV_ok cv ->
  disk s (args_input args) = Some (Some img) -> valid_image img ->
  args_method args = "all"%string -> 0 < args_resolution args ->
  args_visualize args = false ->
  output_dir s (args_output args) = Ok tt ->
  (forall path, dirs s path = Ok tt) ->
  exists evs p1 p2 p3,
    main cv args s =
      (shown s (draws s) (evs ++ [ev_print_complete (args_output args)]), Ok tt) /\
    saved evs =
      [(os_path_join (args_output args) "height_voxels.npz", p1);
       (os_path_join (args_output args) "color_voxels.npz", p2);
       (os_path_join (args_output args) "structure_voxels.npz", p3)] /\
    created evs =
      [args_output args;
       os_path_join (args_output args) "height_voxels.npz";
       os_path_join (args_output args) "color_voxels.npz";
       os_path_join (args_output args) "structure_voxels.npz"] /\
    let R := Z.to_nat (args_resolution args) in
    (grid_shape p1 = (R, R, 32%nat) /\ npz_method p1 = "height"%string) /\
    (grid_shape p2 = (R, R, 16%nat) /\ npz_method p2 = "color"%string) /\
    (grid_shape p3 = (R, R, 24%nat) /\ npz_method p3 = "structure"%string).
Proof.
  intros cv_ok Hf Himg Hm HR Hv Ho Hd.
  pose proof (valid_image_swap img Himg) as Hrgb.
  set (img_rgb := map2 (fun '(b, g, r) => (r, g, b)) img) in *.
  set (kwargs := [("voxel_resolution"%string, args_resolution args)]).
  destruct (height_run cv img_rgb (args_resolution args) 32 cv_ok Hrgb HR
              ltac:(split; [discriminate | reflexivity]))
    as (i1 & s1 & _ & _ & E1 & (S1 & _)).
  destruct (hue_run cv img_rgb (args_resolution args) 16 cv_ok Hrgb HR eq_refl)
    as (i2 & s2 & _ & _ & E2 & (S2 & _)).
  destruct (structure_run cv img_rgb (args_resolution args) 24 cv_ok Hrgb HR
              ltac:(split; [reflexivity | discriminate]))
    as (i3 & m3 & s3 & _ & _ & _ & _ & _ & E3 & (S3 & _)).
  (* the conversion *)
  destruct (run_convert_image cv (args_input args) (args_method args) kwargs s)
    as (evs0 & F0 & Erun).
  pose proof (convert_image_all cv (args_input args) kwargs (world_of s) img Hf) as Eall.
  cbv zeta in Eall. fold img_rgb in Eall.
  unfold call_height, call_color, call_structure in Eall.
  change (kwargs_get kwargs "voxel_resolution" 64) with (args_resolution args) in Eall.
  change (kwargs_get kwargs "voxel_resolution" 48) with (args_resolution args) in Eall.
  change (kwargs_get kwargs "voxel_resolution" 56) with (args_resolution args) in Eall.
  change (kwargs_get kwargs "max_height" 32) with 32 in Eall.
  change (kwargs_get kwargs "layers" 16) with 16 in Eall.
  change (kwargs_get kwargs "depth_levels" 24) with 24 in Eall.
  rewrite E1, E2, E3 in Eall. rewrite Hm in Erun.
  pose proof (convert_image_entries cv (args_input args) "all" kwargs _ _ _ Eall) as Fe.
  rewrite Eall in Erun. cbn [snd] in Erun.
  (* the payloads *)
  rewrite Forall_forall in Fe.
  destruct (Fe _ (or_introl eq_refl)) as (_ & _ & _ & p1 & P1 & _).
  destruct (Fe _ (or_intror (or_introl eq_refl))) as (_ & _ & _ & p2 & P2 & _).
  destruct (Fe _ (or_intror (or_intror (or_introl eq_refl))))
    as (_ & _ & _ & p3 & P3 & _).
  destruct (encode_npz_fields _ _ P1) as (_ & G1 & M1).
  destruct (encode_npz_fields _ _ P2) as (_ & G2 & M2).
  destruct (encode_npz_fields _ _ P3) as (_ & G3 & M3).
  cbn [entry_of voxels method] in G1, G2, G3, M1, M2, M3.
  (* the loop *)
  set (results := [("height"%string, entry_of "height" s1);
                   ("color"%string, entry_of "color" s2);
                   ("structure"%string, entry_of "structure" s3)]) in *.
  destruct (main_loop (args_output args) results
              (shown (shown s (draws s) (map ev_core evs0)) (draws s)
                 [ev_makedirs_output (args_output args)]) Hd)
    as (evs & El & Sl & Cl).
  { repeat constructor; cbn [snd]; eauto. }
  exists (map ev_core evs0 ++ [ev_makedirs_output (args_output args)] ++ evs), p1, p2, p3.
  destruct (conversion_saves_nothing evs0 F0) as [Sv0 Cr0].
  split; [|split; [|split]].
  - unfold main, cli_try. rewrite Hm, Hv. cbv iota.
    unfold cli_bind at 1. fold kwargs. rewrite Erun.
    unfold cli_bind at 1. unfold os_makedirs_output, cli_bind at 1.
    unfold cli_emit at 1. cbn [output_dir shown]. rewrite Ho.
    unfold cli_bind at 1. cbv zeta in El. cbv zeta.
    cbn [draws shown] in El |- *. rewrite El.
    unfold cli_emit. cbn [draws shown]. rewrite !shown_shown, <- !app_assoc.
    reflexivity.
  - rewrite !saved_app, Sv0. cbn [saved app].
    subst results.
    inversion Sl as [|? [f1 q1] ? ? [N1 Q1] Sl2 Es]; subst.
    inversion Sl2 as [|? [f2 q2] ? ? [N2 Q2] Sl3 Es2]; subst.
    inversion Sl3 as [|? [f3 q3] ? ? [N3 Q3] Sl4 Es3]; subst.
    inversion Sl4; subst.
    cbn [fst snd] in *. subst f1 f2 f3.
    assert (q1 = p1) by congruence. assert (q2 = p2) by congruence.
    assert (q3 = p3) by congruence. subst. reflexivity.
  - rewrite !created_app, Cr0, Cl. reflexivity.
  - cbv zeta. rewrite G1, G2, G3, S1, S2, S3. auto.
Qed.

Lemma main_saves_one_file_per_method_witness :
  exists evs p1 p2 p3,
    main (table_cv gray_scene)
      {| args_input := "photo.png"; args_output := "output/"; args_method := "all";
         args_resolution := 2; args_visualize := false |}
      (one_file_session "photo.png" gray_image) =
      (shown (one_file_session "photo.png" gray_image)
         (draws (one_file_session "photo.png" gray_image))
         (evs ++ [ev_print_complete "output/"]), Ok tt) /\
    saved evs =
      [("output/height_voxels.npz"%string, p1);
       ("output/color_voxels.npz"%string, p2);
       ("output/structure_voxels.npz"%string, p3)] /\
    created evs =
      ["output/"; "output/height_voxels.npz"; "output/color_voxels.npz";
       "output/structure_voxels.npz"]%string /\
    let R := Z.to_nat 2 in
    (grid_shape p1 = (R, R, 32%nat) /\ npz_method p1 = "height"%string) /\
    (grid_shape p2 = (R, R, 16%nat) /\ npz_method p2 = "color"%string) /\
    (grid_shape p3 = (R, R, 24%nat) /\ npz_method p3 = "structure"%string).
Proof.
  apply (main_saves_one_file_per_method (table_cv gray_scene)
           {| args_input := "photo.png"; args_output := "output/"; args_method := "all";
              args_resolution := 2; args_visualize := false |}
           (one_file_session "photo.png" gray_image) gray_image).
  - apply table_cv_ok.
  - reflexivity.
  - apply valid_image_gray.
  - reflexivity.
  - reflexivity.
  - reflexivity.
  - reflexivity.
  - intros path. reflexivity.
Defined.

(** ** The strategies inside their range *)

(** X29. For every valid image, [R > 0] and [0 < D <= 2^24], the
    Structure-Depth strategy returns grids of shape [(R, R, D)]; in the
    column of the pixel [(x, y)] the occupied cells are exactly those with
    [z <= depth_map[y, x]], a depth between [0] and [D - 1], so the cell
    [z = 0] of every column is occupied. *)
Theorem structure_columns_in_range cv image R D :
  OpenCV_ok cv -> valid_image image -> 0 < R -> 0 < D <= 2 ^ 24 ->
  exists resized max_dist vg cs,
    cv2_resize cv image R R = Ok resized /\
    np_max (dist_field cv resized) = Ok max_dist /\
    _structure_based_voxels cv image R D = Ok (vg, cs) /\
    shape vg = (Z.to_nat R, Z.to_nat R, Z.to_nat D) /\
    shape cs = (Z.to_nat R, Z.to_nat R, Z.to_nat D) /\
    forall x y, (x < Z.to_nat R)%nat -> (y < Z.to_nat R)%nat ->
      exists k,
        getitem2 (depth_map_of (dist_field cv resized) max_dist D)
          (Z.of_nat y) (Z.of_nat x) = Ok k /\
        0 <= k <= D - 1 /\
        (forall z, (z < Z.to_nat D)%nat -> cell vg x y z = Some (Z.of_nat z <=? k)) /\
        cell vg x y 0 = Some true.
Proof.
  intros cv_ok image_ok HR HD.
  destruct (structure_run cv image R D cv_ok image_ok HR HD)
    as (resized & m & [vg cs] & Er & Sr & Ur & Em & Dm & Es & F).
  exists resized, m, vg, cs.
  split; [exact Er|]. split; [exact Em|]. split; [exact Es|].
  pose proof F as (S1 & S2 & _). simpl in S1, S2.
  split; [exact S1|]. split; [exact S2|].
  intros x y Hx Hy. destruct (Dm x y Hx Hy) as (k & Ek & Hk).
  exists k. split; [exact Ek|]. split; [exact Hk|].
  assert (C : forall z, (z < Z.to_nat D)%nat -> cell vg x y z = Some (Z.of_nat z <=? k)).
  { intros z Hz.
    rewrite (filled_cell _ _ _ vg cs x y z F) by (apply inside_true; simpl; lia).
    unfold structure_occ, pixel. now rewrite Ek. }
  split; [exact C|].
  rewrite (C 0%nat ltac:(lia)). f_equal. apply Z.leb_le. lia.
Qed.

Lemma structure_columns_in_range_witness :
  exists resized max_dist vg cs,
    cv2_resize (table_cv edge_scene) edge_image 2 2 = Ok resized /\
    np_max (dist_field (table_cv edge_scene) resized) = Ok max_dist /\
    _structure_based_voxels (table_cv edge_scene) edge_image 2 24 = Ok (vg, cs) /\
    shape vg = (Z.to_nat 2, Z.to_nat 2, Z.to_nat 24) /\
    shape cs = (Z.to_nat 2, Z.to_nat 2, Z.to_nat 24) /\
    forall x y, (x < Z.to_nat 2)%nat -> (y < Z.to_nat 2)%nat ->
      exists k,
        getitem2 (depth_map_of (dist_field (table_cv edge_scene) resized) max_dist 24)
          (Z.of_nat y) (Z.of_nat x) = Ok k /\
        0 <= k <= 24 - 1 /\
        (forall z, (z < Z.to_nat 24)%nat -> cell vg x y z = Some (Z.of_nat z <=? k)) /\
        cell vg x y 0 = Some true.
Proof.
  apply (structure_columns_in_range (table_cv edge_scene) edge_image 2 24).
  - apply table_cv_ok.
  - apply valid_image_edge.
  - lia.
  - split; [lia | discriminate].
Defined.

(** X30. For every valid image, [R > 0], [0 < H < 2^53], [L > 0] and
    [0 < D <= 2^24], no write of the three strategies is refused: each
    strategy returns its grids; every height is between [0] and [H], every
    hue layer between [0] and [L - 1] and every depth between [0] and
    [D - 1]. *)
Theorem writes_in_bounds_in_range cv image R H L D :
  OpenCV_ok cv -> valid_image image -> 0 < R ->
  0 < H < 2 ^ 53 -> 0 < L -> 0 < D <= 2 ^ 24 ->
  (exists s, _height_based_voxels cv image R H = Ok s) /\
  (exists s, _color_layered_voxels cv image R L = Ok s) /\
  (exists s, _structure_based_voxels cv image R D = Ok s) /\
  (forall g, uint8 g -> 0 <= height_of g H <= H) /\
  (forall hue, uint8 hue -> 0 <= hue_layer_of hue L <= L - 1) /\
  (forall d m, (0 <= d)%Q -> (d <= m)%Q -> (0 < m)%Q ->
     0 <= depth_of d m D <= D - 1).
Proof.
  intros cv_ok image_ok HR HH HL HD.
  destruct (height_run cv image R H cv_ok image_ok HR ltac:(lia))
    as (_ & s1 & _ & _ & E1 & _).
  destruct (hue_run cv image R L cv_ok image_ok HR HL) as (_ & s2 & _ & _ & E2 & _).
  destruct (structure_run cv image R D cv_ok image_ok HR HD)
    as (_ & _ & s3 & _ & _ & _ & _ & _ & E3 & _).
  split; [eauto|]. split; [eauto|]. split; [eauto|].
  split; [|split].
  - intros g Hg. apply height_of_bounds; [exact Hg | lia].
  - intros hue Hh. apply hue_layer_of_bounds; [unfold uint8 in Hh; lia | exact HL].
  - intros d m H0 H1 H2. apply depth_of_bounds; assumption.
Qed.

Lemma writes_in_bounds_in_range_witness :
  (exists s, _height_based_voxels (table_cv edge_scene) edge_image 2 32 = Ok s) /\
  (exists s, _color_layered_voxels (table_cv edge_scene) edge_image 2 16 = Ok s) /\
  (exists s, _structure_based_voxels (table_cv edge_scene) edge_image 2 24 = Ok s) /\
  (forall g, uint8 g -> 0 <= height_of g 32 <= 32) /\
  (forall hue, uint8 hue -> 0 <= hue_layer_of hue 16 <= 16 - 1) /\
  (forall d m, (0 <= d)%Q -> (d <= m)%Q -> (0 < m)%Q ->
     0 <= depth_of d m 24 <= 24 - 1).
Proof.
  apply (writes_in_bounds_in_range (table_cv edge_scene) edge_image 2 32 16 24).
  - apply table_cv_ok.
  - apply valid_image_edge.
  - lia.
  - split; [lia | reflexivity].
  - lia.
  - split; [lia | discriminate].
Defined.
